(** * Wealth-tax microsimulation: calibration and tax-computation pipeline

    A shallow embedding of [baseline_simulation.py].  Every pandas column
    operation of the source acts row by row, so a data frame is a list of
    records and a column assignment is a map over that list.

    Numbers.  The source computes in IEEE binary64.  Here every finite
    value is an exact rational ([Q]) and every arithmetic operation is the
    exact one, so the statements below are statements about the
    arithmetic the code asks for, with rounding error left out.  Where the
    source can produce a non-finite value (a division by zero) the model
    says so explicitly, see [Calibrator.xq].

    Randomness.  Every call to a random generator is replaced by an
    explicit argument that supplies the drawn values. *)

From Stdlib Require Import Ascii String QArith Qminmax Qround Qabs Lqa ZArith Lia.
From stdpp Require Import base option list strings gmap.

Local Open Scope Q_scope.

(** ** Comparisons on rationals, as booleans *)

(** [a > b] *)
Definition Qgtb (a b : Q) : bool := negb (Qle_bool a b).
(** [a < b] *)
Definition Qltb (a b : Q) : bool := negb (Qle_bool b a).

(** Sum of a column. *)
Definition Qsum (l : list Q) : Q := foldr Qplus 0 l.

(** * Tax engine *)

Module TaxEngine.

(** The upper end of a bracket: a finite amount or [float("inf")]. *)
Inductive bound := Fin (q : Q) | Inf.

(** A bracket is the tuple [(lower, upper, rate)]. *)
Definition bracket : Type := Q * bound * Q.

(** [min(base, upper)] *)
Definition min_bound (base : Q) (upper : bound) : Q :=
  match upper with
  | Fin u => Qmin base u
  | Inf => base
  end.

Definition scale_Catalonia : list bracket :=
  [ (0, Fin 167129.45, 0.0021); (167129.45, Fin 334252.88, 0.00315);
    (334252.88, Fin 668499.75, 0.00525); (668499.75, Fin 1336999.5, 0.00945);
    (1336999.5, Fin 2673999.0, 0.01365); (2673999.0, Fin 5347998.03, 0.01785);
    (5347998.03, Fin 10695996.06, 0.02205); (10695996.06, Fin 19999999.99, 0.02525);
    (19999999.99, Inf, 0.0348) ].

Definition scale_Madrid : list bracket :=
  [ (0, Fin 167129.45, 0.002); (167129.45, Fin 334252.88, 0.003);
    (334252.88, Fin 668499.75, 0.005); (668499.75, Fin 1336999.5, 0.009);
    (1336999.5, Fin 2673999.0, 0.013); (2673999.0, Fin 5347998.03, 0.017);
    (5347998.03, Fin 10695996.06, 0.021); (10695996.06, Inf, 0.025) ].

Definition scale_Extremadura : list bracket :=
  [ (0, Fin 167129.45, 0.002); (167129.45, Fin 334252.88, 0.003);
    (334252.88, Fin 668499.75, 0.005); (668499.75, Fin 1336999.5, 0.009);
    (1336999.5, Fin 2673999.0, 0.013); (2673999.0, Fin 5347998.03, 0.017);
    (5347998.03, Fin 10695996.06, 0.021); (10695996.06, Inf, 0.0375) ].

Definition scale_Galicia : list bracket :=
  [ (0, Fin 167129.45, 0.002); (167129.45, Fin 334252.88, 0.003);
    (334252.88, Fin 668499.75, 0.005); (668499.75, Fin 1336999.5, 0.009);
    (1336999.5, Fin 2673999.0, 0.013); (2673999.0, Fin 5347998.03, 0.017);
    (5347998.03, Fin 10695996.06, 0.021); (10695996.06, Inf, 0.035) ].

Definition scale_Asturias : list bracket :=
  [ (0, Fin 167129.45, 0.002); (167129.45, Fin 334252.88, 0.003);
    (334252.88, Fin 668499.75, 0.005); (668499.75, Fin 1336999.5, 0.009);
    (1336999.5, Fin 2673999.0, 0.013); (2673999.0, Fin 5347998.03, 0.017);
    (5347998.03, Fin 10695996.06, 0.021); (10695996.06, Inf, 0.025) ].

Definition scale_Valencia : list bracket :=
  [ (0, Fin 167129.45, 0.0025); (167129.45, Fin 334252.88, 0.0035);
    (334252.88, Fin 668499.75, 0.0055); (668499.75, Fin 1336999.5, 0.0095);
    (1336999.5, Fin 2673999.0, 0.0135); (2673999.0, Fin 5347998.03, 0.0175);
    (5347998.03, Fin 10695996.06, 0.0215); (10695996.06, Inf, 0.035) ].

Definition scale_default : list bracket :=
  [ (0, Fin 167129.45, 0.002); (167129.45, Fin 334252.88, 0.003);
    (334252.88, Fin 668499.75, 0.005); (668499.75, Fin 1336999.51, 0.009);
    (1336999.51, Fin 2673999.01, 0.013); (2673999.01, Fin 5347998.03, 0.017);
    (5347998.03, Fin 10695996.06, 0.021); (10695996.06, Inf, 0.025) ].

(** The dict literal [regional_scales] of [calculate_ip_tax]. *)
Definition regional_scales : gmap string (list bracket) :=
  <["default" := scale_default]>
  (<["Valencia" := scale_Valencia]>
  (<["Asturias" := scale_Asturias]>
  (<["Galicia" := scale_Galicia]>
  (<["Extremadura" := scale_Extremadura]>
  (<["Madrid" := scale_Madrid]>
  (<["Catalonia" := scale_Catalonia]> ∅)))))).

(** The [for lower, upper, rate in brackets] loop; [tax] is the running
    total and the [else] branch is the [break]. *)
Fixpoint bracket_loop (brackets : list bracket) (base tax : Q) : Q :=
  match brackets with
  | [] => tax
  | (lower, upper, rate) :: rest =>
      if Qgtb base lower
      then bracket_loop rest base (tax + (min_bound base upper - lower) * rate)
      else tax
  end.

(** [regional_scales.get(region, regional_scales["default"])] *)
Definition brackets_for (region : string) : list bracket :=
  default (regional_scales !!! "default") (regional_scales !! region).

Definition calculate_ip_tax (base : Q) (region : string) : Q :=
  bracket_loop (brackets_for region) base 0.

(** The region names the rest of the program works with
    ([selected_regions] in [calculate_population_over_30]). *)
Definition selected_regions : list string :=
  ["madrid"; "catalonia"; "valencia"; "galicia"; "asturias"; "extremadura"].

(** A table is ascending and gap-free from [lo] on when its first
    bracket starts at [lo], every bracket is non-empty, every bracket
    starts where the one before ends, and the last one, and only the
    last one, ends at infinity. *)
Fixpoint ascending_from (lo : Q) (brackets : list bracket) : bool :=
  match brackets with
  | [] => false
  | (lower, upper, _) :: rest =>
      Qeq_bool lower lo &&
      match upper with
      | Inf => match rest with [] => true | _ => false end
      | Fin u => Qltb lower u && ascending_from u rest
      end
  end.

Definition ascending_gap_free (brackets : list bracket) : bool :=
  ascending_from 0 brackets.

Definition rates_within (top : Q) (brackets : list bracket) : bool :=
  forallb (fun b : bracket => Qle_bool 0 b.2 && Qle_bool b.2 top) brackets.

(** The largest marginal rate of any table (Extremadura's top bracket). *)
Definition top_rate : Q := 0.0375.

(** [simulate_pit] on one income: the national schedule. *)
Definition pit_schedule : list (bound * Q) :=
  [ (Fin 12450, 0.19); (Fin 20200, 0.24); (Fin 35200, 0.30);
    (Fin 60000, 0.37); (Fin 300000, 0.45); (Inf, 0.47) ].

(** The loop of [simulate_pit].  After the bracket whose limit is
    infinite, [last_limit] is infinite and no later bracket can add
    anything; the schedule has none. *)
Fixpoint pit_loop (schedule : list (bound * Q)) (income last_limit taxes : Q) : Q :=
  match schedule with
  | [] => taxes
  | (limit, rate) :: rest =>
      let taxable := Qmax (min_bound income limit - last_limit) 0 in
      let taxes := taxes + taxable * rate in
      match limit with
      | Fin l => pit_loop rest income l taxes
      | Inf => taxes
      end
  end.

Definition simulate_pit (income : Q) : Q := pit_loop pit_schedule income 0 0.

(** The joint cap on one unit, as written in [run_tax_simulation] and in
    [apply_tax_cap_and_adjustments]: the new value of [Wealth_Tax]. *)
Definition joint_cap (wealth_tax pit_liability income : Q) : Q :=
  let cap := 0.60 * income in
  let over_limit := Qgtb (wealth_tax + pit_liability) cap in
  if over_limit then Qmax (0.2 * wealth_tax) (cap - pit_liability)
  else wealth_tax.

(** Rows of the frame given to [apply_tax_cap_and_adjustments]. *)
Record cap_row := {
  Income : Q;
  Wealth_Tax : Q;
  PIT_Liability : Q;
  Declarant_Weight : Q;
  Cap : Q;
  Weighted_Wealth_Tax : Q
}.

Definition apply_tax_cap_row (r : cap_row) : cap_row :=
  let cap := 0.60 * Income r in
  let wt := joint_cap (Wealth_Tax r) (PIT_Liability r) (Income r) in
  {| Income := Income r;
     Wealth_Tax := wt;
     PIT_Liability := PIT_Liability r;
     Declarant_Weight := Declarant_Weight r;
     Cap := cap;
     Weighted_Wealth_Tax := wt * Declarant_Weight r |}.

Definition apply_tax_cap_and_adjustments (df : list cap_row) : list cap_row :=
  map apply_tax_cap_row df.

(** A schedule covers the incomes above [last] when its limits ascend
    from [last] and its last limit is infinite. *)
Fixpoint pit_covering (last : Q) (schedule : list (bound * Q)) : bool :=
  match schedule with
  | [] => false
  | (Fin l, _) :: rest => Qle_bool last l && pit_covering l rest
  | (Inf, _) :: _ => true
  end.

Definition pit_rates_between (lo hi : Q) (schedule : list (bound * Q)) : bool :=
  forallb (fun b : bound * Q => Qle_bool lo b.2 && Qle_bool b.2 hi) schedule.

End TaxEngine.

(** * Strings *)

Module Str.

(** [str.lower()] on ASCII text: only [A]..[Z] change. *)
Definition lower_ascii (c : ascii) : ascii :=
  let n := nat_of_ascii c in
  if (65 <=? n)%nat && (n <=? 90)%nat then ascii_of_nat (n + 32) else c.

Fixpoint lower (s : string) : string :=
  match s with
  | EmptyString => EmptyString
  | String c rest => String (lower_ascii c) (lower rest)
  end.

(** ASCII white space, as removed by [str.strip()]. *)
Definition is_space (c : ascii) : bool :=
  let n := nat_of_ascii c in
  ((9 <=? n)%nat && (n <=? 13)%nat) || ((28 <=? n)%nat && (n <=? 32)%nat).

Fixpoint lstrip (s : string) : string :=
  match s with
  | EmptyString => EmptyString
  | String c rest => if is_space c then lstrip rest else s
  end.

(** Drops trailing white space: a character is kept when it is not a
    space or when something that is kept follows it. *)
Fixpoint rstrip (s : string) : string :=
  match s with
  | EmptyString => EmptyString
  | String c rest =>
      match rstrip rest with
      | EmptyString => if is_space c then EmptyString else String c EmptyString
      | kept => String c kept
      end
  end.

Definition strip (s : string) : string := rstrip (lstrip s).

End Str.

(** * Behavioural module and the tax run of [main] *)

Module Pipeline.

(** The columns of [individuals] that [run_tax_simulation] reads.  On
    the path from [main] the column [Total_Assets_Pareto] is present,
    so [Total_Assets] is overwritten with it. *)
Record unit_row := {
  in_Region : string;
  in_Wealth_Rank : Q;
  in_Total_Assets_Pareto : Q;
  in_Debt_Ratio : Q;
  in_Real_Asset_Ratio : Q;
  in_Financial_Asset_Ratio : Q;
  in_Business_Asset_Ratio : Q;
  in_Income : Q
}.

(** The uniform variates consumed for one unit: the Bernoulli draw of
    the [assign_erosion] call inside [run_tax_simulation], the one of
    the second [assign_erosion] call in [main], and the draw of
    [apply_migration_module].  A Bernoulli draw with probability [p]
    is 1 exactly when its variate is below [p]. *)
Record draws := {
  u_dropout_run : Q;
  u_dropout_main : Q;
  u_migration : Q
}.

Record taxed_row := {
  Region : string;
  Wealth_Rank : Q;
  Income : Q;
  Debt_Ratio : Q;
  Real_Asset_Ratio : Q;
  Financial_Asset_Ratio : Q;
  Business_Asset_Ratio : Q;
  Total_Assets : Q;
  Debts : Q;
  Net_Wealth : Q;
  Real_Assets : Q;
  Financial_Assets : Q;
  Business_Assets : Q;
  Adj_Real_Assets : Q;
  Adj_Financial_Assets : Q;
  Adj_Business_Assets : Q;
  Adj_Total_Assets : Q;
  Adj_Net_Wealth : Q;
  Business_Exemption : Q;
  Primary_Residence_Exempt : Q;
  Personal_Exemption : Q;
  Business_Reclass : Q;
  Gross_Tax_Base : Q;
  Net_Tax_Base : Q;
  Gross_Assets : Q;
  Is_Declarant : bool;
  Is_Taxpayer : bool;
  Erosion_Factor : Q;
  Dropout_Prob : Q;
  Dropout : Z;
  Taxable_Wealth : Q;
  Taxable_Wealth_Baseline : Q;
  Taxable_Wealth_Eroded : Q;
  Wealth_Tax : Q;
  PIT_Liability : Q;
  Cap : Q
}.

(** [np.random.binomial(1, p)] from its uniform variate. *)
Definition binomial1 (p u : Q) : Z := if Qltb u p then 1%Z else 0%Z.

Definition indicator (b : bool) : Q := if b then 1 else 0.

(** The columns computed by [assign_erosion] for one unit. *)
Definition base_erosion (wealth_rank : Q) : Q :=
  if Qgtb wealth_rank 0.999 then 0.35
  else if Qgtb wealth_rank 0.99 then 0.25
  else if Qgtb wealth_rank 0.90 then 0.15
  else if Qgtb wealth_rank 0.75 then 0.07
  else 0.02.

Definition erosion_modifier (bar rar far income adj_net_wealth : Q) : Q :=
  1.0 + 0.10 * indicator (Qgtb bar 0.2)
      + 0.02 * indicator (Qgtb rar 0.4)
      + 0.08 * indicator (Qgtb far 0.4)
      + 0.05 * indicator (Qltb income (0.6 * adj_net_wealth)).

Definition dropout_prob (nw : Q) : Q :=
  if Qltb nw 2000000 then 0.0
  else if Qltb nw 10000000 then (nw - 2000000) / 8000000 * 0.10
  else 0.10 + Qmin ((nw - 10000000) / 90000000 * 0.20) 0.20.

Definition set_erosion (r : taxed_row) (ef dp : Q) (d : Z) : taxed_row :=
  {| Region := Region r; Wealth_Rank := Wealth_Rank r; Income := Income r;
     Debt_Ratio := Debt_Ratio r; Real_Asset_Ratio := Real_Asset_Ratio r;
     Financial_Asset_Ratio := Financial_Asset_Ratio r;
     Business_Asset_Ratio := Business_Asset_Ratio r;
     Total_Assets := Total_Assets r; Debts := Debts r; Net_Wealth := Net_Wealth r;
     Real_Assets := Real_Assets r; Financial_Assets := Financial_Assets r;
     Business_Assets := Business_Assets r;
     Adj_Real_Assets := Adj_Real_Assets r;
     Adj_Financial_Assets := Adj_Financial_Assets r;
     Adj_Business_Assets := Adj_Business_Assets r;
     Adj_Total_Assets := Adj_Total_Assets r; Adj_Net_Wealth := Adj_Net_Wealth r;
     Business_Exemption := Business_Exemption r;
     Primary_Residence_Exempt := Primary_Residence_Exempt r;
     Personal_Exemption := Personal_Exemption r;
     Business_Reclass := Business_Reclass r;
     Gross_Tax_Base := Gross_Tax_Base r; Net_Tax_Base := Net_Tax_Base r;
     Gross_Assets := Gross_Assets r;
     Is_Declarant := Is_Declarant r; Is_Taxpayer := Is_Taxpayer r;
     Erosion_Factor := ef; Dropout_Prob := dp; Dropout := d;
     Taxable_Wealth := Taxable_Wealth r;
     Taxable_Wealth_Baseline := Taxable_Wealth_Baseline r;
     Taxable_Wealth_Eroded := Taxable_Wealth_Eroded r;
     Wealth_Tax := Wealth_Tax r; PIT_Liability := PIT_Liability r; Cap := Cap r |}.

(** [assign_erosion(df, max_erosion)] with [base_dropouts=True], on one
    row; [u] is the variate of the Bernoulli draw. *)
Definition assign_erosion (max_erosion : Q) (u : Q) (r : taxed_row) : taxed_row :=
  let modifier :=
    erosion_modifier (Business_Asset_Ratio r) (Real_Asset_Ratio r)
                     (Financial_Asset_Ratio r) (Income r) (Adj_Net_Wealth r) in
  let erosion_factor := Qmin (base_erosion (Wealth_Rank r) * modifier) max_erosion in
  let dp := dropout_prob (Adj_Net_Wealth r) in
  set_erosion r erosion_factor dp (binomial1 dp u).

Definition exemption_map : gmap string Q :=
  <["madrid" := 700000]>
  (<["galicia" := 700000]>
  (<["asturias" := 700000]>
  (<["valencia" := 500000]>
  (<["extremadura" := 500000]>
  (<["catalonia" := 500000]> ∅))))).

(** [run_tax_simulation] up to and including the call of
    [assign_erosion]: the columns are given their values in the order
    of the source; [Adj_Business_Assets], [Adj_Total_Assets] and
    [Adj_Net_Wealth] hold their values after the reclassification.
    The columns still to come are filled with 0. *)
Definition tax_bases (i : unit_row) (u_dropout : Q) : taxed_row :=
  let total_assets := in_Total_Assets_Pareto i in
  let debts := total_assets * in_Debt_Ratio i in
  let net_wealth := total_assets - debts in
  let real_assets := total_assets * in_Real_Asset_Ratio i in
  let financial_assets := total_assets * in_Financial_Asset_Ratio i in
  let business_assets := total_assets * in_Business_Asset_Ratio i in
  let adj_real_assets := real_assets * 0.75 in
  let adj_financial_assets := financial_assets in
  let adj_business_assets := business_assets * 0.70 in
  let business_exemption := 0.0 in
  let primary_residence_exempt := Qmin adj_real_assets 300000 in
  let personal_exemption := default 700000 (exemption_map !! in_Region i) in
  let reclass_mask := Qgtb (in_Business_Asset_Ratio i) 0.2 in
  let business_reclass := if reclass_mask then adj_business_assets * 0.2 else 0.0 in
  let adj_business_assets := adj_business_assets - business_reclass in
  let adj_total_assets := adj_real_assets + adj_financial_assets + adj_business_assets in
  let adj_net_wealth := adj_total_assets - debts in
  let gross_tax_base := adj_net_wealth - primary_residence_exempt - business_exemption in
  let net_tax_base := Qmax (gross_tax_base - personal_exemption) 0 in
  let gross_assets := adj_total_assets in
  let is_declarant := Qgtb net_tax_base 0 || Qgtb gross_assets 2000000 in
  assign_erosion 0.40 u_dropout
    {| Region := in_Region i; Wealth_Rank := in_Wealth_Rank i; Income := in_Income i;
       Debt_Ratio := in_Debt_Ratio i; Real_Asset_Ratio := in_Real_Asset_Ratio i;
       Financial_Asset_Ratio := in_Financial_Asset_Ratio i;
       Business_Asset_Ratio := in_Business_Asset_Ratio i;
       Total_Assets := total_assets; Debts := debts; Net_Wealth := net_wealth;
       Real_Assets := real_assets; Financial_Assets := financial_assets;
       Business_Assets := business_assets;
       Adj_Real_Assets := adj_real_assets;
       Adj_Financial_Assets := adj_financial_assets;
       Adj_Business_Assets := adj_business_assets;
       Adj_Total_Assets := adj_total_assets; Adj_Net_Wealth := adj_net_wealth;
       Business_Exemption := business_exemption;
       Primary_Residence_Exempt := primary_residence_exempt;
       Personal_Exemption := personal_exemption;
       Business_Reclass := business_reclass;
       Gross_Tax_Base := gross_tax_base; Net_Tax_Base := net_tax_base;
       Gross_Assets := gross_assets;
       Is_Declarant := is_declarant; Is_Taxpayer := is_declarant;
       Erosion_Factor := 0; Dropout_Prob := 0; Dropout := 0%Z;
       Taxable_Wealth := 0; Taxable_Wealth_Baseline := 0;
       Taxable_Wealth_Eroded := 0;
       Wealth_Tax := 0; PIT_Liability := 0; Cap := 0 |}.

(** The rest of [run_tax_simulation] up to the cap: the bumps, the
    taxable bases, the bracket tax, the zeroing of dropouts and the
    income tax.  [Cap] is still 0 in the result. *)
Definition tax_before_cap (r : taxed_row) : taxed_row :=
  let liquid_heavy := Qgtb (Financial_Asset_Ratio r) 0.4 in
  let income := if liquid_heavy then Income r * 0.95 else Income r in
  let business_high := Qgtb (Business_Asset_Ratio r) 0.2 in
  let erosion_factor :=
    if business_high then Erosion_Factor r * 1.05 else Erosion_Factor r * 1.10 in
  let erosion_factor := Qmin erosion_factor 0.3 in
  let taxable_wealth :=
    Qmax (Adj_Net_Wealth r - Personal_Exemption r - Primary_Residence_Exempt r
          - Business_Exemption r) 0 in
  let taxable_wealth_eroded := taxable_wealth * (1 - erosion_factor) in
  let wealth_tax := TaxEngine.calculate_ip_tax taxable_wealth_eroded (Region r) in
  let wealth_tax := if (Dropout r >? 0)%Z then 0 else wealth_tax in
  {| Region := Region r; Wealth_Rank := Wealth_Rank r; Income := income;
     Debt_Ratio := Debt_Ratio r; Real_Asset_Ratio := Real_Asset_Ratio r;
     Financial_Asset_Ratio := Financial_Asset_Ratio r;
     Business_Asset_Ratio := Business_Asset_Ratio r;
     Total_Assets := Total_Assets r; Debts := Debts r; Net_Wealth := Net_Wealth r;
     Real_Assets := Real_Assets r; Financial_Assets := Financial_Assets r;
     Business_Assets := Business_Assets r;
     Adj_Real_Assets := Adj_Real_Assets r;
     Adj_Financial_Assets := Adj_Financial_Assets r;
     Adj_Business_Assets := Adj_Business_Assets r;
     Adj_Total_Assets := Adj_Total_Assets r; Adj_Net_Wealth := Adj_Net_Wealth r;
     Business_Exemption := Business_Exemption r;
     Primary_Residence_Exempt := Primary_Residence_Exempt r;
     Personal_Exemption := Personal_Exemption r;
     Business_Reclass := Business_Reclass r;
     Gross_Tax_Base := Gross_Tax_Base r; Net_Tax_Base := Net_Tax_Base r;
     Gross_Assets := Gross_Assets r;
     Is_Declarant := Is_Declarant r; Is_Taxpayer := Is_Taxpayer r;
     Erosion_Factor := erosion_factor;
     Dropout_Prob := Dropout_Prob r; Dropout := Dropout r;
     Taxable_Wealth := taxable_wealth;
     Taxable_Wealth_Baseline := taxable_wealth;
     Taxable_Wealth_Eroded := taxable_wealth_eroded;
     Wealth_Tax := wealth_tax;
     PIT_Liability := TaxEngine.simulate_pit income;
     Cap := 0 |}.

Definition set_cap_and_tax (r : taxed_row) (cap wt : Q) : taxed_row :=
  {| Region := Region r; Wealth_Rank := Wealth_Rank r; Income := Income r;
     Debt_Ratio := Debt_Ratio r; Real_Asset_Ratio := Real_Asset_Ratio r;
     Financial_Asset_Ratio := Financial_Asset_Ratio r;
     Business_Asset_Ratio := Business_Asset_Ratio r;
     Total_Assets := Total_Assets r; Debts := Debts r; Net_Wealth := Net_Wealth r;
     Real_Assets := Real_Assets r; Financial_Assets := Financial_Assets r;
     Business_Assets := Business_Assets r;
     Adj_Real_Assets := Adj_Real_Assets r;
     Adj_Financial_Assets := Adj_Financial_Assets r;
     Adj_Business_Assets := Adj_Business_Assets r;
     Adj_Total_Assets := Adj_Total_Assets r; Adj_Net_Wealth := Adj_Net_Wealth r;
     Business_Exemption := Business_Exemption r;
     Primary_Residence_Exempt := Primary_Residence_Exempt r;
     Personal_Exemption := Personal_Exemption r;
     Business_Reclass := Business_Reclass r;
     Gross_Tax_Base := Gross_Tax_Base r; Net_Tax_Base := Net_Tax_Base r;
     Gross_Assets := Gross_Assets r;
     Is_Declarant := Is_Declarant r; Is_Taxpayer := Is_Taxpayer r;
     Erosion_Factor := Erosion_Factor r;
     Dropout_Prob := Dropout_Prob r; Dropout := Dropout r;
     Taxable_Wealth := Taxable_Wealth r;
     Taxable_Wealth_Baseline := Taxable_Wealth_Baseline r;
     Taxable_Wealth_Eroded := Taxable_Wealth_Eroded r;
     Wealth_Tax := wt; PIT_Liability := PIT_Liability r; Cap := cap |}.

(** The last lines of [run_tax_simulation]: the joint cap. *)
Definition cap_step (r : taxed_row) : taxed_row :=
  set_cap_and_tax r (0.60 * Income r)
    (TaxEngine.joint_cap (Wealth_Tax r) (PIT_Liability r) (Income r)).

Definition run_tax_simulation_row (i : unit_row) (u_dropout : Q) : taxed_row :=
  cap_step (tax_before_cap (tax_bases i u_dropout)).

Definition run_tax_simulation (df : list unit_row) (us : list Q) : list taxed_row :=
  zip_with run_tax_simulation_row df us.

Definition set_wealth (r : taxed_row) (twb twe wt : Q) : taxed_row :=
  {| Region := Region r; Wealth_Rank := Wealth_Rank r; Income := Income r;
     Debt_Ratio := Debt_Ratio r; Real_Asset_Ratio := Real_Asset_Ratio r;
     Financial_Asset_Ratio := Financial_Asset_Ratio r;
     Business_Asset_Ratio := Business_Asset_Ratio r;
     Total_Assets := Total_Assets r; Debts := Debts r; Net_Wealth := Net_Wealth r;
     Real_Assets := Real_Assets r; Financial_Assets := Financial_Assets r;
     Business_Assets := Business_Assets r;
     Adj_Real_Assets := Adj_Real_Assets r;
     Adj_Financial_Assets := Adj_Financial_Assets r;
     Adj_Business_Assets := Adj_Business_Assets r;
     Adj_Total_Assets := Adj_Total_Assets r; Adj_Net_Wealth := Adj_Net_Wealth r;
     Business_Exemption := Business_Exemption r;
     Primary_Residence_Exempt := Primary_Residence_Exempt r;
     Personal_Exemption := Personal_Exemption r;
     Business_Reclass := Business_Reclass r;
     Gross_Tax_Base := Gross_Tax_Base r; Net_Tax_Base := Net_Tax_Base r;
     Gross_Assets := Gross_Assets r;
     Is_Declarant := Is_Declarant r; Is_Taxpayer := Is_Taxpayer r;
     Erosion_Factor := Erosion_Factor r;
     Dropout_Prob := Dropout_Prob r; Dropout := Dropout r;
     Taxable_Wealth := Taxable_Wealth r;
     Taxable_Wealth_Baseline := twb;
     Taxable_Wealth_Eroded := twe;
     Wealth_Tax := wt; PIT_Liability := PIT_Liability r; Cap := Cap r |}.

(** The override of [main]:
    [loc[Region.str.lower() == "madrid", "Wealth_Tax"] = 0.0]. *)
Definition madrid_override (r : taxed_row) : taxed_row :=
  if String.eqb (Str.lower (Region r)) "madrid"
  then set_wealth r (Taxable_Wealth_Baseline r) (Taxable_Wealth_Eroded r) 0.0
  else r.

(** The dicts [thresholds] and [base_probs], keys [top_01], [top_1],
    [top_5] in this order. *)
Definition tiers : Type := Q * Q * Q.

(** [compute_prob] of [apply_migration_module].  When [main] calls the
    module the frame has no column [Wealth_Tax_Baseline] yet, so the
    branch that scales the probability by the liability ratio is not
    taken and [max_ratio_bump] is not used. *)
Definition compute_prob (thresholds base_probs : tiers) (r : taxed_row) : Q :=
  let '(t01, t1, t5) := thresholds in
  let '(p01, p1, p5) := base_probs in
  let wealth_rank := Wealth_Rank r in
  let prob :=
    if Qgtb wealth_rank t01 then p01
    else if Qgtb wealth_rank t1 then p1
    else if Qgtb wealth_rank t5 then p5
    else 0.0 in
  Qmin prob 1.0.

(** The table written by [main]: the columns of [run_tax_simulation]
    and those added afterwards. *)
Record final_row := {
  taxed : taxed_row;
  Final_Weight : Q;
  Migration_Prob : Q;
  Migration_Exit : bool;
  Wealth_Tax_Baseline : Q;
  Taxable_Wealth_Baseline_Eroded : Q;
  Wealth_Tax_Baseline_Eroded : Q;
  Weighted_Wealth_Tax_Baseline_Eroded : Q
}.

(** [apply_migration_module] on one row: the probability, the exit
    flag, and the row with its eroded base and wealth tax zeroed when
    the unit exits. *)
Definition apply_migration_module (thresholds base_probs : tiers) (u : Q)
    (r : taxed_row) : taxed_row * Q * bool :=
  let migration_prob := compute_prob thresholds base_probs r in
  let migration_exit := Qltb u migration_prob in
  let r :=
    if migration_exit then set_wealth r (Taxable_Wealth_Baseline r) 0.0 0.0 else r in
  (r, migration_prob, migration_exit).

(** The tax-simulation part of [main], from the call of
    [run_tax_simulation] to the table that is written out. *)
Definition main_row (i : unit_row) (d : draws) : final_row :=
  let final_weight := 1.0 in
  let r := run_tax_simulation_row i (u_dropout_run d) in
  let r := madrid_override r in
  let r := assign_erosion 0.30 (u_dropout_main d) r in
  let '(r, migration_prob, migration_exit) :=
    apply_migration_module (0.999, 0.99, 0.95) (0.015, 0.007, 0.002)
                           (u_migration d) r in
  let r := set_wealth r (Net_Tax_Base r) (Taxable_Wealth_Eroded r) (Wealth_Tax r) in
  let wealth_tax_baseline :=
    TaxEngine.calculate_ip_tax (Taxable_Wealth_Baseline r) (Region r) in
  let twbe := Taxable_Wealth_Baseline r * (1 - Erosion_Factor r) in
  let wtbe := TaxEngine.calculate_ip_tax twbe (Region r) in
  {| taxed := r;
     Final_Weight := final_weight;
     Migration_Prob := migration_prob;
     Migration_Exit := migration_exit;
     Wealth_Tax_Baseline := wealth_tax_baseline;
     Taxable_Wealth_Baseline_Eroded := twbe;
     Wealth_Tax_Baseline_Eroded := wtbe;
     Weighted_Wealth_Tax_Baseline_Eroded := wtbe * final_weight |}.

Definition main_table (df : list unit_row) (ds : list draws) : list final_row :=
  zip_with main_row df ds.

(** A unit of the Catalonia region with five million of assets, four
    fifths of them financial, and the draws under which it is kept by
    [run_tax_simulation] and flagged by the later draw. *)
Definition late_dropout_unit : unit_row :=
  {| in_Region := "catalonia"; in_Wealth_Rank := 0.5;
     in_Total_Assets_Pareto := 5000000; in_Debt_Ratio := 0;
     in_Real_Asset_Ratio := 0.2; in_Financial_Asset_Ratio := 0.8;
     in_Business_Asset_Ratio := 0; in_Income := 100000 |}.

Definition late_dropout_draws : draws :=
  {| u_dropout_run := 0.5; u_dropout_main := 0.01; u_migration := 0.5 |}.

(** [get_personal_exemption] *)
Definition get_personal_exemption (region : string) : Q :=
  if bool_decide (region ∈ ["catalonia"; "extremadura"; "valencia"])
  then 500000 else 700000.

(** [compute_total_exemption] on a row that has the columns
    [Adj_Real_Assets] and [Business_Exemption], so that neither
    [row.get] falls back to its default. *)
Definition compute_total_exemption (row : taxed_row) : Q :=
  let personal_exemption := get_personal_exemption (Region row) in
  let primary_exempt := Qmin (Adj_Real_Assets row) 300000 in
  personal_exemption + primary_exempt + Business_Exemption row.

End Pipeline.

(** * Unit expander *)

Module Expander.

(** A household row.  The source adds [Original_ID], [Household_Size]
    and [Weight] when they are missing, and scales a monetary column
    only when it is present; here a row has them all. *)
Record household := {
  Original_ID : Z;
  Household_Size : Z;
  Total_Assets : Q;
  Debts : Q;
  Real_Assets : Q;
  Financial_Assets : Q;
  Business_Assets : Q;
  Income : Q;
  Net_Wealth : Q;
  Weight : Q
}.

Record tax_unit := {
  u_Original_ID : Z;
  u_Household_Size : Z;
  u_Total_Assets : Q;
  u_Debts : Q;
  u_Real_Assets : Q;
  u_Financial_Assets : Q;
  u_Business_Assets : Q;
  u_Income : Q;
  u_Net_Wealth : Q;
  u_Weight : Q;
  Tax_Unit_ID : Z;
  Split_From : Z
}.

(** The generator [rng]: [variate k] is the [k]-th uniform variate it
    hands out.  [rng.random(len(df))] takes the first [len(df)] of
    them, each later [rng.random()] the next one. *)
Section WithGenerator.
Variable variate : nat -> Q.
Variables base_threshold split_prob : Q.

(** [df["Split"]] and [df["n_units"]] *)
Definition split_flags (df : list household) : list bool :=
  imap (fun i h => Qgtb (Net_Wealth h) base_threshold && Qltb (variate i) split_prob) df.

Definition n_units_of (split : bool) : nat := if split then 2%nat else 1%nat.

(** [df.loc[df.index.repeat(df["n_units"])]] *)
Fixpoint repeat_rows (df : list household) (n_units : list nat) : list household :=
  match df, n_units with
  | h :: df', n :: n_units' => replicate n h ++ repeat_rows df' n_units'
  | _, _ => []
  end.

(** The loop that fills [ratios]; [k] counts the variates consumed. *)
Fixpoint ratios_loop (n_units : list nat) (k : nat) : list Q :=
  match n_units with
  | [] => []
  | units :: rest =>
      if (units =? 2)%nat then
        (if Qltb (variate k) 0.5 then [0.8; 0.2] else [0.9; 0.1])
          ++ ratios_loop rest (S k)
      else 1.0 :: ratios_loop rest k
  end.

(** [groupby(...).cumcount()]: how many earlier rows carry the same
    key. *)
Definition cumcount (keys : list Z) : list nat :=
  imap (fun j key => length (List.filter (Z.eqb key) (take j keys))) keys.

(** One output row: every monetary column and the weight times the
    ratio, [Tax_Unit_ID = Unit_Index + 1], [Split_From = Original_ID]. *)
Definition scale_unit (h : household) (ratio : Q) (unit_index : nat) : tax_unit :=
  {| u_Original_ID := Original_ID h;
     u_Household_Size := Household_Size h;
     u_Total_Assets := Total_Assets h * ratio;
     u_Debts := Debts h * ratio;
     u_Real_Assets := Real_Assets h * ratio;
     u_Financial_Assets := Financial_Assets h * ratio;
     u_Business_Assets := Business_Assets h * ratio;
     u_Income := Income h * ratio;
     u_Net_Wealth := Net_Wealth h * ratio;
     u_Weight := Weight h * ratio;
     Tax_Unit_ID := (Z.of_nat unit_index + 1)%Z;
     Split_From := Original_ID h |}.

(** [None] stands for the [ValueError] raised when the number of
    ratios differs from the number of repeated rows. *)
Definition expand_households_to_individuals (df : list household)
    : option (list tax_unit) :=
  let n_units := map n_units_of (split_flags df) in
  let repeated_df := repeat_rows df n_units in
  let unit_index := cumcount (map Original_ID repeated_df) in
  let ratios := ratios_loop n_units (length df) in
  if negb (length ratios =? length repeated_df)%nat then None
  else Some (zip_with (fun hr idx => scale_unit hr.1 hr.2 idx)
                      (zip repeated_df ratios) unit_index).

End WithGenerator.

(** The sum of a column over the units that were split from the
    household with the given identifier. *)
Definition sum_over_units (column : tax_unit -> Q) (id : Z) (units : list tax_unit) : Q :=
  Qsum (map column (List.filter (fun u => Z.eqb (Split_From u) id) units)).

(** The pairs of a household column and the unit column derived from
    it: the seven monetary columns and the weight. *)
Definition scaled_columns : list ((household -> Q) * (tax_unit -> Q)) :=
  [ (Total_Assets, u_Total_Assets); (Debts, u_Debts);
    (Real_Assets, u_Real_Assets); (Financial_Assets, u_Financial_Assets);
    (Business_Assets, u_Business_Assets); (Income, u_Income);
    (Net_Wealth, u_Net_Wealth); (Weight, u_Weight) ].

Definition sample_household (id : Z) (net_wealth : Q) : household :=
  {| Original_ID := id; Household_Size := 2;
     Total_Assets := net_wealth + 50000; Debts := 50000;
     Real_Assets := net_wealth / 2; Financial_Assets := net_wealth / 2 + 50000;
     Business_Assets := 0; Income := 40000;
     Net_Wealth := net_wealth; Weight := 1.0 |}.

Definition sample_households : list household :=
  [ sample_household 0 1500000; sample_household 1 300000;
    sample_household 2 2500000 ].

(** Variates under which household 0 is split 0.8/0.2 and household 2
    is split 0.9/0.1. *)
Definition sample_variates (k : nat) : Q :=
  match k with
  | 3%nat => 0.25
  | 4%nat => 0.75
  | _ => 0.1
  end.

End Expander.

(** * Calibration of the final weights *)

Module Diagnostics.

(** The columns of the frame that the rescaling reads or writes. *)
Record unit_row := {
  Region : string;
  Is_Taxpayer : bool;
  Final_Weight : Q
}.

(** [df["Region"].str.strip().str.lower()] *)
Definition normalize_region (u : unit_row) : unit_row :=
  {| Region := Str.lower (Str.strip (Region u));
     Is_Taxpayer := Is_Taxpayer u;
     Final_Weight := Final_Weight u |}.

(** [(df["Region"] == region) & (df["Is_Taxpayer"] == 1)] on one row
    of the normalised frame. *)
Definition in_mask (region : string) (u : unit_row) : bool :=
  String.eqb (Region u) region && Is_Taxpayer u.

(** [regional_declarants["Final_Weight"].sum()] *)
Definition total_weight (df : list unit_row) (region : string) : Q :=
  Qsum (map Final_Weight (List.filter (in_mask region) df)).

(** One turn of the loop over [region_targets_quota.items()].  [df] is
    the normalised frame, whose [Final_Weight] the loop never writes;
    [scaled] is the column [Scaled_Taxpayer_Weight].  The two early
    exits are the two [continue] statements. *)
Definition rescale_region (df : list unit_row) (scaled : list Q)
    (item : string * Q) : list Q :=
  let '(region, target_count) := item in
  let regional_declarants := List.filter (in_mask region) df in
  match regional_declarants with
  | [] => scaled
  | _ =>
      let total := total_weight df region in
      if Qeq_bool total 0 then scaled
      else
        let scaling_factor := target_count / total in
        zip_with (fun u w => if in_mask region u then w * scaling_factor else w)
                 df scaled
  end.

(** [region_targets_quota] is a dict; its items are taken in insertion
    order. *)
Definition scale_final_weights_by_taxpayer_counts
    (df : list unit_row) (region_targets_quota : list (string * Q)) : list unit_row :=
  let df := map normalize_region df in
  let scaled := map Final_Weight df in
  let scaled := fold_left (rescale_region df) region_targets_quota scaled in
  zip_with (fun u w => {| Region := Region u; Is_Taxpayer := Is_Taxpayer u;
                          Final_Weight := w |}) df scaled.

(** Two regions: Galicia has taxpayers of positive weight, Asturias
    has one taxpayer of weight 0 and Madrid has no taxpayer at all. *)
Definition sample_frame : list unit_row :=
  [ {| Region := "Galicia "; Is_Taxpayer := true; Final_Weight := 2 |};
    {| Region := "galicia"; Is_Taxpayer := false; Final_Weight := 5 |};
    {| Region := "asturias"; Is_Taxpayer := true; Final_Weight := 0 |};
    {| Region := "asturias"; Is_Taxpayer := false; Final_Weight := 3 |};
    {| Region := " Madrid"; Is_Taxpayer := false; Final_Weight := 7 |} ].

Definition sample_quota : list (string * Q) :=
  [ ("galicia", 10); ("asturias", 40); ("madrid", 25) ].

End Diagnostics.

(** * Population synthesizer *)

(** What a call does: it raises, or it returns. *)
Inductive outcome (E A : Type) : Type :=
  | Raised (e : E)
  | Returned (a : A).
Arguments Raised {E A} e.
Arguments Returned {E A} a.

Module Synthesizer.

(** [round()] and [Series.round()]: to the nearest integer, a tie to
    the even one. *)
Definition round_half_even (q : Q) : Z :=
  let f := Qfloor q in
  let r := q - inject_Z f in
  if Qltb r 0.5 then f
  else if Qgtb r 0.5 then (f + 1)%Z
  else if Z.even f then f else (f + 1)%Z.

Definition Zsum (l : list Z) : Z := foldr Z.add 0%Z l.

(** The scan behind [idxmax]: the position of the first largest entry.
    [best] and [best_i] are the largest entry so far and its position,
    [i] is the position of the head of [l]. *)
Fixpoint argmax_from (l : list Z) (best : Z) (best_i i : nat) : nat :=
  match l with
  | [] => best_i
  | x :: rest =>
      if (best <? x)%Z then argmax_from rest x i (S i)
      else argmax_from rest best best_i (S i)
  end.

Definition idxmax (l : list Z) : option nat :=
  match l with
  | [] => None
  | x :: rest => Some (argmax_from rest x 0 1)
  end.

Inductive error :=
  | ZeroDivisionError       (* [simulated_population / 0] *)
  | EmptyArgmax             (* [idxmax] of an empty column *)
  | NegativeRepeats         (* [np.repeat] with a negative count *)
  | NegativeSize.           (* [rng.choice] with a negative size *)

(** [int(round(simulated_population / avg_household_size))] *)
Definition total_households_of (simulated_population : Z) (avg_household_size : Q)
    : outcome error Z :=
  if Qeq_bool avg_household_size 0 then Raised ZeroDivisionError
  else Returned (round_half_even (inject_Z simulated_population / avg_household_size)).

(** The column [Num_Households] after the adjustment for the rounding
    mismatch.  A row of [region_weights_df] is [(Region, Population)]. *)
Definition household_counts (region_weights_df : list (string * Q))
    (total_households : Z) : outcome error (list Z) :=
  let num := map (fun row : string * Q =>
                    round_half_even (row.2 * inject_Z total_households))
                 region_weights_df in
  let diff := (total_households - Zsum num)%Z in
  if (diff =? 0)%Z then Returned num
  else
    match idxmax num with
    | None => Raised EmptyArgmax
    | Some idx => Returned (alter (fun n => (n + diff)%Z) idx num)
    end.

(** [np.repeat(df["Region"].values, df["Num_Households"].values)] *)
Fixpoint repeat_regions (regions : list string) (counts : list Z) : list string :=
  match regions, counts with
  | r :: regions', c :: counts' => replicate (Z.to_nat c) r ++ repeat_regions regions' counts'
  | _, _ => []
  end.

(** [rng.choice([1, 2], size=total_households, p=[0.3, 0.7])], the
    [i]-th size from the [i]-th uniform variate. *)
Definition household_sizes (variate : nat -> Q) (total_households : Z) : list Z :=
  map (fun i => if Qltb (variate i) 0.3 then 1%Z else 2%Z)
      (seq 0 (Z.to_nat total_households)).

(** The result rows are [(Region, Household_Size)]; the two columns
    given to the frame constructor have the same length whenever both
    could be built. *)
Definition generate_scaled_households (region_weights_df : list (string * Q))
    (simulated_population : Z) (avg_household_size : Q) (variate : nat -> Q)
    : outcome error (list (string * Z)) :=
  match total_households_of simulated_population avg_household_size with
  | Raised e => Raised e
  | Returned total_households =>
      match household_counts region_weights_df total_households with
      | Raised e => Raised e
      | Returned counts =>
          if existsb (fun c => (c <? 0)%Z) counts then Raised NegativeRepeats
          else if (total_households <? 0)%Z then Raised NegativeSize
          else Returned (zip (repeat_regions (map fst region_weights_df) counts)
                             (household_sizes variate total_households))
      end
  end.

(** Five regions of equal share. *)
Definition five_equal_regions : list (string * Q) :=
  [ ("a", 0.2); ("b", 0.2); ("c", 0.2); ("d", 0.2); ("e", 0.2) ].

(** Two regions with shares 0.6 and 0.4. *)
Definition two_regions : list (string * Q) := [ ("north", 0.6); ("south", 0.4) ].

End Synthesizer.

(** * Wealth calibrator *)

Module Calibrator.

(** ** Values that may be non-finite

    A division by zero does not raise in numpy or pandas: it yields an
    infinity or a NaN, which then spreads through the later products.
    The sign of a zero is not tracked: a zero divisor counts as +0. *)
Inductive xq :=
  | Finite (q : Q)
  | PosInf
  | NegInf
  | NaN.

(** The sign of a non-zero infinite result. *)
Definition signed_inf (positive : bool) : xq := if positive then PosInf else NegInf.

(** [a / b] on finite operands. *)
Definition qdiv (a b : Q) : xq :=
  if Qeq_bool b 0 then
    if Qeq_bool a 0 then NaN else signed_inf (Qltb 0 a)
  else Finite (a / b).

(** [a / y] with a finite numerator. *)
Definition xdiv (a : Q) (y : xq) : xq :=
  match y with
  | Finite b => qdiv a b
  | PosInf | NegInf => Finite 0
  | NaN => NaN
  end.

(** [a * y] with a finite left factor. *)
Definition xmul (a : Q) (y : xq) : xq :=
  match y with
  | Finite b => Finite (a * b)
  | PosInf => if Qeq_bool a 0 then NaN else signed_inf (Qltb 0 a)
  | NegInf => if Qeq_bool a 0 then NaN else signed_inf (Qltb a 0)
  | NaN => NaN
  end.

Definition is_finite (x : xq) : bool :=
  match x with Finite _ => true | _ => false end.

(** ** Percentile-share reweighting *)

(** The two columns of the input that the function reads, named by
    the defaults [value_col="Net_Wealth"] and [weight_col="Weight"]. *)
Record unit_row := {
  Net_Wealth : Q;
  Weight : Q
}.

Record reweighted_row := {
  r_Net_Wealth : Q;
  r_Weight : Q;
  Wealth_Rank : Q;
  Wealth_Percentile : option nat;   (* [None] is the missing label *)
  Weighted_Wealth : Q;
  Scaling_Factor : xq;
  Adjusted_Weight : xq
}.

Inductive error :=
  | BinEdgesNotUnique      (* raised inside [pd.qcut] *)
  | PercentileMismatch.    (* fewer groups than target shares *)

(** [rank(method="first")]: one plus the number of smaller values plus
    the number of equal values that come earlier in the frame. *)
Definition rank_first (values : list Q) : list nat :=
  imap (fun i v =>
          (1 + length (List.filter (fun x => Qltb x v) values)
             + length (List.filter (fun x => Qeq_bool x v) (take i values)))%nat)
       values.

Definition Q_of_nat (n : nat) : Q := inject_Z (Z.of_nat n).

(** [rank(method="first", pct=True)] *)
Definition rank_pct (values : list Q) : list Q :=
  map (fun r => Q_of_nat r / Q_of_nat (length values)) (rank_first values).

Fixpoint insert_sorted (x : Q) (l : list Q) : list Q :=
  match l with
  | [] => [x]
  | y :: rest => if Qle_bool x y then x :: l else y :: insert_sorted x rest
  end.

Definition sort_values (l : list Q) : list Q := foldr insert_sorted [] l.

(** A list is ascending when each element is at most every later one. *)
Fixpoint ascending (l : list Q) : Prop :=
  match l with
  | [] => True
  | x :: rest => (forall y, In y rest -> x <= y) /\ ascending rest
  end.

(** [Series.quantile(q)] with linear interpolation, on the sorted
    values. *)
Definition quantile (sorted : list Q) (q : Q) : Q :=
  let n := length sorted in
  let pos := q * (Q_of_nat n - 1) in
  let lo := Z.to_nat (Qfloor pos) in
  let frac := pos - Q_of_nat lo in
  let a := nth lo sorted 0 in
  let b := nth (Nat.min (lo + 1) (n - 1)) sorted 0 in
  a + (b - a) * frac.

(** [np.linspace(0, 1, q + 1)] *)
Definition linspace01 (q : nat) : list Q :=
  map (fun k => Q_of_nat k / Q_of_nat q) (seq 0 (q + 1)).

Fixpoint strictly_increasing (l : list Q) : bool :=
  match l with
  | x :: (y :: _) as rest => Qltb x y && strictly_increasing rest
  | _ => true
  end.

(** The label of one value: [searchsorted(side="left")] counts the
    edges strictly below it, the lowest edge is included in the first
    bin, and a value outside all bins gets the missing label. *)
Definition cut_label (edges : list Q) (x : Q) : option nat :=
  let ids := length (List.filter (fun e => Qltb e x) edges) in
  let ids := if Qeq_bool x (nth 0 edges 0) then 1%nat else ids in
  if (ids =? 0)%nat || (ids =? length edges)%nat then None
  else Some (ids - 1)%nat.

(** [pd.qcut(x, q, labels=False)].  With no value at all the edges are
    all missing and the uniqueness check fails as well. *)
Definition qcut (x : list Q) (q : nat) : outcome error (list (option nat)) :=
  let edges := map (quantile (sort_values x)) (linspace01 q) in
  if negb (strictly_increasing edges) || (length x =? 0)%nat
  then Raised BinEdgesNotUnique
  else Returned (map (cut_label edges) x).

(** The sum of a column over the rows with a given label. *)
Definition bin_sum (column : reweighted_row -> Q) (b : nat)
    (rows : list reweighted_row) : Q :=
  Qsum (map column
          (List.filter (fun r => bool_decide (Wealth_Percentile r = Some b)) rows)).

(** [groupby("Wealth_Percentile")]: the labels that occur, ascending.
    The labels of [qcut] with [q] bins lie below [q]; rows with the
    missing label belong to no group. *)
Definition groups (q : nat) (rows : list reweighted_row) : list nat :=
  List.filter
    (fun b => existsb (fun r => bool_decide (Wealth_Percentile r = Some b)) rows)
    (seq 0 q).

Definition raw_target_shares : list Q :=
  [0.00; 0.01; 0.02; 0.04; 0.07; 0.10; 0.13; 0.18; 0.25; 0.20].

(** [target_shares /= target_shares.sum()]; the sum is not 0. *)
Definition target_shares : list Q :=
  map (fun t => t / Qsum raw_target_shares) raw_target_shares.

(** [Wealth_Percentile.map(dict(enumerate(scaling_factors)))]: a label
    that is missing or not a key gives a missing factor. *)
Definition lookup_factor (scaling_factors : list xq) (label : option nat) : xq :=
  match label with
  | Some b => default NaN (scaling_factors !! b)
  | None => NaN
  end.

(** The frame after the columns [Wealth_Rank], [Wealth_Percentile]
    and [Weighted_Wealth] are set; the two columns still to come are
    filled with NaN. *)
Definition ranked_rows (dataframe : list unit_row) (percentiles : nat)
    : outcome error (list reweighted_row) :=
  let df_copy := List.filter (fun r => Qle_bool 0 (Net_Wealth r)) dataframe in
  let ranks := rank_pct (map Net_Wealth df_copy) in
  match qcut ranks percentiles with
  | Raised e => Raised e
  | Returned labels =>
      Returned
        (zip_with (fun (r : unit_row) (rl : Q * option nat) =>
                     {| r_Net_Wealth := Net_Wealth r; r_Weight := Weight r;
                        Wealth_Rank := rl.1; Wealth_Percentile := rl.2;
                        Weighted_Wealth := Net_Wealth r * Weight r;
                        Scaling_Factor := NaN; Adjusted_Weight := NaN |})
                  df_copy (zip ranks labels))
  end.

(** [actual_shares], the length check, and [scaling_factors]. *)
Definition scaling_factors_of (percentiles : nat) (rows : list reweighted_row)
    : outcome error (list xq) :=
  let sums := map (fun b => bin_sum Weighted_Wealth b rows) (groups percentiles rows) in
  let total := Qsum sums in
  let actual_shares := map (fun s => qdiv s total) sums in
  if negb (length actual_shares =? length target_shares)%nat
  then Raised PercentileMismatch
  else Returned (zip_with xdiv target_shares actual_shares).

(** The columns [Scaling_Factor] and [Adjusted_Weight] of one row. *)
Definition set_factor (scaling_factors : list xq) (r : reweighted_row) : reweighted_row :=
  let factor := lookup_factor scaling_factors (Wealth_Percentile r) in
  {| r_Net_Wealth := r_Net_Wealth r; r_Weight := r_Weight r;
     Wealth_Rank := Wealth_Rank r;
     Wealth_Percentile := Wealth_Percentile r;
     Weighted_Wealth := Weighted_Wealth r;
     Scaling_Factor := factor;
     Adjusted_Weight := xmul (r_Weight r) factor |}.

Definition reweight_to_match_percentile_shares (dataframe : list unit_row)
    (percentiles : nat) : outcome error (list reweighted_row) :=
  match ranked_rows dataframe percentiles with
  | Raised e => Raised e
  | Returned rows =>
      match scaling_factors_of percentiles rows with
      | Raised e => Raised e
      | Returned scaling_factors => Returned (map (set_factor scaling_factors) rows)
      end
  end.

(** The total weighted value, as the sum of the ten group sums. *)
Definition weighted_total (rows : list reweighted_row) : Q :=
  Qsum (map (fun b => bin_sum Weighted_Wealth b rows) (seq 0 10)).

(** The finite value of an adjusted weight (0 when it is not finite). *)
Definition finite_part (x : xq) : Q :=
  match x with Finite q => q | _ => 0 end.

(** The weighted value of a row under its adjusted weight, and the
    share of a bin in the total over the ten bins. *)
Definition adjusted_wealth (r : reweighted_row) : Q :=
  r_Net_Wealth r * finite_part (Adjusted_Weight r).

Definition adjusted_share (rows : list reweighted_row) (b : nat) : Q :=
  bin_sum adjusted_wealth b rows
  / Qsum (map (fun b' => bin_sum adjusted_wealth b' rows) (seq 0 10)).

Definition total_weighted_value (dataframe : list unit_row) : Q :=
  Qsum (map (fun r => Net_Wealth r * Weight r) dataframe).

(** What the reweighting is meant to achieve on a frame: it returns,
    every adjusted weight is finite, and every bin's share under the
    adjusted weights is within 1e-9 of its target. *)
Definition matches_targets (dataframe : list unit_row) : Prop :=
  exists rows,
    reweight_to_match_percentile_shares dataframe 10 = Returned rows /\
    Forall (fun r => is_finite (Adjusted_Weight r) = true) rows /\
    forall b, (b < 10)%nat ->
      Qabs (adjusted_share rows b - nth b target_shares 0) <= 0.000000001.

Definition frame_of (rows : list (Q * Q)) : list unit_row :=
  map (fun vw : Q * Q => {| Net_Wealth := vw.1; Weight := vw.2 |}) rows.

(** Three units of positive wealth and weight. *)
Definition three_units : list unit_row :=
  frame_of [ (1000, 1); (2000, 1); (3000, 1) ].

(** Ten units of wealth 10000, 20000, ..., 100000 and weight 1. *)
Definition ten_units : list unit_row :=
  map (fun k => {| Net_Wealth := Q_of_nat (k + 1) * 10000; Weight := 1 |}) (seq 0 10).

(** The same ten units with weight 0: the total weight and the total
    weighted value are 0. *)
Definition ten_weightless_units : list unit_row :=
  map (fun k => {| Net_Wealth := Q_of_nat (k + 1) * 10000; Weight := 0 |}) (seq 0 10).

(** Ten units of which the two poorest own nothing: the total
    weighted value is positive, two bins hold none of it. *)
Definition two_penniless_units : list unit_row :=
  frame_of [ (0, 1); (0, 1); (3, 1); (4, 1); (5, 1);
             (6, 1); (7, 1); (8, 1); (9, 1); (10, 1) ].

End Calibrator.

(** ** Pareto tail injection *)

Module ParetoTail.

Record unit_row := {
  Total_Assets : Q;
  Debts : Q;
  Net_Wealth : Q;
  Debt_Ratio : Q;
  Weight : Q
}.

(** [sort_values("Total_Assets", ascending=False)].  Units with equal
    assets are kept in the order of the frame; pandas does not promise
    an order for them. *)
Fixpoint insert_desc (x : unit_row) (l : list unit_row) : list unit_row :=
  match l with
  | [] => [x]
  | y :: rest =>
      if Qle_bool (Total_Assets y) (Total_Assets x) then x :: l
      else y :: insert_desc x rest
  end.

Definition sort_desc (df : list unit_row) : list unit_row := foldr insert_desc [] df.

(** [top1_n = int(n * 0.01)] and [top10_n = int(n * 0.10)]: the binary
    constants lie just above 1/100 and 1/10, so the truncated products
    are the integer quotients. *)
Definition top1_n (rows : list unit_row) : nat := (length rows / 100)%nat.
Definition top10_n (rows : list unit_row) : nat := (length rows / 10)%nat.

(** The rows at [top1_indices], at [top10_indices], and the others. *)
Definition top1_window (rows : list unit_row) : list unit_row :=
  take (top1_n rows) rows.
Definition next9_window (rows : list unit_row) : list unit_row :=
  take (top10_n rows - top1_n rows) (drop (top1_n rows) rows).
Definition untouched (rows : list unit_row) : list unit_row :=
  drop (top10_n rows) rows.

(** [(sample * weights).sum()] *)
Definition window_mass (samples : list Q) (rows : list unit_row) : Q :=
  Qsum (zip_with (fun s r => s * Weight r) samples rows).

(** A row of a window after its assets are redrawn: debts and net
    wealth are recomputed from the unchanged debt ratio. *)
Definition set_assets (r : unit_row) (total_assets : Q) : unit_row :=
  let debts := total_assets * Debt_Ratio r in
  {| Total_Assets := total_assets;
     Debts := debts;
     Net_Wealth := total_assets - debts;
     Debt_Ratio := Debt_Ratio r;
     Weight := Weight r |}.

(** One window: [scale = target / (sample * weights).sum()] and
    [ta_arr[indices] = sample * scale].  [None] stands for a window
    that is not empty and whose scale is not finite, so that values
    that are not finite are written into the frame. *)
Definition rescale_window (target : Q) (samples : list Q) (rows : list unit_row)
    : option (list unit_row) :=
  match rows with
  | [] => Some []
  | _ =>
      match Calibrator.qdiv target (window_mass samples rows) with
      | Calibrator.Finite scale =>
          Some (zip_with (fun s r => set_assets r (s * scale)) samples rows)
      | _ => None
      end
  end.

(** [pareto k] is the [k]-th variate that the generator hands out:
    [rng.pareto(alpha, size=top1_n)] takes the first [top1_n], the
    second call the following ones. *)
Definition inject_calibrated_pareto_tail (df : list unit_row)
    (top1_share_target top10_share_target : Q) (pareto : nat -> Q)
    : option (list unit_row) :=
  let df := sort_desc df in
  let total_net_wealth := Qsum (map Net_Wealth df) in
  let top1_sample := map pareto (seq 0 (top1_n df)) in
  let top10_sample := map pareto (seq (top1_n df) (top10_n df - top1_n df)) in
  let target_top10 :=
    top10_share_target * total_net_wealth - top1_share_target * total_net_wealth in
  match rescale_window (top1_share_target * total_net_wealth) top1_sample (top1_window df),
        rescale_window target_top10 top10_sample (next9_window df) with
  | Some top1, Some next9 => Some (top1 ++ next9 ++ untouched df)
  | _, _ => None
  end.

(** What the redraw does to a row [r] of a window, [r'] being the row
    afterwards: debt ratio and weight are kept, debts and net wealth
    are recomputed from the new assets. *)
Definition recomputed (r r' : unit_row) : Prop :=
  Debt_Ratio r' = Debt_Ratio r /\
  Weight r' = Weight r /\
  Debts r' = Total_Assets r' * Debt_Ratio r' /\
  Net_Wealth r' = Total_Assets r' - Debts r'.

Definition weighted_assets (rows : list unit_row) : Q :=
  Qsum (map (fun r => Total_Assets r * Weight r) rows).

Definition weighted_net_wealth (rows : list unit_row) : Q :=
  Qsum (map (fun r => Net_Wealth r * Weight r) rows).

(** A hundred units of weight 1 with net wealth 1000, 999, ..., 901,
    each owing half of its assets. *)
Definition hundred_units : list unit_row :=
  map (fun k =>
         let net_wealth := 1000 - Calibrator.Q_of_nat k in
         {| Total_Assets := 2 * net_wealth; Debts := net_wealth;
            Net_Wealth := net_wealth;
            Debt_Ratio := 0.5; Weight := 1 |})
      (seq 0 100).

Definition unit_variate (k : nat) : Q := 1.

End ParetoTail.

(** * Region summary *)

Module Summary.

Import Pipeline.

(** The sum of a column times [Final_Weight]. *)
Definition weighted_sum (column : final_row -> Q) (rows : list final_row) : Q :=
  Qsum (map (fun r => column r * Final_Weight r) rows).

Definition column_sum (column : final_row -> Q) (rows : list final_row) : Q :=
  Qsum (map column rows).

(** The dict that [generate_region_summary] returns.  A percentage or a
    rate that the source leaves undefined is NaN. *)
Record region_summary := {
  summary_Region : string;
  Revenue_With_Exemptions : Q;
  Revenue_No_Exemptions : Q;
  Exemption_Gap : Q;
  Exemption_Gap_pct : Calibrator.xq;
  BaselineRule_Revenue : Q;
  Decentralization_Gap : Q;
  Decentralization_Gap_pct : Calibrator.xq;
  Num_Taxpayers : nat;
  Avg_Taxpayer_ETR : Calibrator.xq;
  Avg_Top10_ETR : Calibrator.xq
}.

(** [100 * gap / revenue if revenue > 0 else np.nan] *)
Definition gap_pct (gap revenue : Q) : Calibrator.xq :=
  if Qgtb revenue 0 then Calibrator.Finite (100 * gap / revenue) else Calibrator.NaN.

(** The ratio of the summed wealth tax to the summed adjusted net
    wealth over the rows that pass [keep], NaN when no row passes. *)
Definition average_etr (keep : final_row -> bool) (rows : list final_row) : Calibrator.xq :=
  let kept := List.filter keep rows in
  match kept with
  | [] => Calibrator.NaN
  | _ => Calibrator.qdiv (column_sum (fun r => Wealth_Tax (taxed r)) kept)
                         (column_sum (fun r => Adj_Net_Wealth (taxed r)) kept)
  end.

Definition generate_region_summary (df_region : list final_row) (region_name : string)
    : region_summary :=
  let full_base r := TaxEngine.calculate_ip_tax (Adj_Net_Wealth (taxed r)) (Region (taxed r)) in
  let baseline_rule r := TaxEngine.calculate_ip_tax (Adj_Net_Wealth (taxed r)) "Asturias" in
  let total_revenue := weighted_sum (fun r => Wealth_Tax (taxed r)) df_region in
  let fullbase_revenue := weighted_sum full_base df_region in
  let exemption_gap := fullbase_revenue - total_revenue in
  let baseline_rule_revenue := weighted_sum baseline_rule df_region in
  let decentralization_gap := baseline_rule_revenue - total_revenue in
  {| summary_Region := region_name;
     Revenue_With_Exemptions := total_revenue;
     Revenue_No_Exemptions := fullbase_revenue;
     Exemption_Gap := exemption_gap;
     Exemption_Gap_pct := gap_pct exemption_gap fullbase_revenue;
     BaselineRule_Revenue := baseline_rule_revenue;
     Decentralization_Gap := decentralization_gap;
     Decentralization_Gap_pct := gap_pct decentralization_gap total_revenue;
     Num_Taxpayers := length (List.filter (fun r => Is_Taxpayer (taxed r)) df_region);
     Avg_Taxpayer_ETR := average_etr (fun r => Is_Taxpayer (taxed r)) df_region;
     Avg_Top10_ETR := average_etr (fun r => Qgtb (Wealth_Rank (taxed r)) 0.9) df_region |}.

End Summary.

(** * Regional multipliers *)

Module Multipliers.

(** A row of the frame.  In the three ratio columns that the function
    checks, [None] stands for NaN; the frame passes the check only when
    none of them holds a NaN, so whatever is read from these columns
    after the check is a number.  The column [Business_Asset_Ratio] is
    present and holds numbers. *)
Record unit_row := {
  Region : string;
  Total_Assets : Q;
  Debts : Q;
  Net_Wealth : Q;
  Real_Assets : Q;
  Financial_Assets : Q;
  Business_Assets : Q;
  Debt_Ratio : option Q;
  Real_Asset_Ratio : option Q;
  Financial_Asset_Ratio : option Q;
  Business_Asset_Ratio : Q
}.

(** [ValueError(f"Column '{col}' contains NaN values")] *)
Inductive error :=
  | NaNValues (column : string).

Definition region_scaling : gmap string Q :=
  <["asturias" := 0.7]> (<["catalonia" := 1.7]> (<["extremadura" := 0.7]>
  (<["galicia" := 1.5]> (<["valencia" := 0.9]> (<["madrid" := 0.2]> ∅))))).

(** [df["Region"].unique()]: the values in the order in which they
    first appear. *)
Fixpoint unique (l : list string) : list string :=
  match l with
  | [] => []
  | x :: rest => x :: List.filter (fun y => negb (String.eqb y x)) (unique rest)
  end.

(** [df[col].isna().any()] *)
Definition isna (cell : option Q) : bool :=
  match cell with None => true | Some _ => false end.

Definition has_nan (column : unit_row -> option Q) (df : list unit_row) : bool :=
  existsb (fun r => isna (column r)) df.

(** The loop over [required_ratios]: the first column that holds a NaN. *)
Definition first_nan_column (df : list unit_row) : option string :=
  if has_nan Debt_Ratio df then Some "Debt_Ratio"
  else if has_nan Real_Asset_Ratio df then Some "Real_Asset_Ratio"
  else if has_nan Financial_Asset_Ratio df then Some "Financial_Asset_Ratio"
  else None.

Definition value_of (ratio : option Q) : Q := default 0 ratio.

(** What one turn of the loop does to a row under its mask. *)
Definition rescale_row (factor : Q) (recompute : bool) (r : unit_row) : unit_row :=
  let total_assets := Total_Assets r * factor in
  if recompute then
    let debts := total_assets * value_of (Debt_Ratio r) in
    {| Region := Region r;
       Total_Assets := total_assets;
       Debts := debts;
       Net_Wealth := total_assets - debts;
       Real_Assets := total_assets * value_of (Real_Asset_Ratio r);
       Financial_Assets := total_assets * value_of (Financial_Asset_Ratio r);
       Business_Assets := total_assets * Business_Asset_Ratio r;
       Debt_Ratio := Debt_Ratio r;
       Real_Asset_Ratio := Real_Asset_Ratio r;
       Financial_Asset_Ratio := Financial_Asset_Ratio r;
       Business_Asset_Ratio := Business_Asset_Ratio r |}
  else
    {| Region := Region r;
       Total_Assets := total_assets;
       Debts := Debts r;
       Net_Wealth := Net_Wealth r;
       Real_Assets := Real_Assets r;
       Financial_Assets := Financial_Assets r;
       Business_Assets := Business_Assets r;
       Debt_Ratio := Debt_Ratio r;
       Real_Asset_Ratio := Real_Asset_Ratio r;
       Financial_Asset_Ratio := Financial_Asset_Ratio r;
       Business_Asset_Ratio := Business_Asset_Ratio r |}.

(** One turn of the loop over [all_regions]:
    [factor = multipliers.get(region, 1.0)] and the assignments under
    [mask = df["Region"] == region]. *)
Definition region_turn (multipliers : gmap string Q) (recompute : bool)
    (df : list unit_row) (region : string) : list unit_row :=
  let factor := default 1.0 (multipliers !! region) in
  map (fun r => if String.eqb (Region r) region
                then rescale_row factor recompute r else r) df.

Definition apply_region_multipliers (df : list unit_row)
    (multipliers : gmap string Q) (recompute : bool)
    : outcome error (list unit_row) :=
  let all_regions := unique (map Region df) in
  match first_nan_column df with
  | Some column => Raised (NaNValues column)
  | None => Returned (fold_left (region_turn multipliers recompute) all_regions df)
  end.

(** What the whole loop does to one row: a single rescaling, by the
    factor of the row's own region. *)
Definition rescale_once (multipliers : gmap string Q) (recompute : bool)
    (r : unit_row) : unit_row :=
  rescale_row (default 1.0 (multipliers !! Region r)) recompute r.

Definition sample_row (region : string) (total_assets : Q) : unit_row :=
  {| Region := region; Total_Assets := total_assets; Debts := 0; Net_Wealth := 0;
     Real_Assets := 0; Financial_Assets := 0; Business_Assets := 0;
     Debt_Ratio := Some 0.25; Real_Asset_Ratio := Some 0.5;
     Financial_Asset_Ratio := Some 0.5; Business_Asset_Ratio := 0 |}.

Definition sample_frame : list unit_row :=
  [ sample_row "madrid" 1000; sample_row "galicia" 2000;
    sample_row "madrid" 3000; sample_row "Madrid" 4000 ].

End Multipliers.

(** * Concentration measures *)

Module TopShare.

(** A row is the pair of its value and its weight, the two columns
    named by [value_col] and [weight_col]. *)
Definition row : Type := Q * Q.

Definition value_of (r : row) : Q := r.1.
Definition weight_of (r : row) : Q := r.2.

(** [sort_values(by=value_col, ascending=False)].  Rows of equal value
    are kept in the order of the frame; pandas does not promise an
    order for them. *)
Fixpoint insert_desc (x : row) (l : list row) : list row :=
  match l with
  | [] => [x]
  | y :: rest =>
      if Qle_bool (value_of y) (value_of x) then x :: l
      else y :: insert_desc x rest
  end.

Definition sort_desc (df : list row) : list row := foldr insert_desc [] df.

(** [cumsum()], with the running total so far. *)
Fixpoint cumsum_from (acc : Q) (l : list Q) : list Q :=
  match l with
  | [] => []
  | x :: rest => (acc + x) :: cumsum_from (acc + x) rest
  end.

Definition cumsum (l : list Q) : list Q := cumsum_from 0 l.

(** [df[df["CumWeight"] <= cutoff]] *)
Definition rows_within (cutoff : Q) (df : list row) : list row :=
  map fst (List.filter (fun rc : row * Q => Qle_bool rc.2 cutoff)
             (zip df (cumsum (map weight_of df)))).

(** [(df[value_col] * df[weight_col]).sum()] *)
Definition weighted_value (df : list row) : Q :=
  Qsum (map (fun r => value_of r * weight_of r) df).

Definition share_in_top_percentile (df : list row) (top_pct : Q) : Q :=
  let df := List.filter (fun r => Qgtb (value_of r) 0) df in
  let df := sort_desc df in
  let total_weight := Qsum (map weight_of df) in
  if Qeq_bool total_weight 0 then 0.0
  else
    let cutoff := total_weight * top_pct in
    let df_top := rows_within cutoff df in
    let total_weighted_value := weighted_value df in
    let top_weighted_value := weighted_value df_top in
    if Qgtb total_weighted_value 0
    then top_weighted_value / total_weighted_value else 0.0.

(** Five units of weight 1 with values 50, 40, 30, 20 and 10. *)
Definition five_rows : list row :=
  [ (30, 1); (50, 1); (10, 1); (40, 1); (20, 1) ].

End TopShare.

Module Inequality.

Inductive error :=
  | IndexError.    (* [cumw[-1]] on an empty array *)

(** [np.argsort(x)] applied to both arrays: the pairs of a value and
    its weight in ascending order of the value.  Pairs of equal value
    are kept in the order of the arrays; numpy does not promise an
    order for them. *)
Fixpoint insert_asc (p : Q * Q) (l : list (Q * Q)) : list (Q * Q) :=
  match l with
  | [] => [p]
  | q :: rest => if Qle_bool p.1 q.1 then p :: l else q :: insert_asc p rest
  end.

Definition argsort (pairs : list (Q * Q)) : list (Q * Q) := foldr insert_asc [] pairs.

(** [1 - y] where [y] may be non-finite. *)
Definition one_minus (y : Calibrator.xq) : Calibrator.xq :=
  match y with
  | Calibrator.Finite q => Calibrator.Finite (1 - q)
  | Calibrator.PosInf => Calibrator.NegInf
  | Calibrator.NegInf => Calibrator.PosInf
  | Calibrator.NaN => Calibrator.NaN
  end.

(** [np.sum(w * (cumxw - x * w / 2))] *)
Definition lorenz_sum (sorted : list (Q * Q)) (cumxw : list Q) : Q :=
  Qsum (zip_with (fun (p : Q * Q) c => p.2 * (c - p.1 * p.2 / 2)) sorted cumxw).

(** The inner function [weighted_gini(x, w)] of
    [compute_global_inequality_stats]; the two arrays are columns of
    one frame and have the same length. *)
Definition weighted_gini (x w : list Q) : outcome error Calibrator.xq :=
  let sorted := argsort (zip x w) in
  let cumw := TopShare.cumsum (map snd sorted) in
  let cumxw := TopShare.cumsum (map (fun p : Q * Q => p.1 * p.2) sorted) in
  match last cumw, last cumxw with
  | Some total_w, Some total_xw =>
      Returned (one_minus (Calibrator.qdiv (2 * lorenz_sum sorted cumxw)
                                           (total_w * total_xw)))
  | _, _ => Raised IndexError
  end.

End Inequality.

(** * Household balance sheets *)

Module Households.

(** The columns of a household that step 3 of
    [generate_and_adjust_households] reads or writes, business assets
    aside. *)
Record household := {
  Total_Assets : Q;
  Debts : Q;
  Net_Wealth : Q;
  Real_Assets : Q;
  Financial_Assets : Q;
  Debt_Ratio : Q;
  Real_Asset_Ratio : Q;
  Financial_Asset_Ratio : Q
}.

(** The assignments to [Debts], [Net_Wealth], [Total_Assets],
    [Real_Assets] and [Financial_Assets], in the order of the source;
    [clip(lower=7000)] is the maximum with 7000. *)
Definition construct_other_components (h : household) : household :=
  let debts := Total_Assets h * Debt_Ratio h in
  let net_wealth := Total_Assets h - debts in
  let net_wealth := Qmax net_wealth 7000 in
  let total_assets := net_wealth + debts in
  {| Total_Assets := total_assets;
     Debts := debts;
     Net_Wealth := net_wealth;
     Real_Assets := total_assets * Real_Asset_Ratio h;
     Financial_Assets := total_assets * Financial_Asset_Ratio h;
     Debt_Ratio := Debt_Ratio h;
     Real_Asset_Ratio := Real_Asset_Ratio h;
     Financial_Asset_Ratio := Financial_Asset_Ratio h |}.

End Households.

(** Sample units for the zeroing rules of [main]: a unit at the very
    top of the wealth ranking with the draws under which it exits, and
    a unit whose region is written with a capital letter. *)
Module PipelineSamples.

Definition top_rank_unit : Pipeline.unit_row :=
  {| Pipeline.in_Region := "galicia"; Pipeline.in_Wealth_Rank := 0.9995;
     Pipeline.in_Total_Assets_Pareto := 20000000; Pipeline.in_Debt_Ratio := 0;
     Pipeline.in_Real_Asset_Ratio := 0.2; Pipeline.in_Financial_Asset_Ratio := 0.8;
     Pipeline.in_Business_Asset_Ratio := 0; Pipeline.in_Income := 400000 |}.

Definition exit_draws : Pipeline.draws :=
  {| Pipeline.u_dropout_run := 0.5; Pipeline.u_dropout_main := 0.5;
     Pipeline.u_migration := 0.001 |}.

Definition madrid_unit : Pipeline.unit_row :=
  {| Pipeline.in_Region := "Madrid"; Pipeline.in_Wealth_Rank := 0.5;
     Pipeline.in_Total_Assets_Pareto := 5000000; Pipeline.in_Debt_Ratio := 0;
     Pipeline.in_Real_Asset_Ratio := 0.2; Pipeline.in_Financial_Asset_Ratio := 0.8;
     Pipeline.in_Business_Asset_Ratio := 0; Pipeline.in_Income := 100000 |}.

End PipelineSamples.

(* ================================================================== *)
(** * Properties *)
(* ================================================================== *)

Lemma Qgtb_true (a b : Q) : Qgtb a b = true <-> b < a.
Proof.
  unfold Qgtb. rewrite negb_true_iff.
  destruct (Qle_bool a b) eqn:E.
  - apply Qle_bool_iff in E. split; [discriminate | intros; lra].
  - split; [intros _ | reflexivity].
    destruct (Qlt_le_dec b a) as [H | H]; [exact H |].
    apply Qle_bool_iff in H. congruence.
Qed.

Lemma Qgtb_false (a b : Q) : Qgtb a b = false <-> a <= b.
Proof.
  unfold Qgtb. rewrite negb_false_iff. apply Qle_bool_iff.
Qed.

Lemma Qltb_true (a b : Q) : Qltb a b = true <-> a < b.
Proof. apply (Qgtb_true b a). Qed.

Lemma Qltb_false (a b : Q) : Qltb a b = false <-> b <= a.
Proof. apply (Qgtb_false b a). Qed.

Lemma Qmult_le_l' (a b c : Q) : 0 <= a -> b <= c -> a * b <= a * c.
Proof. intros. nra. Qed.

Section BracketTax.
Import TaxEngine.

Lemma bracket_loop_shift (brs : list bracket) (base tax : Q) :
  bracket_loop brs base tax == tax + bracket_loop brs base 0.
Proof.
  revert tax. induction brs as [| [[lower upper] rate] rest IH]; intros tax; simpl.
  - lra.
  - destruct (Qgtb base lower).
    + rewrite (IH (tax + _)), (IH (0 + _)). lra.
    + lra.
Qed.

Lemma Qeq_bool_true (a b : Q) : Qeq_bool a b = true -> a == b.
Proof. apply Qeq_bool_iff. Qed.

Lemma ascending_from_cons lo lower upper rate rest :
  ascending_from lo ((lower, upper, rate) :: rest) = true ->
  lower == lo /\
  match upper with
  | Inf => rest = []
  | Fin u => lower < u /\ ascending_from u rest = true
  end.
Proof.
  simpl. intros H. apply andb_true_iff in H as [H1 H2].
  split; [by apply Qeq_bool_true |].
  destruct upper as [u |].
  - apply andb_true_iff in H2 as [H2 H3]. by apply Qltb_true in H2.
  - by destruct rest.
Qed.

Lemma rates_within_cons top lower upper rate rest :
  rates_within top ((lower, upper, rate) :: rest) = true ->
  (0 <= rate /\ rate <= top) /\ rates_within top rest = true.
Proof.
  unfold rates_within. simpl. intros H.
  apply andb_true_iff in H as [H1 H2]. apply andb_true_iff in H1 as [H0 H1].
  apply Qle_bool_iff in H0, H1. auto.
Qed.

(** One iteration of the loop, with the running total taken out. *)
Lemma bracket_loop_cons lower upper rate rest base :
  bracket_loop ((lower, upper, rate) :: rest) base 0 ==
  if Qgtb base lower
  then (min_bound base upper - lower) * rate + bracket_loop rest base 0
  else 0.
Proof.
  simpl. destruct (Qgtb base lower); [| reflexivity].
  rewrite bracket_loop_shift. lra.
Qed.

(** At or below the first lower bound the loop breaks at once. *)
Lemma bracket_loop_below lo brs base :
  ascending_from lo brs = true -> base <= lo ->
  bracket_loop brs base 0 = 0.
Proof.
  destruct brs as [| [[lower upper] rate] rest]; [done |].
  intros [Hlo _]%ascending_from_cons Hb. simpl.
  assert (Qgtb base lower = false) as -> by (apply Qgtb_false; lra).
  reflexivity.
Qed.

Lemma min_bound_le base upper : min_bound base upper <= base.
Proof. destruct upper; simpl; [apply Q.le_min_l | lra]. Qed.

Lemma min_bound_mono b1 b2 upper :
  b1 <= b2 -> min_bound b1 upper <= min_bound b2 upper.
Proof.
  destruct upper as [u |]; simpl; [| done].
  intros H. apply Q.min_le_compat_r. exact H.
Qed.

Lemma min_bound_inside base lower upper :
  lower < base ->
  match upper with Fin u => lower < u | Inf => True end ->
  lower <= min_bound base upper.
Proof.
  destruct upper as [u |]; simpl; intros; [| lra].
  apply Q.min_glb; lra.
Qed.

Lemma bracket_loop_nonneg top brs lo base :
  ascending_from lo brs = true -> rates_within top brs = true ->
  0 <= bracket_loop brs base 0.
Proof.
  revert lo. induction brs as [| [[lower upper] rate] rest IH]; intros lo Ha Hr.
  - done.
  - apply ascending_from_cons in Ha as [Hlo Hup].
    apply rates_within_cons in Hr as [[Hr0 _] Hr].
    rewrite bracket_loop_cons.
    destruct (Qgtb base lower) eqn:E; [| lra].
    apply Qgtb_true in E.
    assert (0 <= bracket_loop rest base 0) as Hrest.
    { destruct upper as [u |]; [destruct Hup; by eapply IH | subst rest; simpl; lra]. }
    assert (lower <= min_bound base upper) as Hm.
    { apply min_bound_inside; [done |]. destruct upper; tauto. }
    assert (0 <= (min_bound base upper - lower) * rate).
    { apply Qmult_le_0_compat; lra. }
    lra.
Qed.

(** The tax is non-decreasing in the base. *)
Lemma bracket_loop_mono top brs lo b1 b2 :
  ascending_from lo brs = true -> rates_within top brs = true ->
  b1 <= b2 ->
  bracket_loop brs b1 0 <= bracket_loop brs b2 0.
Proof.
  revert lo. induction brs as [| [[lower upper] rate] rest IH]; intros lo Ha Hr Hb.
  - done.
  - pose proof (bracket_loop_nonneg top _ lo b2 Ha Hr) as Hnn.
    apply ascending_from_cons in Ha as [Hlo Hup].
    apply rates_within_cons in Hr as [[Hr0 _] Hr].
    rewrite bracket_loop_cons in Hnn. rewrite !bracket_loop_cons.
    destruct (Qgtb b1 lower) eqn:E1, (Qgtb b2 lower) eqn:E2;
      try apply Qgtb_true in E1; try apply Qgtb_true in E2;
      try apply Qgtb_false in E1; try apply Qgtb_false in E2; try lra.
    assert (bracket_loop rest b1 0 <= bracket_loop rest b2 0) as Hrest.
    { destruct upper as [u |]; [destruct Hup; by eapply IH | subst rest; simpl; lra]. }
    pose proof (min_bound_mono b1 b2 upper Hb) as Hm.
    assert ((min_bound b1 upper - lower) * rate <= (min_bound b2 upper - lower) * rate).
    { apply Qmult_le_compat_r; lra. }
    lra.
Qed.

(** Every bracket of an ascending table starts at or after the table's
    first lower bound. *)
Lemma ascending_from_lower lo brs lower upper rate :
  ascending_from lo brs = true -> In (lower, upper, rate) brs -> lo <= lower.
Proof.
  revert lo. induction brs as [| [[l u] r] rest IH]; intros lo Ha Hin; [done |].
  apply ascending_from_cons in Ha as [Hlo Hup].
  destruct Hin as [Heq | Hin].
  - injection Heq as -> -> ->. lra.
  - destruct u as [u |]; [| by subst rest].
    destruct Hup as [Hlt Ha]. specialize (IH _ Ha Hin). lra.
Qed.

(** Inside a bracket, ends included, the tax is the tax at the
    bracket's lower bound plus the bracket's rate times the excess. *)
Lemma bracket_loop_affine lo brs lower upper rate base :
  ascending_from lo brs = true ->
  In (lower, upper, rate) brs ->
  lower <= base ->
  match upper with Fin u => base <= u | Inf => True end ->
  bracket_loop brs base 0 == bracket_loop brs lower 0 + (base - lower) * rate.
Proof.
  revert lo. induction brs as [| [[l u] r] rest IH]; intros lo Ha Hin Hlb Hbu; [done |].
  pose proof Ha as Ha'.
  apply ascending_from_cons in Ha as [Hlo Hup].
  destruct Hin as [Heq | Hin].
  - injection Heq as -> -> ->.
    rewrite !bracket_loop_cons.
    assert (Qgtb lower lower = false) as -> by (apply Qgtb_false; lra).
    destruct (Qgtb base lower) eqn:E.
    + apply Qgtb_true in E.
      destruct upper as [u |]; simpl.
      * destruct Hup as [Hlt Ha].
        rewrite (bracket_loop_below u rest base Ha Hbu).
        rewrite Q.min_l by done. lra.
      * subst rest. simpl. lra.
    + apply Qgtb_false in E.
      assert (base == lower) as -> by lra. lra.
  - destruct u as [u |]; [| by subst rest].
    destruct Hup as [Hlt Ha].
    pose proof (ascending_from_lower _ _ _ _ _ Ha Hin) as Hge.
    rewrite !bracket_loop_cons.
    assert (Qgtb lower l = true) as -> by (apply Qgtb_true; lra).
    assert (Qgtb base l = true) as -> by (apply Qgtb_true; lra).
    simpl. rewrite !Q.min_r by lra.
    rewrite (IH _ Ha Hin Hlb Hbu). lra.
Qed.

(** The tax never grows faster than the largest marginal rate. *)
Lemma bracket_loop_lipschitz top brs lo b1 b2 :
  ascending_from lo brs = true -> rates_within top brs = true ->
  b1 <= b2 ->
  bracket_loop brs b2 0 - bracket_loop brs b1 0 <= top * (b2 - b1).
Proof.
  revert lo b1 b2. induction brs as [| [[lower upper] rate] rest IH]; intros lo b1 b2 Ha Hr Hb.
  - done.
  - apply ascending_from_cons in Ha as [Hlo Hup].
    apply rates_within_cons in Hr as [[Hr0 Hr1] Hr].
    assert (0 <= top) as Htop by lra.
    rewrite !bracket_loop_cons.
    destruct upper as [u |]; simpl.
    + destruct Hup as [Hlt Ha].
      pose proof (fun x y => IH _ x y Ha Hr) as IH'.
      pose proof (bracket_loop_nonneg top _ _ b2 Ha Hr) as Hnn2.
      destruct (Qgtb b1 lower) eqn:E1, (Qgtb b2 lower) eqn:E2;
        try apply Qgtb_true in E1; try apply Qgtb_true in E2;
        try apply Qgtb_false in E1; try apply Qgtb_false in E2; try lra.
      * destruct (Qlt_le_dec b2 u) as [H2 | H2].
        { rewrite (bracket_loop_below u rest b1 Ha) by lra.
          rewrite (bracket_loop_below u rest b2 Ha) by lra.
          rewrite !Q.min_l by lra.
          assert ((b2 - b1) * rate <= (b2 - b1) * top)
            by (apply Qmult_le_l'; lra).
          lra. }
        destruct (Qlt_le_dec b1 u) as [H1 | H1].
        { rewrite (bracket_loop_below u rest b1 Ha) by lra.
          rewrite (Q.min_l b1) by lra. rewrite (Q.min_r b2) by lra.
          specialize (IH' u b2 H2).
          rewrite (bracket_loop_below u rest u Ha) in IH' by lra.
          assert ((u - b1) * rate <= (u - b1) * top)
            by (apply Qmult_le_l'; lra).
          lra. }
        rewrite !Q.min_r by lra. specialize (IH' b1 b2 Hb). lra.
      * destruct (Qlt_le_dec b2 u) as [H2 | H2].
        { rewrite (bracket_loop_below u rest b2 Ha) by lra.
          rewrite Q.min_l by lra.
          assert ((b2 - lower) * rate <= (b2 - lower) * top)
            by (apply Qmult_le_l'; lra).
          assert (top * (b2 - lower) <= top * (b2 - b1))
            by (apply Qmult_le_l'; lra).
          lra. }
        rewrite Q.min_r by lra.
        specialize (IH' u b2 H2).
        rewrite (bracket_loop_below u rest u Ha) in IH' by lra.
        assert ((u - lower) * rate <= (u - lower) * top)
          by (apply Qmult_le_l'; lra).
        assert (top * (u - lower) <= top * (u - b1))
          by (apply Qmult_le_l'; lra).
        lra.
      * assert (0 <= top * (b2 - b1)) by (apply Qmult_le_0_compat; lra). lra.
    + subst rest. simpl.
      destruct (Qgtb b1 lower) eqn:E1, (Qgtb b2 lower) eqn:E2;
        try apply Qgtb_true in E1; try apply Qgtb_true in E2;
        try apply Qgtb_false in E1; try apply Qgtb_false in E2; try lra.
      * assert ((b2 - b1) * rate <= (b2 - b1) * top)
          by (apply Qmult_le_l'; lra).
        lra.
      * assert ((b2 - lower) * rate <= (b2 - lower) * top)
          by (apply Qmult_le_l'; lra).
        assert (top * (b2 - lower) <= top * (b2 - b1))
          by (apply Qmult_le_l'; lra).
        lra.
      * assert (0 <= top * (b2 - b1)) by (apply Qmult_le_0_compat; lra). lra.
Qed.

End BracketTax.

Section RegionTables.
Import TaxEngine.

Lemma default_scale_lookup : regional_scales !!! "default" = scale_default.
Proof. reflexivity. Qed.

(** The lookup with its fallback can only return one of the seven
    tables of the dict literal. *)
Lemma brackets_for_cases (region : string) :
  In (brackets_for region)
     [ scale_Catalonia; scale_Madrid; scale_Extremadura; scale_Galicia;
       scale_Asturias; scale_Valencia; scale_default ].
Proof.
  unfold brackets_for. rewrite default_scale_lookup. unfold regional_scales.
  repeat (rewrite lookup_insert; case_decide; [simpl; tauto |]).
  rewrite lookup_empty. simpl. tauto.
Qed.

Lemma brackets_for_other (region : string) :
  region ∉ ["Catalonia"; "Madrid"; "Extremadura"; "Galicia"; "Asturias"; "Valencia"] ->
  brackets_for region = scale_default.
Proof.
  intros Hnot. unfold brackets_for. rewrite default_scale_lookup.
  destruct (decide (region = "default")) as [-> | Hd]; [reflexivity |].
  unfold regional_scales.
  rewrite lookup_insert_ne by done.
  repeat (rewrite lookup_insert_ne by (intros <-; apply Hnot; set_solver)).
  by rewrite lookup_empty.
Qed.

Lemma all_tables_ascending (region : string) :
  ascending_gap_free (brackets_for region) = true /\
  rates_within top_rate (brackets_for region) = true.
Proof.
  pose proof (brackets_for_cases region) as H. simpl in H.
  repeat (destruct H as [<- | H]; [split; reflexivity |]). done.
Qed.

(** C2.  For every region string the bracket tax is defined on every
    base and is 0 at 0 (and below); it is non-decreasing; it is
    continuous (it grows by at most the top marginal rate times the
    growth of the base); on every bracket of the region's table, both
    ends included, it is the tax at the bracket's lower bound plus the
    bracket's rate times the excess over that bound; and the table is
    strictly ascending and gap-free from 0 to infinity. *)
Theorem calculate_ip_tax_piecewise_linear (region : string) :
  ascending_gap_free (brackets_for region) = true /\
  calculate_ip_tax 0 region = 0 /\
  (forall base, base <= 0 -> calculate_ip_tax base region = 0) /\
  (forall b1 b2, b1 <= b2 ->
     calculate_ip_tax b1 region <= calculate_ip_tax b2 region) /\
  (forall b1 b2, b1 <= b2 ->
     calculate_ip_tax b2 region - calculate_ip_tax b1 region
       <= top_rate * (b2 - b1)) /\
  (forall lower upper rate base,
     In (lower, upper, rate) (brackets_for region) ->
     lower <= base ->
     match upper with Fin u => base <= u | Inf => True end ->
     calculate_ip_tax base region ==
       calculate_ip_tax lower region + (base - lower) * rate).
Proof.
  destruct (all_tables_ascending region) as [Ha Hr].
  unfold calculate_ip_tax, ascending_gap_free in *.
  split; [exact Ha |].
  split; [apply (bracket_loop_below 0); [exact Ha | lra] |].
  split; [intros base Hb; by apply (bracket_loop_below 0) |].
  split; [intros b1 b2 Hb; by apply (bracket_loop_mono top_rate _ 0) |].
  split; [intros b1 b2 Hb; by apply (bracket_loop_lipschitz top_rate _ 0) |].
  intros lower upper rate base Hin Hlo Hup.
  by apply (bracket_loop_affine 0 _ lower upper rate).
Qed.

Lemma calculate_ip_tax_piecewise_linear_witness :
  calculate_ip_tax 100000 "Catalonia" <= calculate_ip_tax 200000 "Catalonia" /\
  calculate_ip_tax 200000 "Catalonia" ==
    calculate_ip_tax 167129.45 "Catalonia" + (200000 - 167129.45) * 0.00315.
Proof.
  destruct (calculate_ip_tax_piecewise_linear "Catalonia")
    as (_ & _ & _ & Hmono & _ & Haff).
  split.
  - apply Hmono. vm_compute. discriminate.
  - apply (Haff 167129.45 (Fin 334252.88) 0.00315 200000).
    + right. left. reflexivity.
    + vm_compute. discriminate.
    + vm_compute. discriminate.
Defined.

(** C10.  The region is looked up by exact string equality against the
    capitalised keys: any other region string, the lower-case names of
    [selected_regions] among them, is taxed with the default table. *)
Theorem calculate_ip_tax_unknown_region (base : Q) (region : string) :
  region ∉ ["Catalonia"; "Madrid"; "Extremadura"; "Galicia"; "Asturias"; "Valencia"] ->
  calculate_ip_tax base region = calculate_ip_tax base "default".
Proof.
  intros Hnot. unfold calculate_ip_tax.
  rewrite (brackets_for_other region Hnot). reflexivity.
Qed.

Lemma calculate_ip_tax_unknown_region_witness :
  Forall (fun region =>
            calculate_ip_tax 25000000 region = calculate_ip_tax 25000000 "default")
         selected_regions.
Proof.
  unfold selected_regions.
  repeat (apply Forall_cons; split;
          [apply calculate_ip_tax_unknown_region;
           rewrite !not_elem_of_cons; repeat split;
           try discriminate; apply not_elem_of_nil |]).
  apply Forall_nil. exact I.
Defined.

(** The match is case-sensitive: the capitalised key selects the
    Catalonia table, the lower-case name does not. *)
Example calculate_ip_tax_case_sensitive :
  calculate_ip_tax 25000000 "Catalonia" == 601779.911357 /\
  calculate_ip_tax 25000000 "catalonia" == 541270.39535 /\
  calculate_ip_tax 25000000 "default" == 541270.39535.
Proof. vm_compute. repeat split; discriminate. Qed.

End RegionTables.

Section JointCap.
Import TaxEngine.

(** What the cap does to one unit. *)
Lemma joint_cap_spec (wealth_tax pit income : Q) :
  (0.60 * income < wealth_tax + pit ->
     joint_cap wealth_tax pit income + pit <= 0.60 * income \/
     joint_cap wealth_tax pit income == 0.2 * wealth_tax) /\
  (wealth_tax + pit <= 0.60 * income ->
     joint_cap wealth_tax pit income = wealth_tax).
Proof.
  unfold joint_cap. split; intros H.
  - assert (Qgtb (wealth_tax + pit) (0.60 * income) = true) as ->
      by (by apply Qgtb_true).
    destruct (Q.max_spec (0.2 * wealth_tax) (0.60 * income - pit)) as [[_ E] | [_ E]];
      rewrite E; [left | right]; lra.
  - assert (Qgtb (wealth_tax + pit) (0.60 * income) = false) as ->
      by (by apply Qgtb_false).
    reflexivity.
Qed.

(** With no wealth tax to start with the cap leaves none. *)
Lemma joint_cap_zero (wealth_tax pit income : Q) :
  wealth_tax == 0 -> joint_cap wealth_tax pit income == 0.
Proof.
  intros H0. unfold joint_cap.
  destruct (Qgtb (wealth_tax + pit) (0.60 * income)) eqn:E; [| exact H0].
  apply Qgtb_true in E. rewrite Q.max_l; lra.
Qed.

End JointCap.

Section TaxRun.
Import Pipeline.

(** C1. Joint cap, single shot.  In [apply_tax_cap_and_adjustments] and
    in [run_tax_simulation] alike: a unit whose wealth tax plus income
    tax exceeds 60% of its income ends with wealth tax plus income tax
    at most 60% of income, or with exactly 20% of its wealth tax before
    the cap; a unit not over the cap keeps its wealth tax. *)
Theorem joint_cap_single_shot :
  (forall (df : list TaxEngine.cap_row) (i : nat) (r : TaxEngine.cap_row),
      df !! i = Some r ->
      exists r', TaxEngine.apply_tax_cap_and_adjustments df !! i = Some r' /\
        (0.60 * TaxEngine.Income r < TaxEngine.Wealth_Tax r + TaxEngine.PIT_Liability r ->
           TaxEngine.Wealth_Tax r' + TaxEngine.PIT_Liability r' <= 0.60 * TaxEngine.Income r' \/
           TaxEngine.Wealth_Tax r' == 0.2 * TaxEngine.Wealth_Tax r) /\
        (TaxEngine.Wealth_Tax r + TaxEngine.PIT_Liability r <= 0.60 * TaxEngine.Income r ->
           TaxEngine.Wealth_Tax r' = TaxEngine.Wealth_Tax r)) /\
  (forall (i : unit_row) (u : Q),
      let before := tax_before_cap (tax_bases i u) in
      let after := run_tax_simulation_row i u in
      (0.60 * Income before < Wealth_Tax before + PIT_Liability before ->
         Wealth_Tax after + PIT_Liability after <= 0.60 * Income after \/
         Wealth_Tax after == 0.2 * Wealth_Tax before) /\
      (Wealth_Tax before + PIT_Liability before <= 0.60 * Income before ->
         Wealth_Tax after = Wealth_Tax before)).
Proof.
  split.
  - intros df i r Hr.
    exists (TaxEngine.apply_tax_cap_row r). split.
    + unfold TaxEngine.apply_tax_cap_and_adjustments.
      rewrite list_lookup_fmap, Hr. reflexivity.
    + simpl. apply joint_cap_spec.
  - intros i u before after. subst after. unfold run_tax_simulation_row.
    fold before. unfold cap_step.
    cbn [Wealth_Tax PIT_Liability Income set_cap_and_tax].
    apply joint_cap_spec.
Qed.

Lemma joint_cap_single_shot_witness :
  let before := tax_before_cap (tax_bases late_dropout_unit 0.5) in
  let after := run_tax_simulation_row late_dropout_unit 0.5 in
  0.60 * Income before < Wealth_Tax before + PIT_Liability before /\
  (Wealth_Tax after + PIT_Liability after <= 0.60 * Income after \/
   Wealth_Tax after == 0.2 * Wealth_Tax before).
Proof.
  split.
  - vm_compute. reflexivity.
  - apply (proj2 joint_cap_single_shot late_dropout_unit 0.5).
    vm_compute. reflexivity.
Defined.

(** X28.  Inside [run_tax_simulation] a unit flagged by that function's own
    dropout draw leaves with no wealth tax, cap included. *)
Lemma run_tax_simulation_dropout (i : unit_row) (u : Q) :
  (Dropout (run_tax_simulation_row i u) > 0)%Z ->
  Wealth_Tax (run_tax_simulation_row i u) == 0.
Proof.
  set (r := tax_bases i u).
  change (Dropout (run_tax_simulation_row i u)) with (Dropout r).
  change (Wealth_Tax (run_tax_simulation_row i u))
    with (TaxEngine.joint_cap (Wealth_Tax (tax_before_cap r))
            (PIT_Liability (tax_before_cap r)) (Income (tax_before_cap r))).
  intros Hd. apply joint_cap_zero.
  change (Wealth_Tax (tax_before_cap r))
    with (if (Dropout r >? 0)%Z then 0
          else TaxEngine.calculate_ip_tax (Taxable_Wealth_Eroded (tax_before_cap r))
                 (Region r)).
  assert ((Dropout r >? 0)%Z = true) as -> by lia.
  reflexivity.
Qed.

(** X29.  A unit that [apply_migration_module] marks as an exit has eroded
    base 0 and wealth tax 0 in the table that [main] writes. *)
Lemma migration_exit_zeroed (i : unit_row) (d : draws) :
  Migration_Exit (main_row i d) = true ->
  Taxable_Wealth_Eroded (taxed (main_row i d)) == 0 /\
  Wealth_Tax (taxed (main_row i d)) == 0.
Proof.
  unfold main_row. cbv zeta.
  set (r0 := assign_erosion 0.30 _ _). clearbody r0.
  unfold apply_migration_module. cbv zeta.
  destruct (Qltb (u_migration d) _).
  - intros _.
    cbn [Migration_Exit taxed Taxable_Wealth_Eroded Wealth_Tax set_wealth].
    split; reflexivity.
  - cbn [Migration_Exit]. discriminate.
Qed.

(** X30.  A unit whose region reads [madrid] in lower case has wealth tax 0
    in the table that [main] writes, whatever its taxable base. *)
Lemma madrid_zeroed (i : unit_row) (d : draws) :
  Str.lower (in_Region i) = "madrid" ->
  Wealth_Tax (taxed (main_row i d)) == 0.
Proof.
  intros Hm. unfold main_row. cbv zeta.
  set (r0 := run_tax_simulation_row i _).
  assert (Region r0 = in_Region i) as Hreg by reflexivity.
  clearbody r0.
  unfold apply_migration_module. cbv zeta.
  destruct (Qltb (u_migration d) _);
    cbn [taxed Wealth_Tax set_wealth]; [reflexivity |].
  unfold assign_erosion. cbn [Wealth_Tax set_erosion].
  unfold madrid_override. rewrite Hreg, Hm.
  cbn [String.eqb Ascii.eqb Bool.eqb Wealth_Tax set_wealth]. reflexivity.
Qed.

(** C3.  The dropout flag of the table that [main] writes comes from
    the second call of [assign_erosion], which draws it afresh after
    the taxes are final.  The unit [late_dropout_unit] is not flagged
    by the draw inside [run_tax_simulation], is flagged by the later
    one, does not migrate, and keeps a wealth tax of 23348.5. *)
Theorem dropout_flag_redrawn_after_tax :
  let r := main_row late_dropout_unit late_dropout_draws in
  Dropout (run_tax_simulation_row late_dropout_unit
             (u_dropout_run late_dropout_draws)) = 0%Z /\
  Dropout (taxed r) = 1%Z /\
  Migration_Exit r = false /\
  Str.lower (Region (taxed r)) <> "madrid" /\
  Wealth_Tax (taxed r) == 23348.5.
Proof. vm_compute. repeat split; discriminate. Qed.

End TaxRun.

Section ExpanderFacts.
Import Expander.
Variable variate : nat -> Q.
Variables base_threshold split_prob : Q.

Lemma Qsum_cons (x : Q) (l : list Q) : Qsum (x :: l) = x + Qsum l.
Proof. reflexivity. Qed.

(** As many ratios are generated as there are repeated rows, so the
    length check of the source never fires. *)
Lemma ratios_loop_length (flags : list bool) (df : list household) (k : nat) :
  length flags = length df ->
  length (ratios_loop variate (map n_units_of flags) k) =
  length (repeat_rows df (map n_units_of flags)).
Proof.
  revert df k. induction flags as [| b flags IH]; intros [| h df] k Hlen;
    simpl in Hlen; try discriminate; [reflexivity |].
  injection Hlen as Hlen.
  destruct b; simpl.
  - destruct (Qltb (variate k) 0.5); simpl; by rewrite (IH df (S k) Hlen).
  - by rewrite (IH df k Hlen).
Qed.

(** The ratios of one household add up to 1: over the units of the
    households with a given identifier, a column times the ratio sums
    to the column over those households. *)
Lemma ratios_sum_by_household (f : household -> Q) (id : Z)
      (flags : list bool) (df : list household) (k : nat) :
  length flags = length df ->
  Qsum (map (fun hr : household * Q => f hr.1 * hr.2)
            (List.filter (fun hr : household * Q => Z.eqb (Original_ID hr.1) id)
               (zip (repeat_rows df (map n_units_of flags))
                    (ratios_loop variate (map n_units_of flags) k))))
  == Qsum (map f (List.filter (fun h => Z.eqb (Original_ID h) id) df)).
Proof.
  revert df k. induction flags as [| b flags IH]; intros [| h df] k Hlen;
    simpl in Hlen; try discriminate; [reflexivity |].
  injection Hlen as Hlen.
  destruct b; simpl.
  - destruct (Qltb (variate k) 0.5); simpl;
      destruct (Z.eqb (Original_ID h) id); simpl;
      rewrite ?Qsum_cons, (IH df (S k) Hlen); lra.
  - destruct (Z.eqb (Original_ID h) id); simpl;
      rewrite ?Qsum_cons, (IH df k Hlen); lra.
Qed.

(** A column of the output, over the units split from [id], in terms
    of the repeated rows and their ratios. *)
Lemma scaled_column_view (f : household -> Q) (fu : tax_unit -> Q) (id : Z)
      (pairs : list (household * Q)) (idx : list nat) :
  (forall h ratio i, fu (scale_unit h ratio i) = f h * ratio) ->
  (length pairs <= length idx)%nat ->
  map fu (List.filter (fun u => Z.eqb (Split_From u) id)
            (zip_with (fun (hr : household * Q) i => scale_unit hr.1 hr.2 i) pairs idx))
  = map (fun hr : household * Q => f hr.1 * hr.2)
        (List.filter (fun hr : household * Q => Z.eqb (Original_ID hr.1) id) pairs).
Proof.
  intros Hcol. revert idx.
  induction pairs as [| [h ratio] pairs IH]; intros [| i idx] Hlen; simpl in *;
    try lia; try reflexivity.
  destruct (Z.eqb (Original_ID h) id); simpl;
    rewrite ?Hcol, IH by lia; reflexivity.
Qed.

Lemma filter_none {A : Type} (p : A -> bool) (l : list A) :
  (forall x, In x l -> p x = false) -> List.filter p l = [].
Proof.
  induction l as [| x l IH]; intros Hp; [reflexivity |].
  simpl. rewrite (Hp x) by (by left). apply IH.
  intros y Hy. apply Hp. by right.
Qed.

Lemma filter_unique_id (df : list household) (h : household) :
  NoDup (map Original_ID df) -> In h df ->
  List.filter (fun h' => Z.eqb (Original_ID h') (Original_ID h)) df = [h].
Proof.
  induction df as [| h0 df IH]; intros Hnd Hin; [destruct Hin |].
  simpl in Hnd. apply NoDup_cons in Hnd as [Hfresh Hnd].
  simpl. destruct Hin as [-> | Hin].
  - rewrite Z.eqb_refl. f_equal.
    apply filter_none.
    intros h' Hin'. apply Z.eqb_neq. intros Heq.
    apply Hfresh. rewrite <- Heq. apply list_elem_of_In, in_map, Hin'.
  - assert (Original_ID h0 <> Original_ID h) as Hne.
    { intros Heq. apply Hfresh. rewrite Heq.
      apply list_elem_of_In, in_map, Hin. }
    apply Z.eqb_neq in Hne. rewrite Hne. by apply IH.
Qed.

Lemma cumcount_length (keys : list Z) : length (cumcount keys) = length keys.
Proof. unfold cumcount. apply length_imap. Qed.

Lemma split_flags_length (df : list household) :
  length (split_flags variate base_threshold split_prob df) = length df.
Proof. unfold split_flags. apply length_imap. Qed.

(** C6.  The expander returns a table, and for every household of a
    frame with distinct identifiers, each of the seven monetary columns
    and the weight, summed over the units split from that household,
    gives the household's own value. *)
Theorem expansion_preserves_household_totals (df : list household) :
  exists units,
    expand_households_to_individuals variate base_threshold split_prob df
      = Some units /\
    forall h, NoDup (map Original_ID df) -> In h df ->
      Forall (fun cols : (household -> Q) * (tax_unit -> Q) =>
                sum_over_units cols.2 (Original_ID h) units == cols.1 h)
             scaled_columns.
Proof.
  unfold expand_households_to_individuals.
  set (flags := split_flags variate base_threshold split_prob df).
  pose proof (split_flags_length df) as Hfl. fold flags in Hfl.
  pose proof (ratios_loop_length flags df (length df) Hfl) as Hlen.
  rewrite Hlen, Nat.eqb_refl. simpl negb. cbv iota.
  eexists. split; [reflexivity |].
  intros h Hnd Hin.
  assert (forall (f : household -> Q) (fu : tax_unit -> Q),
            (forall h ratio i, fu (scale_unit h ratio i) = f h * ratio) ->
            sum_over_units fu (Original_ID h)
              (zip_with (fun (hr : household * Q) i => scale_unit hr.1 hr.2 i)
                 (zip (repeat_rows df (map n_units_of flags))
                      (ratios_loop variate (map n_units_of flags) (length df)))
                 (cumcount (map Original_ID (repeat_rows df (map n_units_of flags)))))
            == f h) as Hcol.
  { intros f fu Hscale. unfold sum_over_units.
    rewrite (scaled_column_view f fu _ _ _ Hscale).
    - rewrite (ratios_sum_by_household f _ flags df _ Hfl).
      rewrite (filter_unique_id df h Hnd Hin). simpl. lra.
    - rewrite cumcount_length, length_map, length_zip. lia. }
  unfold scaled_columns.
  repeat (apply Forall_cons; split; [apply Hcol; reflexivity |]).
  apply Forall_nil. exact I.
Qed.

End ExpanderFacts.

Section DiagnosticsFacts.
Import Diagnostics.

Lemma rescale_region_length (df : list unit_row) (scaled : list Q) (item : string * Q) :
  length scaled = length df ->
  length (rescale_region df scaled item) = length df.
Proof.
  intros Hlen. destruct item as [region target]. unfold rescale_region.
  destruct (List.filter (in_mask region) df); [done |].
  destruct (Qeq_bool _ 0); [done |].
  rewrite length_zip_with. lia.
Qed.

(** A turn of the loop for a region without taxpayers, or whose
    taxpayers weigh nothing, changes no weight at all. *)
Lemma rescale_region_skip (df : list unit_row) (scaled : list Q)
      (region : string) (target_count : Q) :
  List.filter (in_mask region) df = [] \/ total_weight df region == 0 ->
  rescale_region df scaled (region, target_count) = scaled.
Proof.
  intros [Hempty | Hzero]; unfold rescale_region.
  - by rewrite Hempty.
  - destruct (List.filter (in_mask region) df); [done |].
    apply Qeq_bool_iff in Hzero. by rewrite Hzero.
Qed.

(** A turn of the loop keeps the weight of a unit that is outside the
    mask, or inside the mask of a region whose taxpayers weigh nothing. *)
Lemma rescale_region_keeps (df : list unit_row) (scaled : list Q)
      (item : string * Q) (i : nat) (u : unit_row) (w : Q) :
  df !! i = Some u -> scaled !! i = Some w ->
  (in_mask item.1 u = true -> total_weight df item.1 == 0) ->
  rescale_region df scaled item !! i = Some w.
Proof.
  intros Hu Hw Hskip. destruct item as [region target]. simpl in Hskip.
  unfold rescale_region.
  destruct (List.filter (in_mask region) df) eqn:Hf; [done |].
  destruct (Qeq_bool (total_weight df region) 0) eqn:Hz; [done |].
  rewrite lookup_zip_with, Hu, Hw. simpl.
  destruct (in_mask region u) eqn:Hm; [| done].
  specialize (Hskip eq_refl). apply Qeq_bool_iff in Hskip. congruence.
Qed.

Lemma fold_rescale_keeps (df : list unit_row) (quota : list (string * Q))
      (scaled : list Q) (i : nat) (u : unit_row) (w : Q) :
  df !! i = Some u -> scaled !! i = Some w ->
  (forall region target, In (region, target) quota ->
     in_mask region u = true -> total_weight df region == 0) ->
  fold_left (rescale_region df) quota scaled !! i = Some w.
Proof.
  intros Hu. revert scaled.
  induction quota as [| item quota IH]; intros scaled Hw Hskip; [done |].
  simpl. apply IH.
  - apply (rescale_region_keeps df scaled item i u w Hu Hw).
    destruct item as [region target]. apply (Hskip region target). by left.
  - intros region target Hin. apply (Hskip region target). by right.
Qed.

Lemma fold_rescale_length (df : list unit_row) (quota : list (string * Q))
      (scaled : list Q) :
  length scaled = length df ->
  length (fold_left (rescale_region df) quota scaled) = length df.
Proof.
  revert scaled. induction quota as [| item quota IH]; intros scaled Hlen; [done |].
  simpl. apply IH. by apply rescale_region_length.
Qed.

(** C9.  The rescaling is a total function that returns a frame of the
    same length.  A unit keeps its final weight whenever every region
    of the target map whose mask it falls under has taxpayers of total
    weight 0; this covers the units outside every mask.  And the turn
    of the loop for a region that has no taxpayer, or whose taxpayers
    weigh nothing, changes no weight, whatever the target. *)
Theorem skipped_regions_keep_weights
    (df : list unit_row) (quota : list (string * Q)) :
  let ndf := map normalize_region df in
  length (scale_final_weights_by_taxpayer_counts df quota) = length df /\
  (forall i u,
      df !! i = Some u ->
      (forall region target, In (region, target) quota ->
         in_mask region (normalize_region u) = true ->
         total_weight ndf region == 0) ->
      exists u', scale_final_weights_by_taxpayer_counts df quota !! i = Some u' /\
                 Final_Weight u' = Final_Weight u) /\
  (forall region target scaled,
      List.filter (in_mask region) ndf = [] \/ total_weight ndf region == 0 ->
      rescale_region ndf scaled (region, target) = scaled).
Proof.
  intros ndf. unfold scale_final_weights_by_taxpayer_counts. fold ndf.
  assert (length ndf = length df) as Hn by apply length_map.
  split; [| split].
  - rewrite length_zip_with, fold_rescale_length; rewrite ?length_map; lia.
  - intros i u Hu Hskip.
    assert (ndf !! i = Some (normalize_region u)) as Hnu
      by (unfold ndf; by rewrite list_lookup_fmap, Hu).
    assert (map Final_Weight ndf !! i = Some (Final_Weight u)) as Hw
      by (by rewrite list_lookup_fmap, Hnu).
    pose proof (fold_rescale_keeps ndf quota _ i _ _ Hnu Hw Hskip) as Hkeep.
    eexists. rewrite lookup_zip_with, Hnu, Hkeep. simpl. split; reflexivity.
  - intros region target scaled. apply rescale_region_skip.
Qed.

End DiagnosticsFacts.

Section SynthesizerFacts.
Import Synthesizer.

Lemma argmax_from_bound (l : list Z) (best : Z) (best_i i : nat) :
  (best_i < i)%nat -> (argmax_from l best best_i i < i + length l)%nat.
Proof.
  revert best best_i i. induction l as [| x l IH]; intros best best_i i Hlt; simpl.
  - lia.
  - destruct (best <? x)%Z.
    + specialize (IH x i (S i)). lia.
    + specialize (IH best best_i (S i)). lia.
Qed.

Lemma idxmax_bound (l : list Z) (idx : nat) :
  idxmax l = Some idx -> (idx < length l)%nat.
Proof.
  destruct l as [| x l]; [discriminate |]. simpl. intros [= <-].
  pose proof (argmax_from_bound l x 0 1). lia.
Qed.

Lemma Zsum_alter (l : list Z) (i : nat) (d : Z) :
  (i < length l)%nat ->
  Zsum (alter (fun n => (n + d)%Z) i l) = (Zsum l + d)%Z.
Proof.
  revert i. induction l as [| x l IH]; intros i Hi; simpl in Hi; [lia |].
  destruct i as [| i]; simpl.
  - lia.
  - change (list_alter ?f i l) with (alter f i l).
    rewrite IH by lia. lia.
Qed.

(** Whenever the adjusted column can be computed, it has one count
    per region and the counts add up to the total exactly. *)
Lemma household_counts_sum (df : list (string * Q)) (total : Z) (counts : list Z) :
  household_counts df total = Returned counts ->
  Zsum counts = total /\ length counts = length df.
Proof.
  unfold household_counts.
  set (num := map _ df).
  assert (length num = length df) as Hlen by apply length_map.
  destruct (Z.eqb_spec (total - Zsum num) 0) as [Hz | Hnz].
  - intros [= <-]. split; [lia | done].
  - destruct (idxmax num) as [idx |] eqn:Hidx; [| discriminate].
    intros [= <-]. apply idxmax_bound in Hidx.
    rewrite Zsum_alter by done. rewrite length_alter. split; [lia | done].
Qed.

(** With at least one region the adjusted column can always be
    computed. *)
Lemma household_counts_returns (df : list (string * Q)) (total : Z) :
  df <> [] -> exists counts, household_counts df total = Returned counts.
Proof.
  intros Hne. unfold household_counts.
  destruct (_ =? 0)%Z; [eauto |].
  destruct df as [| row df]; [done |]. simpl. eauto.
Qed.

Lemma repeat_regions_length (regions : list string) (counts : list Z) :
  length regions = length counts ->
  existsb (fun c => (c <? 0)%Z) counts = false ->
  Z.of_nat (length (repeat_regions regions counts)) = Zsum counts.
Proof.
  revert counts. induction regions as [| r regions IH]; intros [| c counts] Hlen Hpos;
    simpl in *; try discriminate; [reflexivity |].
  apply orb_false_iff in Hpos as [Hc Hpos]. apply Z.ltb_ge in Hc.
  rewrite length_app, length_replicate, Nat2Z.inj_add, IH by (done || lia).
  lia.
Qed.

Lemma household_sizes_length (variate : nat -> Q) (total : Z) :
  length (household_sizes variate total) = Z.to_nat total.
Proof. unfold household_sizes. by rewrite length_map, length_seq. Qed.

(** Whenever the synthesizer returns, the counts add up to
    [round(N / avg_household_size)] and as many rows are generated. *)
Lemma generate_scaled_households_rows
      (df : list (string * Q)) (population : Z) (avg : Q) (variate : nat -> Q)
      (rows : list (string * Z)) :
  generate_scaled_households df population avg variate = Returned rows ->
  exists total counts,
    total_households_of population avg = Returned total /\
    household_counts df total = Returned counts /\
    Zsum counts = total /\
    Z.of_nat (length rows) = total.
Proof.
  unfold generate_scaled_households.
  destruct (total_households_of population avg) as [e | total]; [discriminate |].
  destruct (household_counts df total) as [e | counts] eqn:Hc; [discriminate |].
  destruct (existsb _ counts) eqn:Hpos; [discriminate |].
  destruct (Z.ltb_spec total 0) as [Hneg | Hnn]; [discriminate |].
  intros [= <-]. exists total, counts.
  destruct (household_counts_sum _ _ _ Hc) as [Hsum Hlen].
  split; [reflexivity |]. split; [exact Hc |]. split; [exact Hsum |].
  pose proof (repeat_regions_length (map fst df) counts) as Hrep.
  rewrite length_map in Hrep. specialize (Hrep (eq_sym Hlen) Hpos).
  rewrite length_zip, household_sizes_length. lia.
Qed.

(** The synthesizer returns when the average size is not 0, there is
    a region, and the adjusted count of no region is negative. *)
Lemma generate_scaled_households_returns
      (df : list (string * Q)) (population : Z) (avg : Q) (variate : nat -> Q) :
  ~ avg == 0 -> df <> [] ->
  (forall total counts,
      total_households_of population avg = Returned total ->
      household_counts df total = Returned counts ->
      Forall (fun c => (0 <= c)%Z) counts) ->
  exists rows, generate_scaled_households df population avg variate = Returned rows.
Proof.
  intros Havg Hne Hpos. unfold generate_scaled_households.
  destruct (total_households_of population avg) as [e | total] eqn:Ht.
  - unfold total_households_of in Ht.
    destruct (Qeq_bool avg 0) eqn:E; [| discriminate].
    apply Qeq_bool_iff in E. contradiction.
  - destruct (household_counts_returns df total Hne) as [counts Hc].
    rewrite Hc. specialize (Hpos total counts eq_refl Hc).
    assert (existsb (fun c => (c <? 0)%Z) counts = false) as Hex.
    { clear Hc. induction Hpos as [| c counts Hc Hrest IH]; [done |].
      simpl. rewrite IH. apply Z.ltb_ge in Hc. by rewrite Hc. }
    rewrite Hex.
    assert (0 <= total)%Z as Htot.
    { apply household_counts_sum in Hc as [<- _].
      clear Hex Ht. unfold Zsum.
      induction Hpos as [| c counts Hc0 Hrest IH]; simpl in *; lia. }
    apply Z.ltb_ge in Htot. rewrite Htot. eauto.
Qed.

(** C8.  Five regions of share 0.2 each (they sum to 1) and a
    population of 5 at 1.6 per household: the total is round(3.125) = 3,
    every region's rounded count is round(0.6) = 1, the residual is -2,
    and adding it to the largest region, the first one, leaves the
    counts -1, 1, 1, 1, 1.  They sum to 3, but repeating a region
    a negative number of times raises, so no row is generated. *)
Theorem residual_exceeds_largest_count (variate : nat -> Q) :
  Qsum (map snd five_equal_regions) == 1 /\
  total_households_of 5 1.6 = Returned 3%Z /\
  household_counts five_equal_regions 3
    = Returned [(-1)%Z; 1%Z; 1%Z; 1%Z; 1%Z] /\
  generate_scaled_households five_equal_regions 5 1.6 variate
    = Raised NegativeRepeats.
Proof. repeat split. Qed.

End SynthesizerFacts.

Section Witnesses.

Lemma expansion_preserves_household_totals_witness :
  exists units,
    Expander.expand_households_to_individuals Expander.sample_variates 1000000 0.7
      Expander.sample_households = Some units /\
    Forall (fun cols : (Expander.household -> Q) * (Expander.tax_unit -> Q) =>
              Expander.sum_over_units cols.2 0 units
                == cols.1 (Expander.sample_household 0 1500000))
           Expander.scaled_columns.
Proof.
  destruct (expansion_preserves_household_totals Expander.sample_variates
              1000000 0.7 Expander.sample_households) as (units & Hrun & Hsum).
  exists units. split; [exact Hrun |].
  apply (Hsum (Expander.sample_household 0 1500000)).
  - apply (bool_decide_unpack _). vm_compute. reflexivity.
  - left. reflexivity.
Defined.

Lemma skipped_regions_keep_weights_witness :
  exists u',
    Diagnostics.scale_final_weights_by_taxpayer_counts
      Diagnostics.sample_frame Diagnostics.sample_quota !! 2%nat = Some u' /\
    Diagnostics.Final_Weight u' = 0.
Proof.
  destruct (skipped_regions_keep_weights Diagnostics.sample_frame
              Diagnostics.sample_quota) as (_ & Hkeep & _).
  apply (Hkeep 2%nat
           {| Diagnostics.Region := "asturias"; Diagnostics.Is_Taxpayer := true;
              Diagnostics.Final_Weight := 0 |}).
  - reflexivity.
  - intros region target Hin Hmask.
    destruct Hin as [[= <- <-] | [[= <- <-] | [[= <- <-] | []]]];
      solve [discriminate Hmask | vm_compute; reflexivity].
Defined.

(** On the sample frame the Galicia taxpayer is rescaled to the target
    and every other weight is the one the frame came with. *)
Example scale_final_weights_sample :
  map Diagnostics.Final_Weight
      (Diagnostics.scale_final_weights_by_taxpayer_counts
         Diagnostics.sample_frame Diagnostics.sample_quota)
  = [2 * (10 / 2); 5; 0; 3; 7].
Proof. reflexivity. Qed.

End Witnesses.

Section ReweightFacts.
Import Calibrator.

Lemma Qsum_app (l1 l2 : list Q) : Qsum (l1 ++ l2) == Qsum l1 + Qsum l2.
Proof.
  induction l1 as [| x l1 IH]; simpl.
  - lra.
  - change (foldr Qplus 0 ?l) with (Qsum l). rewrite IH. lra.
Qed.

Lemma Qsum_pointwise {A : Type} (f g : A -> Q) (l : list A) :
  (forall x, In x l -> f x == g x) -> Qsum (map f l) == Qsum (map g l).
Proof.
  induction l as [| x l IH]; intros H; simpl; [reflexivity |].
  change (foldr Qplus 0 ?l) with (Qsum l).
  rewrite (H x) by (by left). rewrite IH; [reflexivity |].
  intros y Hy. apply H. by right.
Qed.

Lemma Qsum_scale {A : Type} (f : A -> Q) (c : Q) (l : list A) :
  Qsum (map (fun x => f x * c) l) == Qsum (map f l) * c.
Proof.
  induction l as [| x l IH]; simpl; [lra |].
  change (foldr Qplus 0 ?l) with (Qsum l). rewrite IH. lra.
Qed.

Lemma filter_full {A : Type} (p : A -> bool) (l : list A) :
  length (List.filter p l) = length l -> List.filter p l = l.
Proof.
  induction l as [| x l IH]; simpl; [done |].
  pose proof (List.filter_length_le p l) as Hle.
  destruct (p x); simpl; intros Hlen; [f_equal; apply IH; lia | lia].
Qed.

(** When the length check passes with ten target shares, all ten
    labels occur. *)
Lemma groups_full (rows : list reweighted_row) :
  length (groups 10 rows) = 10%nat -> groups 10 rows = seq 0 10.
Proof. intros H. unfold groups in *. apply filter_full. by rewrite H. Qed.

Lemma set_factor_label (sf : list xq) (r : reweighted_row) :
  Wealth_Percentile (set_factor sf r) = Wealth_Percentile r.
Proof. reflexivity. Qed.

Lemma filter_set_factor (sf : list xq) (b : nat) (rows : list reweighted_row) :
  List.filter (fun r => bool_decide (Wealth_Percentile r = Some b))
              (map (set_factor sf) rows)
  = map (set_factor sf)
        (List.filter (fun r => bool_decide (Wealth_Percentile r = Some b)) rows).
Proof.
  induction rows as [| r rows IH]; simpl; [done |].
  destruct (bool_decide (Wealth_Percentile r = Some b)); simpl; by rewrite IH.
Qed.

(** The reweighting leaves the labels and the weighted values as they
    were. *)
Lemma bin_sum_weighted_set_factor (sf : list xq) (b : nat) (rows : list reweighted_row) :
  bin_sum Weighted_Wealth b (map (set_factor sf) rows) = bin_sum Weighted_Wealth b rows.
Proof.
  unfold bin_sum. rewrite filter_set_factor, map_map. reflexivity.
Qed.

(** With a finite factor [s] for bin [b], the bin's weighted value
    under the adjusted weights is [s] times what it was. *)
Lemma bin_sum_adjusted (sf : list xq) (b : nat) (s : Q) (rows : list reweighted_row) :
  Forall (fun r => Weighted_Wealth r = r_Net_Wealth r * r_Weight r) rows ->
  sf !! b = Some (Finite s) ->
  bin_sum adjusted_wealth b (map (set_factor sf) rows)
    == bin_sum Weighted_Wealth b rows * s.
Proof.
  intros Hw Hs. unfold bin_sum.
  rewrite filter_set_factor, map_map, <- Qsum_scale.
  apply Qsum_pointwise. intros r Hr.
  apply filter_In in Hr as [Hin Hb]. apply bool_decide_eq_true in Hb.
  rewrite Forall_forall in Hw. rewrite (Hw r) by (by apply list_elem_of_In).
  unfold adjusted_wealth, set_factor. simpl. rewrite Hb. simpl. rewrite Hs. simpl.
  lra.
Qed.

Lemma ranked_rows_weighted (df : list unit_row) (q : nat) (rows : list reweighted_row) :
  ranked_rows df q = Returned rows ->
  Forall (fun r => Weighted_Wealth r = r_Net_Wealth r * r_Weight r) rows.
Proof.
  unfold ranked_rows. destruct (qcut _ q) as [e | labels]; [discriminate |].
  intros [= <-]. generalize (zip (rank_pct (map Net_Wealth
    (List.filter (fun r => Qle_bool 0 (Net_Wealth r)) df))) labels).
  generalize (List.filter (fun r => Qle_bool 0 (Net_Wealth r)) df).
  intros l. induction l as [| r l IH]; intros [| rl l']; simpl; constructor;
    [reflexivity | apply IH].
Qed.

Lemma target_shares_sum : Qsum target_shares == 1.
Proof. reflexivity. Qed.

Lemma target_shares_length : length target_shares = 10%nat.
Proof. reflexivity. Qed.

(** The factors, when the check passes and nothing is divided by 0. *)
Lemma scaling_factors_finite (rows : list reweighted_row) (sf : list xq) :
  scaling_factors_of 10 rows = Returned sf ->
  ~ weighted_total rows == 0 ->
  forall b, (b < 10)%nat ->
    ~ bin_sum Weighted_Wealth b rows == 0 ->
    sf !! b = Some (Finite (nth b target_shares 0
                            / (bin_sum Weighted_Wealth b rows / weighted_total rows))).
Proof.
  unfold scaling_factors_of.
  destruct (negb _) eqn:Hlen; [discriminate |].
  apply negb_false_iff, Nat.eqb_eq in Hlen.
  rewrite !length_map, target_shares_length in Hlen.
  rewrite (groups_full rows Hlen). fold (weighted_total rows).
  intros Heq Htotal b Hb HSb.
  assert (sf = zip_with xdiv target_shares
                 (map (fun s => qdiv s (weighted_total rows))
                    (map (fun b => bin_sum Weighted_Wealth b rows) (seq 0 10))))
    as -> by congruence.
  clear Heq. rewrite lookup_zip_with.
  assert (target_shares !! b = Some (nth b target_shares 0)) as ->.
  { destruct (nth_lookup_or_length target_shares b 0) as [E | E]; [exact E |].
    rewrite target_shares_length in E. lia. }
  rewrite !list_lookup_fmap, lookup_seq_lt by done.
  cbn [fmap option_fmap option_map mbind option_bind Nat.add].
  unfold qdiv.
  assert (Qeq_bool (weighted_total rows) 0 = false) as ->.
  { apply not_true_iff_false. intros E. by apply Qeq_bool_iff in E. }
  cbn [xdiv]. unfold qdiv.
  assert (Qeq_bool (bin_sum Weighted_Wealth b rows / weighted_total rows) 0 = false) as ->.
  { apply not_true_iff_false. intros E. apply Qeq_bool_iff in E.
    apply HSb.
    assert (bin_sum Weighted_Wealth b rows
            == bin_sum Weighted_Wealth b rows / weighted_total rows
               * weighted_total rows) as -> by (field; done).
    rewrite E. lra. }
  reflexivity.
Qed.

(** *** The labels of [qcut] *)

Lemma insert_sorted_In (x y : Q) (l : list Q) :
  In y (insert_sorted x l) <-> x = y \/ In y l.
Proof.
  induction l as [| z l IH]; simpl; [tauto |].
  destruct (Qle_bool x z); simpl; [tauto |]. rewrite IH. tauto.
Qed.

Lemma sort_values_In (y : Q) (l : list Q) : In y (sort_values l) <-> In y l.
Proof.
  induction l as [| x l IH]; simpl; [tauto |].
  rewrite insert_sorted_In, IH. tauto.
Qed.

Lemma insert_sorted_length (x : Q) (l : list Q) :
  length (insert_sorted x l) = S (length l).
Proof.
  induction l as [| z l IH]; simpl; [done |].
  destruct (Qle_bool x z); simpl; by rewrite ?IH.
Qed.

Lemma sort_values_length (l : list Q) : length (sort_values l) = length l.
Proof.
  induction l as [| x l IH]; simpl; [done |]. by rewrite insert_sorted_length, IH.
Qed.

Lemma insert_sorted_ascending (x : Q) (l : list Q) :
  ascending l -> ascending (insert_sorted x l).
Proof.
  induction l as [| z l IH]; simpl; [tauto |].
  intros [Hz Hl]. destruct (Qle_bool x z) eqn:E; simpl.
  - apply Qle_bool_iff in E. repeat split; [| done | done].
    intros y [<- | Hy]; [done |]. specialize (Hz y Hy). lra.
  - split; [| by apply IH].
    intros y Hy. apply insert_sorted_In in Hy as [<- | Hy]; [| by apply Hz].
    destruct (Qlt_le_dec z x) as [H | H]; [lra |].
    apply Qle_bool_iff in H. congruence.
Qed.

Lemma sort_values_ascending (l : list Q) : ascending (sort_values l).
Proof.
  induction l as [| x l IH]; simpl; [done |]. by apply insert_sorted_ascending.
Qed.

(** In an ascending list the first element is the least and the last
    one the greatest. *)
Lemma ascending_bounds (l : list Q) (x : Q) :
  ascending l -> In x l ->
  nth 0 l 0 <= x /\ x <= nth (length l - 1) l 0.
Proof.
  induction l as [| z l IH]; [done |].
  intros [Hz Hl] [<- | Hx].
  - split; [simpl; lra |].
    destruct l as [| z' l]; [simpl; lra |].
    apply Hz. replace (length (z :: z' :: l) - 1)%nat with (S (length l)) by (simpl; lia).
    apply (nth_In (z' :: l)). simpl. lia.
  - split; [simpl; by apply Hz |].
    destruct (IH Hl Hx) as [_ Hlast].
    destruct l as [| z' l]; [done |].
    replace (length (z :: z' :: l) - 1)%nat with (S (length (z' :: l) - 1))
      by (simpl; lia).
    exact Hlast.
Qed.

Lemma Q_of_nat_pred (n : nat) :
  (0 < n)%nat -> Q_of_nat n - 1 == Q_of_nat (n - 1).
Proof.
  intros Hn. unfold Q_of_nat.
  replace (Z.of_nat (n - 1)) with (Z.of_nat n - 1)%Z by lia.
  unfold Qminus, Qeq. simpl. lia.
Qed.

Lemma Qfloor_Q_of_nat (n : nat) : Qfloor (Q_of_nat n) = Z.of_nat n.
Proof. unfold Q_of_nat. apply Qfloor_Z. Qed.

(** The quantile at 0 is the least value, the quantile at 1 the
    greatest. *)
Lemma quantile_first (sorted : list Q) (q : Q) :
  q == 0 -> quantile sorted q == nth 0 sorted 0.
Proof.
  intros Hq. unfold quantile.
  assert (q * (Q_of_nat (length sorted) - 1) == Q_of_nat 0) as Hpos
    by (rewrite Hq; change (Q_of_nat 0) with 0; lra).
  rewrite (Qfloor_comp _ _ Hpos), Qfloor_Q_of_nat, Nat2Z.id.
  rewrite Hpos. simpl nth at 1. lra.
Qed.

Lemma quantile_last (sorted : list Q) (q : Q) :
  q == 1 -> sorted <> [] ->
  quantile sorted q == nth (length sorted - 1) sorted 0.
Proof.
  intros Hq Hne. unfold quantile.
  assert (0 < length sorted)%nat as Hn by (destruct sorted; [done | simpl; lia]).
  assert (q * (Q_of_nat (length sorted) - 1) == Q_of_nat (length sorted - 1)) as Hpos
    by (rewrite Hq, Q_of_nat_pred by done; lra).
  rewrite (Qfloor_comp _ _ Hpos), Qfloor_Q_of_nat, Nat2Z.id.
  rewrite Hpos. lra.
Qed.

Lemma filter_length_lt {A : Type} (p : A -> bool) (l : list A) (x : A) :
  In x l -> p x = false -> (length (List.filter p l) < length l)%nat.
Proof.
  induction l as [| y l IH]; [done |].
  pose proof (List.filter_length_le p l) as Hle.
  intros [<- | Hx] Hp; simpl.
  - rewrite Hp. lia.
  - specialize (IH Hx Hp). destruct (p y); simpl; lia.
Qed.

Lemma filter_length_pos {A : Type} (p : A -> bool) (l : list A) (x : A) :
  In x l -> p x = true -> (0 < length (List.filter p l))%nat.
Proof.
  induction l as [| y l IH]; [done |].
  intros [<- | Hx] Hp; simpl.
  - rewrite Hp. simpl. lia.
  - specialize (IH Hx Hp). destruct (p y); simpl; lia.
Qed.

(** A label that is present lies below the number of bins. *)
Lemma cut_label_range (edges : list Q) (x : Q) (b : nat) :
  (1 <= length edges)%nat ->
  cut_label edges x = Some b -> (b < length edges - 1)%nat.
Proof.
  intros Hne. unfold cut_label.
  pose proof (List.filter_length_le (fun e => Qltb e x) edges) as Hle.
  set (ids := if Qeq_bool x (nth 0 edges 0) then 1%nat else _).
  destruct (ids =? 0)%nat eqn:E0; [discriminate |].
  destruct (ids =? length edges)%nat eqn:E1; [discriminate |].
  apply Nat.eqb_neq in E0, E1. simpl. intros [= <-].
  assert (ids <= length edges)%nat; [| lia].
  subst ids. destruct (Qeq_bool x (nth 0 edges 0)); lia.
Qed.

(** A value between the first and the last edge gets a label. *)
Lemma cut_label_present (edges : list Q) (x : Q) :
  (2 <= length edges)%nat ->
  nth 0 edges 0 <= x -> x <= nth (length edges - 1) edges 0 ->
  exists b, cut_label edges x = Some b.
Proof.
  intros Hlen Hlo Hhi. unfold cut_label.
  destruct (Qeq_bool x (nth 0 edges 0)) eqn:E.
  - assert ((1 =? length edges)%nat = false) as -> by (apply Nat.eqb_neq; lia).
    simpl. eauto.
  - assert (nth 0 edges 0 < x) as Hlt.
    { destruct (Qlt_le_dec (nth 0 edges 0) x) as [H | H]; [done |].
      assert (x == nth 0 edges 0) as H' by lra.
      apply Qeq_bool_iff in H'. congruence. }
    pose proof (filter_length_pos (fun e => Qltb e x) edges (nth 0 edges 0)) as Hpos.
    pose proof (filter_length_lt (fun e => Qltb e x) edges
                  (nth (length edges - 1) edges 0)) as Hless.
    assert (0 < length (List.filter (fun e => Qltb e x) edges))%nat as H0.
    { apply Hpos; [apply nth_In; lia | by apply Qltb_true]. }
    assert (length (List.filter (fun e => Qltb e x) edges) < length edges)%nat as H1.
    { apply Hless; [apply nth_In; lia | by apply Qltb_false]. }
    destruct (_ =? 0)%nat eqn:E0; [apply Nat.eqb_eq in E0; lia |].
    destruct (_ =? length edges)%nat eqn:E1; [apply Nat.eqb_eq in E1; lia |].
    simpl. eauto.
Qed.

(** With ten bins every value gets one of the labels 0, ..., 9. *)
Lemma qcut_labels (x : list Q) (labels : list (option nat)) :
  qcut x 10 = Returned labels ->
  Forall (fun label => exists b, label = Some b /\ (b < 10)%nat) labels.
Proof.
  unfold qcut.
  set (edges := map (quantile (sort_values x)) (linspace01 10)).
  destruct (negb (strictly_increasing edges) || (length x =? 0)%nat) eqn:E;
    [discriminate |].
  apply orb_false_iff in E as [_ Hn]. apply Nat.eqb_neq in Hn.
  intros [= <-]. apply Forall_forall. intros label Hin.
  apply list_elem_of_In, in_map_iff in Hin as (v & <- & Hv).
  assert (length edges = 11%nat) as Hlen by reflexivity.
  assert (sort_values x <> []) as Hne.
  { intros H0. apply (f_equal length) in H0.
    rewrite sort_values_length in H0. simpl in H0. lia. }
  apply sort_values_In in Hv.
  destruct (ascending_bounds _ v (sort_values_ascending x) Hv) as [Hlo Hhi].
  assert (nth 0 edges 0 == nth 0 (sort_values x) 0) as H0.
  { change (nth 0 edges 0) with (quantile (sort_values x) (Q_of_nat 0 / Q_of_nat 10)).
    apply quantile_first. reflexivity. }
  assert (nth (length edges - 1) edges 0
          == nth (length (sort_values x) - 1) (sort_values x) 0) as H1.
  { rewrite Hlen.
    change (nth (11 - 1) edges 0)
      with (quantile (sort_values x) (Q_of_nat 10 / Q_of_nat 10)).
    apply quantile_last; [reflexivity | done]. }
  destruct (cut_label_present edges v) as [b Hb]; [lia | lra | lra |].
  exists b. split; [done |].
  apply cut_label_range in Hb; lia.
Qed.

Lemma ranked_rows_labels (df : list unit_row) (rows : list reweighted_row) :
  ranked_rows df 10 = Returned rows ->
  Forall (fun r => exists b, Wealth_Percentile r = Some b /\ (b < 10)%nat) rows.
Proof.
  unfold ranked_rows. destruct (qcut _ 10) as [e | labels] eqn:Hq; [discriminate |].
  apply qcut_labels in Hq. intros [= <-].
  generalize (rank_pct (map Net_Wealth
    (List.filter (fun r => Qle_bool 0 (Net_Wealth r)) df))).
  generalize (List.filter (fun r => Qle_bool 0 (Net_Wealth r)) df).
  intros l ranks. revert l ranks.
  induction Hq as [| label labels Hlabel Hrest IH]; intros l ranks.
  - destruct l, ranks; constructor.
  - destruct l as [| r l], ranks as [| rk ranks]; simpl; try constructor.
    + exact Hlabel.
    + apply IH.
Qed.

End ReweightFacts.

Section Reweighting.
Import Calibrator.

(** A bin that holds some weighted value holds a row. *)
Lemma bin_sum_nonzero_group (column : reweighted_row -> Q) (b : nat)
      (rows : list reweighted_row) :
  ~ bin_sum column b rows == 0 ->
  existsb (fun r => bool_decide (Wealth_Percentile r = Some b)) rows = true.
Proof.
  intros Hnz. apply not_false_iff_true. intros Hex. apply Hnz.
  unfold bin_sum. rewrite filter_none; [reflexivity |].
  intros r Hr. apply not_true_iff_false. intros Hb.
  assert (existsb (fun r => bool_decide (Wealth_Percentile r = Some b)) rows = true)
    by (apply existsb_exists; eauto).
  congruence.
Qed.

Lemma groups_all_present (rows : list reweighted_row) :
  (forall b, (b < 10)%nat -> ~ bin_sum Weighted_Wealth b rows == 0) ->
  groups 10 rows = seq 0 10.
Proof.
  intros Hnz. unfold groups.
  apply List.forallb_filter_id, forallb_forall.
  intros b Hb. apply in_seq in Hb.
  apply (bin_sum_nonzero_group Weighted_Wealth). apply Hnz. lia.
Qed.

Lemma target_shares_seq :
  Qsum (map (fun b => nth b target_shares 0) (seq 0 10)) == 1.
Proof. reflexivity. Qed.

(** C4, as amended.  When the ranking stage yields its ten bins and
    each bin holds a non-zero share of a positive total weighted value,
    the reweighting returns, every adjusted weight is finite, and under
    the adjusted weights each bin's share of the total equals the
    renormalised target share exactly; nothing is iterated. *)
Theorem reweighting_matches_targets
    (dataframe : list unit_row) (ranked : list reweighted_row) :
  ranked_rows dataframe 10 = Returned ranked ->
  0 < weighted_total ranked ->
  (forall b, (b < 10)%nat -> ~ bin_sum Weighted_Wealth b ranked == 0) ->
  (exists rows,
      reweight_to_match_percentile_shares dataframe 10 = Returned rows /\
      Forall (fun r => is_finite (Adjusted_Weight r) = true) rows /\
      forall b, (b < 10)%nat -> adjusted_share rows b == nth b target_shares 0) /\
  matches_targets dataframe.
Proof.
  intros Hranked Htotal Hbins.
  assert (~ weighted_total ranked == 0) as Hnz by lra.
  pose proof (ranked_rows_weighted _ _ _ Hranked) as Hweighted.
  pose proof (ranked_rows_labels _ _ Hranked) as Hlabels.
  assert (exists sf, scaling_factors_of 10 ranked = Returned sf) as [sf Hsf].
  { unfold scaling_factors_of. rewrite (groups_all_present ranked Hbins).
    rewrite !length_map, target_shares_length, length_seq. simpl. eauto. }
  pose proof (scaling_factors_finite ranked sf Hsf Hnz) as Hfactor.
  assert (reweight_to_match_percentile_shares dataframe 10
          = Returned (map (set_factor sf) ranked)) as Hrun.
  { unfold reweight_to_match_percentile_shares. by rewrite Hranked, Hsf. }
  assert (Forall (fun r => is_finite (Adjusted_Weight r) = true)
                 (map (set_factor sf) ranked)) as Hfinite.
  { apply Forall_fmap. eapply Forall_impl; [exact Hlabels |].
    intros r (b & Hb & Hlt). unfold set_factor. simpl.
    rewrite Hb. simpl. rewrite (Hfactor b Hlt (Hbins b Hlt)). reflexivity. }
  assert (forall b, (b < 10)%nat ->
            bin_sum adjusted_wealth b (map (set_factor sf) ranked)
            == nth b target_shares 0 * weighted_total ranked) as Hbin.
  { intros b Hlt.
    rewrite (bin_sum_adjusted sf b _ ranked Hweighted (Hfactor b Hlt (Hbins b Hlt))).
    field. split; [done | apply (Hbins b Hlt)]. }
  assert (forall b, (b < 10)%nat ->
            adjusted_share (map (set_factor sf) ranked) b == nth b target_shares 0)
    as Hshare.
  { intros b Hlt. unfold adjusted_share.
    assert (Qsum (map (fun b' => bin_sum adjusted_wealth b' (map (set_factor sf) ranked))
                      (seq 0 10))
            == weighted_total ranked) as ->.
    { rewrite (Qsum_pointwise _ (fun b' => nth b' target_shares 0 * weighted_total ranked)).
      - rewrite Qsum_scale, target_shares_seq. lra.
      - intros b' Hb'. apply in_seq in Hb'. apply Hbin. lia. }
    rewrite (Hbin b Hlt). field. done. }
  split.
  - exists (map (set_factor sf) ranked). auto.
  - exists (map (set_factor sf) ranked). repeat split; [done | done |].
    intros b Hlt.
    assert (adjusted_share (map (set_factor sf) ranked) b - nth b target_shares 0 == 0)
      as -> by (rewrite (Hshare b Hlt); lra).
    vm_compute. discriminate.
Qed.

Lemma reweighting_matches_targets_witness : matches_targets ten_units.
Proof.
  destruct (ranked_rows ten_units 10) as [e | ranked] eqn:Hranked;
    [vm_compute in Hranked; discriminate |].
  apply (reweighting_matches_targets ten_units ranked Hranked).
  - vm_compute in Hranked. injection Hranked as <-. vm_compute. reflexivity.
  - vm_compute in Hranked. injection Hranked as <-.
    intros b Hb.
    do 10 (destruct b as [| b]; [vm_compute; discriminate |]). lia.
Defined.

(** C4, as stated, fails on three units of positive wealth and weight:
    their ranks fall into three of the ten bins, and the function
    raises the mismatch error. *)
Lemma three_units_do_not_match :
  0 < total_weighted_value three_units /\
  reweight_to_match_percentile_shares three_units 10 = Raised PercentileMismatch /\
  ~ matches_targets three_units.
Proof.
  split; [vm_compute; reflexivity |]. split; [vm_compute; reflexivity |].
  intros (rows & Hrun & _). vm_compute in Hrun. discriminate.
Qed.

(** Ten units with a positive total of which two bins hold nothing:
    the function returns, and the adjusted weights of those two bins
    are not finite. *)
Example empty_bins_get_no_finite_weight :
  0 < total_weighted_value two_penniless_units /\
  exists rows,
    reweight_to_match_percentile_shares two_penniless_units 10 = Returned rows /\
    map Adjusted_Weight (take 2 rows) = [NaN; PosInf].
Proof.
  split; [vm_compute; reflexivity |].
  eexists. split; vm_compute; reflexivity.
Qed.

(** C7.  Ten units of weight 0: the total weight and the total
    weighted value are 0, the function returns without raising, and
    the scaling factor and the adjusted weight of every one of the ten
    units is NaN. *)
Theorem zero_total_gives_nan_weights :
  Qsum (map Weight ten_weightless_units) == 0 /\
  total_weighted_value ten_weightless_units == 0 /\
  exists rows,
    reweight_to_match_percentile_shares ten_weightless_units 10 = Returned rows /\
    length rows = 10%nat /\
    Forall (fun r => Scaling_Factor r = NaN /\ Adjusted_Weight r = NaN) rows.
Proof.
  split; [vm_compute; reflexivity |]. split; [vm_compute; reflexivity |].
  eexists. split; [vm_compute; reflexivity |]. split; [reflexivity |].
  repeat (apply Forall_cons; split; [split; reflexivity |]).
  apply Forall_nil. exact I.
Qed.

End Reweighting.

Section ParetoFacts.
Import ParetoTail.

Lemma insert_desc_length (x : unit_row) (l : list unit_row) :
  length (insert_desc x l) = S (length l).
Proof.
  induction l as [| y l IH]; simpl; [done |].
  destruct (Qle_bool _ _); simpl; by rewrite ?IH.
Qed.

Lemma sort_desc_length (df : list unit_row) : length (sort_desc df) = length df.
Proof.
  induction df as [| x df IH]; simpl; [done |]. by rewrite insert_desc_length, IH.
Qed.

Lemma zip_with_set_assets (scale : Q) (samples : list Q) (rows : list unit_row) :
  length samples = length rows ->
  Forall2 recomputed rows
          (zip_with (fun s r => set_assets r (s * scale)) samples rows) /\
  weighted_assets (zip_with (fun s r => set_assets r (s * scale)) samples rows)
    == scale * window_mass samples rows.
Proof.
  unfold weighted_assets, window_mass.
  revert samples. induction rows as [| r rows IH]; intros [| s samples] Hlen;
    simpl in Hlen; try discriminate.
  - split; [constructor | simpl; lra].
  - injection Hlen as Hlen. destruct (IH samples Hlen) as [Hrows Hsum].
    split.
    + constructor; [repeat split | exact Hrows].
    + simpl. change (foldr Qplus 0 ?l) with (Qsum l). rewrite Hsum. lra.
Qed.

Lemma rescale_window_spec (target : Q) (samples : list Q) (rows out : list unit_row) :
  length samples = length rows ->
  rescale_window target samples rows = Some out ->
  Forall2 recomputed rows out /\
  (rows <> [] -> weighted_assets out == target).
Proof.
  intros Hlen. unfold rescale_window.
  destruct rows as [| r rows]; [intros [= <-]; split; [constructor | done] |].
  unfold Calibrator.qdiv.
  destruct (Qeq_bool (window_mass samples (r :: rows)) 0) eqn:Hz.
  - destruct (Qeq_bool target 0); [discriminate |].
    destruct (Qltb 0 target); discriminate.
  - intros [= <-].
    destruct (zip_with_set_assets (target / window_mass samples (r :: rows))
                samples (r :: rows) Hlen) as [Hrows Hsum].
    split; [exact Hrows |]. intros _. rewrite Hsum. field.
    intros E. apply Qeq_bool_iff in E. congruence.
Qed.

Lemma rescale_window_returns (target : Q) (samples : list Q) (rows : list unit_row) :
  rows = [] \/ ~ window_mass samples rows == 0 ->
  exists out, rescale_window target samples rows = Some out.
Proof.
  intros [-> | Hnz]; [simpl; eauto |].
  unfold rescale_window, Calibrator.qdiv.
  destruct rows as [| r rows]; [eauto |].
  assert (Qeq_bool (window_mass samples (r :: rows)) 0 = false) as ->; [| eauto].
  apply not_true_iff_false. intros E. by apply Qeq_bool_iff in E.
Qed.

Lemma Forall2_recomputed_columns (rows out : list unit_row) :
  Forall2 recomputed rows out ->
  length out = length rows /\
  map Debt_Ratio out = map Debt_Ratio rows /\
  map Weight out = map Weight rows /\
  Forall (fun r => Debts r = Total_Assets r * Debt_Ratio r /\
                   Net_Wealth r = Total_Assets r - Debts r) out.
Proof.
  induction 1 as [| r r' rows out (Hd & Hw & Hdebt & Hnw) Hrest
                    (IHlen & IHd & IHw & IHf)]; simpl.
  - repeat split; constructor.
  - rewrite IHlen, IHd, IHw, Hd, Hw. repeat split; try done.
    constructor; [split |]; done.
Qed.

Lemma windows_partition (rows : list unit_row) :
  top1_window rows ++ next9_window rows ++ untouched rows = rows.
Proof.
  unfold top1_window, next9_window, untouched.
  assert (top1_n rows <= top10_n rows)%nat as Hle.
  { unfold top1_n, top10_n.
    pose proof (Nat.div_le_compat_l (length rows) 10 100). lia. }
  replace (drop (top10_n rows) rows)
    with (drop (top10_n rows - top1_n rows) (drop (top1_n rows) rows)).
  - by rewrite take_drop, take_drop.
  - rewrite drop_drop. f_equal. lia.
Qed.

Lemma window_lengths (rows : list unit_row) :
  length (top1_window rows) = top1_n rows /\
  length (next9_window rows) = (top10_n rows - top1_n rows)%nat.
Proof.
  unfold top1_window, next9_window.
  assert (top10_n rows <= length rows)%nat as Hle10
    by (unfold top10_n; apply Nat.Div0.div_le_upper_bound; lia).
  assert (top1_n rows <= top10_n rows)%nat as Hle.
  { unfold top1_n, top10_n.
    pose proof (Nat.div_le_compat_l (length rows) 10 100). lia. }
  rewrite !length_take, length_drop. lia.
Qed.

(** The windows of a frame assembled from replaced windows. *)
Lemma windows_of_replaced (rows top1 next9 : list unit_row) :
  length top1 = length (top1_window rows) ->
  length next9 = length (next9_window rows) ->
  let out := top1 ++ next9 ++ untouched rows in
  top1_window out = top1 /\ next9_window out = next9 /\
  untouched out = untouched rows.
Proof.
  intros H1 H9 out.
  destruct (window_lengths rows) as [L1 L9].
  assert (length out = length rows) as Hlen.
  { subst out. rewrite <- (windows_partition rows) at 2.
    rewrite !length_app. lia. }
  assert (top1_n rows <= top10_n rows)%nat as Hle.
  { unfold top1_n, top10_n.
    pose proof (Nat.div_le_compat_l (length rows) 10 100). lia. }
  assert (top1_n out = length top1) as E1 by (unfold top1_n; rewrite Hlen; fold (top1_n rows); lia).
  assert (top10_n out = (length top1 + length next9)%nat) as E10
    by (unfold top10_n; rewrite Hlen; fold (top10_n rows); lia).
  unfold top1_window, next9_window, untouched. rewrite E1, E10. subst out.
  split; [| split].
  - by rewrite take_app_length.
  - rewrite drop_app_length.
    replace (length top1 + length next9 - length top1)%nat with (length next9) by lia.
    by rewrite take_app_length.
  - rewrite drop_app_add', drop_app_length by done.
    unfold untouched. reflexivity.
Qed.

End ParetoFacts.

Section ParetoInjection.
Import ParetoTail.

(** C5, as amended.  When neither window divides by zero (each is
    empty or the variates drawn for it, weighted, do not sum to 0),
    the injection returns a frame in which: every unit has the debt
    ratio and the weight of the sorted input; in the two windows debts
    are assets times debt ratio and net wealth is assets minus debts;
    the units below the top 10% are those of the sorted input; and the
    weighted sum of the assets of a non-empty window is its target
    share of the input's summed net wealth, the top-1% target for the
    first window and the top-10% target minus the top-1% target for
    the next 9%. *)
Theorem pareto_tail_rescales_assets
    (df : list unit_row) (top1_share_target top10_share_target : Q)
    (pareto : nat -> Q) :
  let sorted := sort_desc df in
  let total_net_wealth := Qsum (map Net_Wealth sorted) in
  let top1_sample := map pareto (seq 0 (top1_n sorted)) in
  let top10_sample := map pareto (seq (top1_n sorted) (top10_n sorted - top1_n sorted)) in
  (top1_window sorted = [] \/
     ~ window_mass top1_sample (top1_window sorted) == 0) ->
  (next9_window sorted = [] \/
     ~ window_mass top10_sample (next9_window sorted) == 0) ->
  exists out,
    inject_calibrated_pareto_tail df top1_share_target top10_share_target pareto
      = Some out /\
    map Debt_Ratio out = map Debt_Ratio sorted /\
    map Weight out = map Weight sorted /\
    Forall (fun r => Debts r = Total_Assets r * Debt_Ratio r /\
                     Net_Wealth r = Total_Assets r - Debts r)
           (top1_window out ++ next9_window out) /\
    untouched out = untouched sorted /\
    (top1_window sorted <> [] ->
       weighted_assets (top1_window out) == top1_share_target * total_net_wealth) /\
    (next9_window sorted <> [] ->
       weighted_assets (next9_window out)
         == top10_share_target * total_net_wealth
            - top1_share_target * total_net_wealth).
Proof.
  intros sorted total top1_sample top10_sample Hmass1 Hmass9.
  destruct (window_lengths sorted) as [L1 L9].
  assert (length top1_sample = length (top1_window sorted)) as Hs1
    by (unfold top1_sample; rewrite length_map, length_seq; lia).
  assert (length top10_sample = length (next9_window sorted)) as Hs9
    by (unfold top10_sample; rewrite length_map, length_seq; lia).
  destruct (rescale_window_returns (top1_share_target * total) _ _ Hmass1)
    as [top1 Htop1].
  destruct (rescale_window_returns
              (top10_share_target * total - top1_share_target * total) _ _ Hmass9)
    as [next9 Hnext9].
  destruct (rescale_window_spec _ _ _ _ Hs1 Htop1) as [Hrows1 Hsum1].
  destruct (rescale_window_spec _ _ _ _ Hs9 Hnext9) as [Hrows9 Hsum9].
  destruct (Forall2_recomputed_columns _ _ Hrows1) as (Hlen1 & Hd1 & Hw1 & Hf1).
  destruct (Forall2_recomputed_columns _ _ Hrows9) as (Hlen9 & Hd9 & Hw9 & Hf9).
  destruct (windows_of_replaced sorted top1 next9 Hlen1 Hlen9) as (W1 & W9 & Wrest).
  exists (top1 ++ next9 ++ untouched sorted).
  split.
  { unfold inject_calibrated_pareto_tail.
    fold sorted. fold total. fold top1_sample. fold top10_sample.
    by rewrite Htop1, Hnext9. }
  rewrite W1, W9, Wrest.
  split; [| split; [| split; [| split; [| split]]]].
  - rewrite !map_app, Hd1, Hd9, <- !map_app. by rewrite windows_partition.
  - rewrite !map_app, Hw1, Hw9, <- !map_app. by rewrite windows_partition.
  - apply Forall_app. split; done.
  - reflexivity.
  - exact Hsum1.
  - exact Hsum9.
Qed.

Lemma pareto_tail_rescales_assets_witness :
  exists out,
    inject_calibrated_pareto_tail hundred_units 0.20 0.50 unit_variate = Some out /\
    weighted_assets (top1_window out) == 0.20 * Qsum (map Net_Wealth hundred_units) /\
    weighted_assets (next9_window out)
      == 0.50 * Qsum (map Net_Wealth hundred_units)
         - 0.20 * Qsum (map Net_Wealth hundred_units).
Proof.
  destruct (pareto_tail_rescales_assets hundred_units 0.20 0.50 unit_variate)
    as (out & Hrun & _ & _ & _ & _ & H1 & H9).
  - right. vm_compute. discriminate.
  - right. vm_compute. discriminate.
  - exists out. split; [exact Hrun |]. split.
    + rewrite H1; [vm_compute; reflexivity | vm_compute; discriminate].
    + rewrite H9; [vm_compute; reflexivity | vm_compute; discriminate].
Defined.

(** C5, as stated, fails on a hundred units that each owe half of
    their assets: the weighted assets of the top-1% window are 20% of
    the summed net wealth, so its weighted net wealth is 10% of it, and
    it is not 20% of the summed net wealth after the injection either;
    likewise for the next 9%. *)
Lemma window_net_wealth_misses_target :
  match inject_calibrated_pareto_tail hundred_units 0.20 0.50 unit_variate with
  | None => False
  | Some out =>
      let before := Qsum (map Net_Wealth hundred_units) in
      let after := Qsum (map Net_Wealth out) in
      weighted_assets (top1_window out) == 0.20 * before /\
      weighted_net_wealth (top1_window out) == 0.10 * before /\
      ~ weighted_net_wealth (top1_window out) == 0.20 * before /\
      ~ weighted_net_wealth (top1_window out) == 0.20 * after /\
      ~ weighted_net_wealth (next9_window out) == 0.30 * before /\
      ~ weighted_net_wealth (next9_window out) == 0.30 * after
  end.
Proof. vm_compute. repeat split; discriminate. Qed.

End ParetoInjection.

Section IncomeTax.
Import TaxEngine.

Lemma pit_loop_shift (schedule : list (bound * Q)) (income last taxes : Q) :
  pit_loop schedule income last taxes == taxes + pit_loop schedule income last 0.
Proof.
  revert last taxes.
  induction schedule as [| [limit rate] rest IH]; intros last taxes; simpl.
  - lra.
  - destruct limit as [l |].
    + rewrite (IH l (taxes + _)), (IH l (0 + _)). lra.
    + lra.
Qed.

Lemma pit_rates_between_cons lo hi limit rate rest :
  pit_rates_between lo hi ((limit, rate) :: rest) = true ->
  (lo <= rate /\ rate <= hi) /\ pit_rates_between lo hi rest = true.
Proof.
  unfold pit_rates_between. simpl. intros H.
  apply andb_true_iff in H as [H1 H2]. apply andb_true_iff in H1 as [H0 H1].
  apply Qle_bool_iff in H0, H1. auto.
Qed.

(** The part of an income that falls into one bracket, and what is
    left for the brackets above it. *)
Lemma bracket_part_split (income last l : Q) :
  last <= l ->
  Qmax (Qmin income l - last) 0 + Qmax (income - l) 0 == Qmax (income - last) 0.
Proof.
  intros Hl.
  destruct (Q.min_spec income l) as [[H1 ->] | [H1 ->]];
    destruct (Q.max_spec (income - last) 0) as [[H2 ->] | [H2 ->]];
    destruct (Q.max_spec (income - l) 0) as [[H3 ->] | [H3 ->]];
    try lra;
    match goal with
    | |- context [Qmax ?a 0] =>
        destruct (Q.max_spec a 0) as [[H4 ->] | [H4 ->]]; lra
    end.
Qed.

Lemma bracket_part_nonneg (x : Q) : 0 <= Qmax x 0.
Proof. apply Q.le_max_r. Qed.

Lemma bracket_part_mono (i1 i2 last : Q) (limit : bound) :
  i1 <= i2 ->
  Qmax (min_bound i1 limit - last) 0 <= Qmax (min_bound i2 limit - last) 0.
Proof.
  intros H. apply Q.max_le_compat_r.
  pose proof (min_bound_mono i1 i2 limit H). lra.
Qed.

(** Between the lowest and the highest rate of a covering schedule. *)
Lemma pit_loop_bounds (lo hi : Q) (schedule : list (bound * Q)) (income last : Q) :
  0 <= lo ->
  pit_covering last schedule = true ->
  pit_rates_between lo hi schedule = true ->
  lo * Qmax (income - last) 0 <= pit_loop schedule income last 0 /\
  pit_loop schedule income last 0 <= hi * Qmax (income - last) 0.
Proof.
  intros Hlo. revert last.
  induction schedule as [| [limit rate] rest IH]; intros last Hcov Hrates;
    [discriminate |].
  apply pit_rates_between_cons in Hrates as [[Hr0 Hr1] Hrates].
  simpl. destruct limit as [l |].
  - simpl in Hcov. apply andb_true_iff in Hcov as [Hl Hcov].
    apply Qle_bool_iff in Hl.
    destruct (IH l Hcov Hrates) as [IHlo IHhi].
    rewrite pit_loop_shift. cbn [min_bound].
    pose proof (bracket_part_split income last l Hl) as Hsplit.
    pose proof (bracket_part_nonneg (Qmin income l - last)) as Ht.
    set (t := Qmax (Qmin income l - last) 0) in *.
    set (above := Qmax (income - l) 0) in *.
    assert (t * lo <= t * rate) by (apply Qmult_le_l'; lra).
    assert (t * rate <= t * hi) by (apply Qmult_le_l'; lra).
    rewrite <- Hsplit. clearbody t above. split; lra.
  - cbn [min_bound]. pose proof (bracket_part_nonneg (income - last)) as Ht.
    set (t := Qmax (income - last) 0) in *. clearbody t.
    assert (t * lo <= t * rate) by (apply Qmult_le_l'; lra).
    assert (t * rate <= t * hi) by (apply Qmult_le_l'; lra).
    split; lra.
Qed.

Lemma pit_loop_mono (lo hi : Q) (schedule : list (bound * Q)) (i1 i2 last : Q) :
  0 <= lo ->
  pit_rates_between lo hi schedule = true ->
  i1 <= i2 ->
  pit_loop schedule i1 last 0 <= pit_loop schedule i2 last 0.
Proof.
  intros Hlo Hrates Hi. revert last.
  induction schedule as [| [limit rate] rest IH]; intros last; [simpl; lra |].
  apply pit_rates_between_cons in Hrates as [[Hr0 Hr1] Hrates].
  pose proof (bracket_part_mono i1 i2 last limit Hi) as Hpart.
  assert (Qmax (min_bound i1 limit - last) 0 * rate
          <= Qmax (min_bound i2 limit - last) 0 * rate) as Hterm
    by (apply Qmult_le_compat_r; lra).
  cbn [pit_loop]. destruct limit as [l |].
  - rewrite (pit_loop_shift rest i1), (pit_loop_shift rest i2).
    specialize (IH Hrates l). lra.
  - lra.
Qed.

(** X1.  The income tax of an income that is not negative lies between
    19% and 47% of it, so it never reaches the 60% of the joint cap;
    an income that is not positive pays none. *)
Theorem simulate_pit_effective_rate (income : Q) :
  (0 <= income ->
     0.19 * income <= simulate_pit income /\
     simulate_pit income <= 0.47 * income) /\
  (income <= 0 -> simulate_pit income == 0).
Proof.
  assert (pit_covering 0 pit_schedule = true) as Hcov by reflexivity.
  assert (pit_rates_between 0.19 0.47 pit_schedule = true) as Hrates by reflexivity.
  destruct (pit_loop_bounds 0.19 0.47 pit_schedule income 0) as [Hlo Hhi];
    [lra | done | done |].
  unfold simulate_pit. split; intros H.
  - rewrite Q.max_l in Hlo, Hhi by lra. split; lra.
  - rewrite Q.max_r in Hlo, Hhi by lra. lra.
Qed.

Lemma simulate_pit_effective_rate_witness :
  0.19 * 50000 <= simulate_pit 50000 /\ simulate_pit 50000 <= 0.47 * 50000.
Proof.
  apply (proj1 (simulate_pit_effective_rate 50000)). vm_compute. discriminate.
Defined.

(** X2.  The income tax never falls when the income rises. *)
Theorem simulate_pit_monotone (i1 i2 : Q) :
  i1 <= i2 -> simulate_pit i1 <= simulate_pit i2.
Proof.
  intros H. unfold simulate_pit.
  apply (pit_loop_mono 0.19 0.47); [lra | reflexivity | exact H].
Qed.

Lemma simulate_pit_monotone_witness : simulate_pit 20000 <= simulate_pit 50000.
Proof. apply simulate_pit_monotone. vm_compute. discriminate. Defined.

Lemma calculate_ip_tax_nonneg (base : Q) (region : string) :
  0 <= calculate_ip_tax base region.
Proof.
  destruct (all_tables_ascending region) as [Ha Hr].
  unfold calculate_ip_tax, ascending_gap_free in *.
  by apply (bracket_loop_nonneg top_rate _ 0).
Qed.

Lemma calculate_ip_tax_at_most_top_rate (base : Q) (region : string) :
  0 <= base -> calculate_ip_tax base region <= top_rate * base.
Proof.
  intros Hb. destruct (all_tables_ascending region) as [Ha Hr].
  unfold calculate_ip_tax, ascending_gap_free in *.
  pose proof (bracket_loop_lipschitz top_rate _ 0 0 base Ha Hr Hb) as Hl.
  rewrite (bracket_loop_below 0 _ 0 Ha) in Hl by lra. lra.
Qed.

(** For every region and every base that is not negative, the
    wealth tax lies between 0 and the top marginal rate times the base. *)
Theorem calculate_ip_tax_average_rate (base : Q) (region : string) :
  0 <= base ->
  0 <= calculate_ip_tax base region /\
  calculate_ip_tax base region <= top_rate * base.
Proof.
  intros Hb. split.
  - apply calculate_ip_tax_nonneg.
  - by apply calculate_ip_tax_at_most_top_rate.
Qed.

Lemma calculate_ip_tax_average_rate_witness :
  0 <= calculate_ip_tax 3000000 "Valencia" /\
  calculate_ip_tax 3000000 "Valencia" <= top_rate * 3000000.
Proof. apply calculate_ip_tax_average_rate. vm_compute. discriminate. Defined.

Lemma joint_cap_at_least_a_fifth (wealth_tax pit income : Q) :
  0 <= wealth_tax -> 0.2 * wealth_tax <= joint_cap wealth_tax pit income.
Proof.
  intros Hw. unfold joint_cap.
  destruct (Qgtb (wealth_tax + pit) (0.60 * income)); [apply Q.le_max_l | lra].
Qed.

Lemma joint_cap_never_raises (wealth_tax pit income : Q) :
  0 <= wealth_tax -> joint_cap wealth_tax pit income <= wealth_tax.
Proof.
  intros Hw. unfold joint_cap.
  destruct (Qgtb (wealth_tax + pit) (0.60 * income)) eqn:E; [| lra].
  apply Qgtb_true in E. apply Q.max_lub; lra.
Qed.

(** X3.  The joint cap never raises a wealth tax that is not negative,
    and always leaves at least 20% of it. *)
Theorem joint_cap_keeps_a_fifth (wealth_tax pit income : Q) :
  0 <= wealth_tax ->
  0.2 * wealth_tax <= joint_cap wealth_tax pit income /\
  joint_cap wealth_tax pit income <= wealth_tax.
Proof.
  intros Hw. split.
  - by apply joint_cap_at_least_a_fifth.
  - by apply joint_cap_never_raises.
Qed.

Lemma joint_cap_keeps_a_fifth_witness :
  0.2 * 50000 <= joint_cap 50000 30000 100000 /\
  joint_cap 50000 30000 100000 <= 50000.
Proof. apply joint_cap_keeps_a_fifth. vm_compute. discriminate. Defined.

End IncomeTax.

(** Replaces every quotient by a fresh variable together with the
    equation that defines it, so that linear arithmetic applies. *)
Ltac divide_out :=
  repeat match goal with
  | |- context [?x / ?c] =>
      let y := fresh "quot" in
      let H := fresh "Hquot" in
      assert (H : x / c * c == x) by (field; lra);
      set (y := x / c) in *; clearbody y
  end.

Section Behaviour.
Import Pipeline.

Lemma exemption_map_get (region : string) :
  default 700000 (exemption_map !! region) = get_personal_exemption region.
Proof.
  unfold exemption_map.
  repeat (rewrite lookup_insert; case_decide; [subst region; reflexivity |]).
  rewrite lookup_empty. unfold get_personal_exemption.
  rewrite bool_decide_eq_false_2; [reflexivity |].
  rewrite !not_elem_of_cons. repeat split; try congruence. apply not_elem_of_nil.
Qed.

(** X4.  The exemption that [run_tax_simulation] takes from its own
    table is, for every region string, the one [get_personal_exemption]
    returns. *)
Theorem personal_exemption_agrees (i : unit_row) (u : Q) :
  Personal_Exemption (run_tax_simulation_row i u)
  = get_personal_exemption (in_Region i).
Proof.
  change (Personal_Exemption (run_tax_simulation_row i u))
    with (default 700000 (exemption_map !! in_Region i)).
  apply exemption_map_get.
Qed.

(** X5.  In the result of [run_tax_simulation] the net tax base is the
    adjusted net wealth less the total exemption of
    [compute_total_exemption], floored at 0, and the taxable wealth
    computed further down is the same amount. *)
Theorem net_base_is_wealth_less_exemptions (i : unit_row) (u : Q) :
  let r := run_tax_simulation_row i u in
  Net_Tax_Base r == Qmax (Adj_Net_Wealth r - compute_total_exemption r) 0 /\
  Taxable_Wealth r == Net_Tax_Base r.
Proof.
  intros r.
  assert (Net_Tax_Base r
          = Qmax (Adj_Net_Wealth r - Primary_Residence_Exempt r - Business_Exemption r
                  - Personal_Exemption r) 0) as HN by reflexivity.
  assert (Taxable_Wealth r
          = Qmax (Adj_Net_Wealth r - Personal_Exemption r - Primary_Residence_Exempt r
                  - Business_Exemption r) 0) as HT by reflexivity.
  assert (Primary_Residence_Exempt r = Qmin (Adj_Real_Assets r) 300000) as HP
    by reflexivity.
  assert (Region r = in_Region i) as HR by reflexivity.
  assert (Personal_Exemption r = get_personal_exemption (in_Region i)) as HE.
  { change (Personal_Exemption r) with (default 700000 (exemption_map !! in_Region i)).
    apply exemption_map_get. }
  unfold compute_total_exemption. rewrite HR, <- HE, <- HP.
  rewrite HN, HT. clearbody r.
  split; apply Q.max_compat; lra.
Qed.

Lemma dropout_prob_below_threshold (nw : Q) :
  nw < 2000000 -> dropout_prob nw == 0.
Proof.
  intros Hnw. unfold dropout_prob.
  destruct (Qltb nw 2000000) eqn:A; [reflexivity |].
  apply Qltb_false in A. lra.
Qed.

(** X6.  The dropout probability lies between 0 and 30%, is 0 below two
    million of adjusted net wealth, and never falls when wealth rises. *)
Theorem dropout_prob_range (nw1 nw2 : Q) :
  (0 <= dropout_prob nw1 /\ dropout_prob nw1 <= 0.30) /\
  (nw1 < 2000000 -> dropout_prob nw1 == 0) /\
  (nw1 <= nw2 -> dropout_prob nw1 <= dropout_prob nw2).
Proof.
  unfold dropout_prob.
  destruct (Qltb nw1 2000000) eqn:A1; destruct (Qltb nw1 10000000) eqn:B1;
    destruct (Qltb nw2 2000000) eqn:A2; destruct (Qltb nw2 10000000) eqn:B2;
    try apply Qltb_true in A1; try apply Qltb_false in A1;
    try apply Qltb_true in B1; try apply Qltb_false in B1;
    try apply Qltb_true in A2; try apply Qltb_false in A2;
    try apply Qltb_true in B2; try apply Qltb_false in B2;
    divide_out;
    repeat match goal with
    | |- context [Qmin ?a ?b] =>
        let H := fresh in let E := fresh in
        destruct (Q.min_spec a b) as [[H E] | [H E]]; rewrite E
    end;
    repeat split; intros; lra.
Qed.

Lemma dropout_prob_range_witness :
  dropout_prob 1500000 == 0 /\ dropout_prob 1500000 <= dropout_prob 4000000.
Proof.
  destruct (dropout_prob_range 1500000 4000000) as (_ & Hzero & Hmono).
  split; [apply Hzero | apply Hmono]; vm_compute; reflexivity || discriminate.
Defined.

Lemma base_erosion_range (wealth_rank : Q) :
  0.02 <= base_erosion wealth_rank /\ base_erosion wealth_rank <= 0.35.
Proof.
  unfold base_erosion.
  repeat match goal with |- context [if ?b then _ else _] => destruct b end;
    split; lra.
Qed.

Lemma erosion_modifier_range (bar rar far income adj_net_wealth : Q) :
  1 <= erosion_modifier bar rar far income adj_net_wealth /\
  erosion_modifier bar rar far income adj_net_wealth <= 1.25.
Proof.
  unfold erosion_modifier, indicator.
  repeat match goal with |- context [if ?b then _ else _] => destruct b end;
    split; lra.
Qed.

Lemma assign_erosion_factor (max_erosion u : Q) (r : taxed_row) :
  Erosion_Factor (assign_erosion max_erosion u r)
  = Qmin (base_erosion (Wealth_Rank r)
          * erosion_modifier (Business_Asset_Ratio r) (Real_Asset_Ratio r)
              (Financial_Asset_Ratio r) (Income r) (Adj_Net_Wealth r))
         max_erosion.
Proof. reflexivity. Qed.

(** X7.  [assign_erosion] gives every unit an erosion factor of at least
    2% (when the ceiling allows it) and at most the ceiling and 43.75%;
    its dropout flag is 0 or 1, and it is 0 for every unit with less
    than two million of adjusted net wealth, whatever is drawn above 0. *)
Theorem assign_erosion_range (max_erosion u : Q) (r : taxed_row) :
  let r' := assign_erosion max_erosion u r in
  (0.02 <= max_erosion -> 0.02 <= Erosion_Factor r') /\
  Erosion_Factor r' <= max_erosion /\
  Erosion_Factor r' <= 0.4375 /\
  (Dropout r' = 0%Z \/ Dropout r' = 1%Z) /\
  (Adj_Net_Wealth r < 2000000 -> 0 <= u -> Dropout r' = 0%Z).
Proof.
  intros r'. subst r'. rewrite assign_erosion_factor.
  destruct (base_erosion_range (Wealth_Rank r)) as [Hb0 Hb1].
  destruct (erosion_modifier_range (Business_Asset_Ratio r) (Real_Asset_Ratio r)
              (Financial_Asset_Ratio r) (Income r) (Adj_Net_Wealth r)) as [Hm0 Hm1].
  set (b := base_erosion _) in *. set (m := erosion_modifier _ _ _ _ _) in *.
  clearbody b m.
  assert (0.02 <= b * m) by nra.
  assert (b * m <= 0.4375) by nra.
  change (Dropout (assign_erosion max_erosion u r))
    with (binomial1 (dropout_prob (Adj_Net_Wealth r)) u).
  unfold binomial1.
  split; [| split; [| split; [| split]]].
  - intros Hmax. apply Q.min_glb; lra.
  - apply Q.le_min_r.
  - pose proof (Q.le_min_l (b * m) max_erosion). lra.
  - destruct (Qltb u _); auto.
  - intros Hnw Hu.
    pose proof (dropout_prob_below_threshold (Adj_Net_Wealth r) Hnw) as Hzero.
    destruct (Qltb u (dropout_prob (Adj_Net_Wealth r))) eqn:E; [| reflexivity].
    apply Qltb_true in E. lra.
Qed.

Lemma assign_erosion_at_least (max_erosion u : Q) (r : taxed_row) :
  0.02 <= max_erosion -> 0.02 <= Erosion_Factor (assign_erosion max_erosion u r).
Proof.
  intros Hmax. rewrite assign_erosion_factor.
  destruct (base_erosion_range (Wealth_Rank r)) as [Hb0 Hb1].
  destruct (erosion_modifier_range (Business_Asset_Ratio r) (Real_Asset_Ratio r)
              (Financial_Asset_Ratio r) (Income r) (Adj_Net_Wealth r)) as [Hm0 Hm1].
  set (b := base_erosion _) in *. set (m := erosion_modifier _ _ _ _ _) in *.
  clearbody b m. apply Q.min_glb; [nra | lra].
Qed.

Lemma assign_erosion_flag (max_erosion u : Q) (r : taxed_row) :
  Dropout (assign_erosion max_erosion u r) = 0%Z \/
  Dropout (assign_erosion max_erosion u r) = 1%Z.
Proof.
  change (Dropout (assign_erosion max_erosion u r))
    with (binomial1 (dropout_prob (Adj_Net_Wealth r)) u).
  unfold binomial1. destruct (Qltb u _); auto.
Qed.

Lemma assign_erosion_range_witness :
  0.02 <= 0.30 /\
  0.02 <= Erosion_Factor
            (assign_erosion 0.30 0.01 (run_tax_simulation_row late_dropout_unit 0.5)).
Proof.
  assert (0.02 <= 0.30) as Hmax by (vm_compute; discriminate).
  split; [exact Hmax |].
  exact (proj1 (assign_erosion_range 0.30 0.01
                  (run_tax_simulation_row late_dropout_unit 0.5)) Hmax).
Defined.

End Behaviour.

Section TaxRunInvariants.
Import Pipeline.

(** The bump and the clip of [run_tax_simulation] keep an erosion
    factor that is not negative within [0, 0.3]. *)
Lemma tax_before_cap_erosion (r : taxed_row) :
  0 <= Erosion_Factor r ->
  0 <= Erosion_Factor (tax_before_cap r) /\ Erosion_Factor (tax_before_cap r) <= 0.3.
Proof.
  intros He.
  change (Erosion_Factor (tax_before_cap r))
    with (Qmin (if Qgtb (Business_Asset_Ratio r) 0.2
                then Erosion_Factor r * 1.05 else Erosion_Factor r * 1.10) 0.3).
  split; [| apply Q.le_min_r].
  apply Q.min_glb; [| lra].
  destruct (Qgtb (Business_Asset_Ratio r) 0.2); lra.
Qed.

Lemma tax_before_cap_eroded (r : taxed_row) :
  0 <= Erosion_Factor r ->
  let r' := tax_before_cap r in
  0 <= Taxable_Wealth r' /\
  0.7 * Taxable_Wealth r' <= Taxable_Wealth_Eroded r' /\
  Taxable_Wealth_Eroded r' <= Taxable_Wealth r'.
Proof.
  intros He r'.
  destruct (tax_before_cap_erosion r He) as [He0 He1]. fold r' in He0, He1.
  assert (0 <= Taxable_Wealth r') as Ht by apply Q.le_max_r.
  change (Taxable_Wealth_Eroded r')
    with (Taxable_Wealth r' * (1 - Erosion_Factor r')).
  set (t := Taxable_Wealth r') in *. set (e := Erosion_Factor r') in *.
  clearbody t e. clear r'. repeat split; [lra | nra | nra].
Qed.

Lemma tax_before_cap_wealth_tax (r : taxed_row) :
  Wealth_Tax (tax_before_cap r)
  = if (Dropout r >? 0)%Z then 0
    else TaxEngine.calculate_ip_tax (Taxable_Wealth_Eroded (tax_before_cap r)) (Region r).
Proof. reflexivity. Qed.

Lemma run_row_wealth_tax (i : unit_row) (u : Q) :
  Wealth_Tax (run_tax_simulation_row i u)
  = TaxEngine.joint_cap (Wealth_Tax (tax_before_cap (tax_bases i u)))
      (PIT_Liability (tax_before_cap (tax_bases i u)))
      (Income (tax_before_cap (tax_bases i u))).
Proof. reflexivity. Qed.

Lemma tax_bases_erosion (i : unit_row) (u : Q) : 0 <= Erosion_Factor (tax_bases i u).
Proof.
  unfold tax_bases. cbv zeta.
  match goal with |- context [assign_erosion ?m ?v ?r] =>
    pose proof (assign_erosion_at_least m v r) as H; generalize dependent r
  end.
  intros r H. assert (0.02 <= 0.40) as Hm by (vm_compute; discriminate).
  specialize (H Hm). lra.
Qed.

Lemma tax_before_cap_eroded_eq (r : taxed_row) :
  Taxable_Wealth_Eroded (tax_before_cap r)
  = Taxable_Wealth (tax_before_cap r) * (1 - Erosion_Factor (tax_before_cap r)).
Proof. reflexivity. Qed.

Lemma tax_before_cap_taxable (r : taxed_row) :
  Taxable_Wealth (tax_before_cap r)
  = Qmax (Adj_Net_Wealth r - Personal_Exemption r - Primary_Residence_Exempt r
          - Business_Exemption r) 0.
Proof. reflexivity. Qed.

(** The row that [run_tax_simulation] hands to [assign_erosion], with
    the relations between its columns that the source establishes. *)
Lemma tax_bases_shape (i : unit_row) (u : Q) :
  exists r0,
    tax_bases i u = assign_erosion 0.40 u r0 /\
    Region r0 = in_Region i /\
    Personal_Exemption r0 = default 700000 (exemption_map !! in_Region i) /\
    Primary_Residence_Exempt r0 = Qmin (Adj_Real_Assets r0) 300000 /\
    Adj_Real_Assets r0 = in_Total_Assets_Pareto i * in_Real_Asset_Ratio i * 0.75 /\
    Business_Exemption r0 = 0.0 /\
    Gross_Tax_Base r0
      = Adj_Net_Wealth r0 - Primary_Residence_Exempt r0 - Business_Exemption r0 /\
    Net_Tax_Base r0 = Qmax (Gross_Tax_Base r0 - Personal_Exemption r0) 0 /\
    Is_Declarant r0 = Qgtb (Net_Tax_Base r0) 0 || Qgtb (Gross_Assets r0) 2000000 /\
    Is_Taxpayer r0 = Is_Declarant r0.
Proof.
  unfold tax_bases. cbv zeta. eexists. split; [reflexivity |].
  cbn [Region Personal_Exemption Primary_Residence_Exempt Adj_Real_Assets
       Business_Exemption Gross_Tax_Base Adj_Net_Wealth Net_Tax_Base
       Is_Declarant Is_Taxpayer Gross_Assets].
  repeat split.
Qed.

(** The wealth tax before the cap is not negative and at most the top
    marginal rate times the taxable wealth. *)
Lemma tax_before_cap_tax_range (r : taxed_row) :
  0 <= Erosion_Factor r ->
  0 <= Wealth_Tax (tax_before_cap r) /\
  Wealth_Tax (tax_before_cap r)
    <= TaxEngine.top_rate * Taxable_Wealth (tax_before_cap r).
Proof.
  intros He. destruct (tax_before_cap_eroded r He) as (Ht & Hlo & Hhi).
  rewrite tax_before_cap_wealth_tax.
  assert (0 <= Taxable_Wealth_Eroded (tax_before_cap r)) as Hte by lra.
  pose proof (calculate_ip_tax_nonneg
                (Taxable_Wealth_Eroded (tax_before_cap r)) (Region r)) as H0.
  pose proof (calculate_ip_tax_at_most_top_rate
                (Taxable_Wealth_Eroded (tax_before_cap r)) (Region r) Hte) as H1.
  unfold TaxEngine.top_rate in *.
  destruct (Dropout r >? 0)%Z; split; lra.
Qed.

(** X8.  In every row that [run_tax_simulation] returns the erosion
    factor lies in [0, 0.3], the eroded base lies between 70% and 100% of
    the taxable wealth, which is not negative, and the wealth tax after
    the cap lies between 0 and 3.75% of the taxable wealth. *)
Theorem run_tax_simulation_ranges (i : unit_row) (u : Q) :
  let r := run_tax_simulation_row i u in
  (0 <= Erosion_Factor r /\ Erosion_Factor r <= 0.3) /\
  0 <= Taxable_Wealth r /\
  (0.7 * Taxable_Wealth r <= Taxable_Wealth_Eroded r /\
   Taxable_Wealth_Eroded r <= Taxable_Wealth r) /\
  (0 <= Wealth_Tax r /\ Wealth_Tax r <= 0.0375 * Taxable_Wealth r).
Proof.
  intros r. pose proof (tax_bases_erosion i u) as He.
  destruct (tax_before_cap_erosion _ He) as [He0 He1].
  destruct (tax_before_cap_eroded _ He) as (Ht & Hlo & Hhi).
  destruct (tax_before_cap_tax_range _ He) as [Hw0 Hw1].
  unfold r. rewrite run_row_wealth_tax.
  pose proof (joint_cap_at_least_a_fifth _
                (PIT_Liability (tax_before_cap (tax_bases i u)))
                (Income (tax_before_cap (tax_bases i u))) Hw0) as Hc0.
  pose proof (joint_cap_never_raises _
                (PIT_Liability (tax_before_cap (tax_bases i u)))
                (Income (tax_before_cap (tax_bases i u))) Hw0) as Hc1.
  change (Erosion_Factor (run_tax_simulation_row i u))
    with (Erosion_Factor (tax_before_cap (tax_bases i u))).
  change (Taxable_Wealth (run_tax_simulation_row i u))
    with (Taxable_Wealth (tax_before_cap (tax_bases i u))).
  change (Taxable_Wealth_Eroded (run_tax_simulation_row i u))
    with (Taxable_Wealth_Eroded (tax_before_cap (tax_bases i u))).
  unfold TaxEngine.top_rate in Hw1.
  repeat split; lra.
Qed.

End TaxRunInvariants.

Section TaxpayersAndExits.
Import Pipeline.

Lemma calculate_ip_tax_positive_base (base : Q) (region : string) :
  0 < TaxEngine.calculate_ip_tax base region -> 0 < base.
Proof.
  intros Hpos. destruct (Qlt_le_dec 0 base) as [H | H]; [exact H |].
  destruct (all_tables_ascending region) as [Ha _].
  unfold TaxEngine.calculate_ip_tax, TaxEngine.ascending_gap_free in *.
  rewrite (bracket_loop_below 0 _ base Ha H) in Hpos. lra.
Qed.

Lemma joint_cap_positive (wealth_tax pit income : Q) :
  0 < TaxEngine.joint_cap wealth_tax pit income -> 0 < wealth_tax.
Proof.
  unfold TaxEngine.joint_cap.
  destruct (Qgtb (wealth_tax + pit) (0.60 * income)) eqn:E; [| done].
  apply Qgtb_true in E.
  destruct (Q.max_spec (0.2 * wealth_tax) (0.60 * income - pit)) as [[H ->] | [H ->]];
    lra.
Qed.

(** X9.  A unit that leaves [run_tax_simulation] with a positive wealth
    tax is flagged as a declarant and as a taxpayer, and was not flagged
    as a dropout. *)
Theorem positive_tax_is_taxpayer (i : unit_row) (u : Q) :
  let r := run_tax_simulation_row i u in
  0 < Wealth_Tax r ->
  Is_Declarant r = true /\ Is_Taxpayer r = true /\ Dropout r = 0%Z.
Proof.
  intros r Hpos. unfold r in *. clear r.
  rewrite run_row_wealth_tax in Hpos.
  apply joint_cap_positive in Hpos.
  pose proof (tax_bases_erosion i u) as He.
  destruct (tax_before_cap_erosion _ He) as [He0 He1].
  rewrite tax_before_cap_wealth_tax in Hpos.
  unfold run_tax_simulation_row.
  destruct (tax_bases_shape i u)
    as (r0 & Hshape & _ & _ & _ & _ & _ & HG & HN & HD & HP).
  rewrite Hshape in *. clear Hshape.
  change (Dropout (cap_step (tax_before_cap (assign_erosion 0.40 u r0))))
    with (Dropout (assign_erosion 0.40 u r0)).
  change (Is_Declarant (cap_step (tax_before_cap (assign_erosion 0.40 u r0))))
    with (Is_Declarant r0).
  change (Is_Taxpayer (cap_step (tax_before_cap (assign_erosion 0.40 u r0))))
    with (Is_Taxpayer r0).
  destruct (assign_erosion_flag 0.40 u r0) as [Hflag | Hflag]; rewrite Hflag in *;
    [| change (1 >? 0)%Z with true in Hpos; cbv iota in Hpos; lra].
  change (0 >? 0)%Z with false in Hpos. cbv iota in Hpos.
  apply calculate_ip_tax_positive_base in Hpos.
  rewrite tax_before_cap_eroded_eq in Hpos.
  assert (0 < Taxable_Wealth (tax_before_cap (assign_erosion 0.40 u r0))) as Ht.
  { set (t := Taxable_Wealth _) in *. set (e := Erosion_Factor _) in *.
    clearbody t e. nra. }
  rewrite tax_before_cap_taxable in Ht.
  change (Adj_Net_Wealth (assign_erosion 0.40 u r0)) with (Adj_Net_Wealth r0) in Ht.
  change (Personal_Exemption (assign_erosion 0.40 u r0))
    with (Personal_Exemption r0) in Ht.
  change (Primary_Residence_Exempt (assign_erosion 0.40 u r0))
    with (Primary_Residence_Exempt r0) in Ht.
  change (Business_Exemption (assign_erosion 0.40 u r0))
    with (Business_Exemption r0) in Ht.
  rewrite HP, HD, HN, HG.
  assert (Qgtb (Qmax (Adj_Net_Wealth r0 - Primary_Residence_Exempt r0
                      - Business_Exemption r0 - Personal_Exemption r0) 0) 0 = true) as ->.
  { apply Qgtb_true.
    destruct (Q.max_spec (Adj_Net_Wealth r0 - Personal_Exemption r0
                          - Primary_Residence_Exempt r0 - Business_Exemption r0) 0)
      as [[H E] | [H E]]; rewrite E in Ht; [lra |].
    eapply Qlt_le_trans; [| apply Q.le_max_l]. lra. }
  repeat split.
Qed.

Lemma positive_tax_is_taxpayer_witness :
  0 < Wealth_Tax (run_tax_simulation_row late_dropout_unit 0.5) /\
  Is_Taxpayer (run_tax_simulation_row late_dropout_unit 0.5) = true.
Proof.
  assert (0 < Wealth_Tax (run_tax_simulation_row late_dropout_unit 0.5)) as Hpos
    by (vm_compute; reflexivity).
  split; [exact Hpos |].
  exact (proj1 (proj2 (positive_tax_is_taxpayer late_dropout_unit 0.5 Hpos))).
Defined.

(** X10.  A unit whose wealth rank exceeds none of the three thresholds
    has migration probability 0: whatever is drawn, it does not exit and
    its row is left as it was. *)
Theorem low_rank_never_migrates (thresholds base_probs : tiers) (u : Q) (r : taxed_row) :
  Wealth_Rank r <= thresholds.1.1 ->
  Wealth_Rank r <= thresholds.1.2 ->
  Wealth_Rank r <= thresholds.2 ->
  0 <= u ->
  apply_migration_module thresholds base_probs u r = (r, Qmin 0.0 1.0, false).
Proof.
  destruct thresholds as [[t01 t1] t5], base_probs as [[p01 p1] p5]. simpl.
  intros H01 H1 H5 Hu. unfold apply_migration_module, compute_prob.
  apply Qgtb_false in H01, H1, H5. rewrite H01, H1, H5.
  assert (Qltb u (Qmin 0.0 1.0) = false) as ->; [| reflexivity].
  apply Qltb_false. vm_compute (Qmin 0.0 1.0). lra.
Qed.

Lemma low_rank_never_migrates_witness :
  apply_migration_module (0.999, 0.99, 0.95) (0.015, 0.007, 0.002) 0.5
    (run_tax_simulation_row late_dropout_unit 0.5)
  = (run_tax_simulation_row late_dropout_unit 0.5, Qmin 0.0 1.0, false).
Proof.
  apply low_rank_never_migrates; vm_compute; discriminate.
Defined.

End TaxpayersAndExits.

Section FinalTable.
Import Pipeline.

(** The row of the final table in terms of the row before the
    migration step. *)
Lemma main_row_shape (i : unit_row) (d : draws) :
  exists r0 : taxed_row,
    r0 = assign_erosion 0.30 (u_dropout_main d)
           (madrid_override (run_tax_simulation_row i (u_dropout_run d))) /\
    let m := apply_migration_module (0.999, 0.99, 0.95) (0.015, 0.007, 0.002)
               (u_migration d) r0 in
    let r := m.1.1 in
    taxed (main_row i d)
      = set_wealth r (Net_Tax_Base r) (Taxable_Wealth_Eroded r) (Wealth_Tax r) /\
    Wealth_Tax_Baseline (main_row i d)
      = TaxEngine.calculate_ip_tax (Net_Tax_Base r) (Region r) /\
    Wealth_Tax_Baseline_Eroded (main_row i d)
      = TaxEngine.calculate_ip_tax (Net_Tax_Base r * (1 - Erosion_Factor r)) (Region r).
Proof.
  eexists. split; [reflexivity |].
  unfold main_row. cbv zeta.
  set (r0 := assign_erosion 0.30 _ _). clearbody r0.
  destruct (apply_migration_module _ _ _ r0) as [[r p] e].
  cbn [fst snd taxed Wealth_Tax_Baseline Wealth_Tax_Baseline_Eroded
       Taxable_Wealth_Baseline Region Erosion_Factor set_wealth].
  repeat split.
Qed.

End FinalTable.

Section RegionSummary.
Import Pipeline Summary.

Lemma calculate_ip_tax_mono (b1 b2 : Q) (region : string) :
  b1 <= b2 ->
  TaxEngine.calculate_ip_tax b1 region <= TaxEngine.calculate_ip_tax b2 region.
Proof.
  intros Hb. destruct (all_tables_ascending region) as [Ha Hr].
  unfold TaxEngine.calculate_ip_tax, TaxEngine.ascending_gap_free in *.
  by apply (bracket_loop_mono TaxEngine.top_rate _ 0).
Qed.

Lemma personal_exemption_nonneg (region : string) :
  0 <= default 700000 (exemption_map !! region).
Proof.
  rewrite exemption_map_get. unfold get_personal_exemption.
  destruct (bool_decide _); vm_compute; discriminate.
Qed.

(** The columns that the steps of [main] after [run_tax_simulation]
    leave alone, and what they can do to the wealth tax. *)
Lemma madrid_override_fields (r : taxed_row) :
  Net_Tax_Base (madrid_override r) = Net_Tax_Base r /\
  Adj_Net_Wealth (madrid_override r) = Adj_Net_Wealth r /\
  Region (madrid_override r) = Region r /\
  (Wealth_Tax (madrid_override r) = Wealth_Tax r \/
   Wealth_Tax (madrid_override r) = 0.0).
Proof.
  unfold madrid_override. destruct (String.eqb _ _); cbn; auto.
Qed.

Lemma assign_erosion_fields (m u : Q) (r : taxed_row) :
  Net_Tax_Base (assign_erosion m u r) = Net_Tax_Base r /\
  Adj_Net_Wealth (assign_erosion m u r) = Adj_Net_Wealth r /\
  Region (assign_erosion m u r) = Region r /\
  Wealth_Tax (assign_erosion m u r) = Wealth_Tax r.
Proof. repeat split. Qed.

Lemma migration_fields (thresholds base_probs : tiers) (u : Q) (r : taxed_row) :
  let r' := (apply_migration_module thresholds base_probs u r).1.1 in
  Net_Tax_Base r' = Net_Tax_Base r /\
  Adj_Net_Wealth r' = Adj_Net_Wealth r /\
  Region r' = Region r /\
  Erosion_Factor r' = Erosion_Factor r /\
  (Wealth_Tax r' = Wealth_Tax r \/ Wealth_Tax r' = 0.0).
Proof.
  unfold apply_migration_module. cbv zeta.
  destruct (Qltb u _); cbn; auto 6.
Qed.

Lemma run_row_fields (i : unit_row) (u : Q) :
  exists r0,
    Net_Tax_Base (run_tax_simulation_row i u) = Net_Tax_Base r0 /\
    Adj_Net_Wealth (run_tax_simulation_row i u) = Adj_Net_Wealth r0 /\
    Region (run_tax_simulation_row i u) = Region r0 /\
    0 <= Net_Tax_Base r0 /\
    (0 <= in_Total_Assets_Pareto i * in_Real_Asset_Ratio i ->
       Wealth_Tax (run_tax_simulation_row i u)
         <= TaxEngine.calculate_ip_tax (Adj_Net_Wealth r0) (Region r0)).
Proof.
  pose proof (tax_bases_erosion i u) as He.
  pose proof (run_row_wealth_tax i u) as Hw.
  unfold run_tax_simulation_row in *.
  destruct (tax_bases_shape i u)
    as (r0 & Hshape & HR & HPE & HPR & HAR & HBE & HG & HN & HD & HP).
  rewrite Hshape in *. clear Hshape.
  exists r0. split; [reflexivity |]. split; [reflexivity |]. split; [reflexivity |].
  split; [rewrite HN; apply Q.le_max_r |].
  intros Hreal. rewrite Hw.
  destruct (tax_before_cap_tax_range _ He) as [Hw0 _].
  destruct (tax_before_cap_eroded _ He) as (Ht & _ & Hhi).
  eapply Qle_trans; [apply (joint_cap_never_raises _ _ _ Hw0) |].
  rewrite tax_before_cap_wealth_tax.
  change (Region (assign_erosion 0.40 u r0)) with (Region r0).
  destruct (Dropout (assign_erosion 0.40 u r0) >? 0)%Z;
    [apply calculate_ip_tax_nonneg |].
  eapply Qle_trans; [apply (calculate_ip_tax_mono _ _ _ Hhi) |].
  rewrite tax_before_cap_taxable.
  change (Adj_Net_Wealth (assign_erosion 0.40 u r0)) with (Adj_Net_Wealth r0).
  change (Personal_Exemption (assign_erosion 0.40 u r0)) with (Personal_Exemption r0).
  change (Primary_Residence_Exempt (assign_erosion 0.40 u r0))
    with (Primary_Residence_Exempt r0).
  change (Business_Exemption (assign_erosion 0.40 u r0)) with (Business_Exemption r0).
  pose proof (personal_exemption_nonneg (in_Region i)) as Hpe. rewrite <- HPE in Hpe.
  assert (0 <= Primary_Residence_Exempt r0) as Hpr.
  { rewrite HPR. apply Q.min_glb; [rewrite HAR; lra | vm_compute; discriminate]. }
  assert (Business_Exemption r0 == 0) as Hbe by (rewrite HBE; reflexivity).
  destruct (Qlt_le_dec (Adj_Net_Wealth r0) 0) as [Hneg | Hpos].
  - assert (TaxEngine.calculate_ip_tax
              (Qmax (Adj_Net_Wealth r0 - Personal_Exemption r0
                     - Primary_Residence_Exempt r0 - Business_Exemption r0) 0)
              (Region r0) <= TaxEngine.calculate_ip_tax 0 (Region r0)) as H0.
    { apply calculate_ip_tax_mono. apply Q.max_lub; lra. }
    eapply Qle_trans; [exact H0 |].
    destruct (all_tables_ascending (Region r0)) as [Ha _].
    unfold TaxEngine.calculate_ip_tax at 1. unfold TaxEngine.ascending_gap_free in Ha.
    rewrite (bracket_loop_below 0 _ 0 Ha) by lra.
    apply calculate_ip_tax_nonneg.
  - apply calculate_ip_tax_mono. apply Q.max_lub; lra.
Qed.

(** The wealth tax of a row of the final table is at most the tax on
    its whole adjusted net wealth. *)
Lemma final_tax_below_full_base (i : unit_row) (d : draws) :
  0 <= in_Total_Assets_Pareto i * in_Real_Asset_Ratio i ->
  Wealth_Tax (taxed (main_row i d))
    <= TaxEngine.calculate_ip_tax (Adj_Net_Wealth (taxed (main_row i d)))
         (Region (taxed (main_row i d))).
Proof.
  intros Hreal.
  destruct (main_row_shape i d) as (r0 & Hr0 & Htaxed & _ & _).
  cbv zeta in Htaxed. rewrite Htaxed.
  destruct (migration_fields (0.999, 0.99, 0.95) (0.015, 0.007, 0.002)
              (u_migration d) r0) as (_ & HA & HR & _ & HW).
  cbv zeta in HA, HR, HW.
  set (r := (apply_migration_module _ _ _ r0).1.1) in *. clearbody r.
  change (Wealth_Tax (set_wealth r _ _ (Wealth_Tax r))) with (Wealth_Tax r).
  change (Adj_Net_Wealth (set_wealth r (Net_Tax_Base r) (Taxable_Wealth_Eroded r)
                            (Wealth_Tax r))) with (Adj_Net_Wealth r).
  change (Region (set_wealth r (Net_Tax_Base r) (Taxable_Wealth_Eroded r)
                    (Wealth_Tax r))) with (Region r).
  rewrite HA, HR.
  destruct (run_row_fields i (u_dropout_run d)) as (q & _ & HqA & HqR & _ & Hq).
  specialize (Hq Hreal).
  destruct (assign_erosion_fields 0.30 (u_dropout_main d)
              (madrid_override (run_tax_simulation_row i (u_dropout_run d))))
    as (_ & HeA & HeR & HeW).
  destruct (madrid_override_fields (run_tax_simulation_row i (u_dropout_run d)))
    as (_ & HmA & HmR & HmW).
  rewrite <- Hr0 in HeA, HeR, HeW.
  rewrite HeA, HeR, HmA, HmR, HqA, HqR.
  pose proof (calculate_ip_tax_nonneg (Adj_Net_Wealth q) (Region q)) as Hnn.
  destruct HW as [-> | ->]; [| lra].
  rewrite HeW. destruct HmW as [-> | ->]; [exact Hq | lra].
Qed.

Lemma weighted_sum_le (f g : final_row -> Q) (rows : list final_row) :
  Forall (fun r => f r <= g r /\ 0 <= Final_Weight r) rows ->
  weighted_sum f rows <= weighted_sum g rows.
Proof.
  unfold weighted_sum. induction 1 as [| r rows [Hfg Hw] Hrest IH]; simpl; [lra |].
  change (foldr Qplus 0 ?l) with (Qsum l) in *.
  assert (f r * Final_Weight r <= g r * Final_Weight r)
    by (apply Qmult_le_compat_r; lra).
  lra.
Qed.

(** X11.  In the summary of any part of the table that [main] builds,
    from units whose real assets are not negative, the revenue without
    exemptions is at least the revenue with them: the exemption gap is
    never negative. *)
Theorem exemption_gap_nonneg (df : list unit_row) (ds : list draws) (region_name : string) :
  Forall (fun i => 0 <= in_Total_Assets_Pareto i * in_Real_Asset_Ratio i) df ->
  0 <= Exemption_Gap (generate_region_summary (main_table df ds) region_name).
Proof.
  intros Hreal.
  cbn [Exemption_Gap generate_region_summary].
  assert (weighted_sum (fun r => Wealth_Tax (taxed r)) (main_table df ds)
          <= weighted_sum
               (fun r => TaxEngine.calculate_ip_tax (Adj_Net_Wealth (taxed r))
                           (Region (taxed r)))
               (main_table df ds)); [| lra].
  apply weighted_sum_le. unfold main_table. revert ds.
  induction Hreal as [| i df Hi Hrest IH]; intros [| d ds]; simpl; constructor.
  - split; [by apply final_tax_below_full_base |].
    change (Final_Weight (main_row i d)) with 1.0. vm_compute. discriminate.
  - apply IH.
Qed.

Lemma exemption_gap_nonneg_witness :
  0 <= Exemption_Gap
         (generate_region_summary (main_table [late_dropout_unit] [late_dropout_draws])
            "catalonia").
Proof.
  apply exemption_gap_nonneg.
  constructor; [vm_compute; discriminate | constructor].
Defined.

(** X12.  In every row of the table that [main] writes, the baseline tax
    on the eroded base is not negative and at most the baseline tax on
    the full net base: erosion never raises the baseline liability. *)
Theorem baseline_erosion_lowers_tax (i : unit_row) (d : draws) :
  0 <= Wealth_Tax_Baseline_Eroded (main_row i d) /\
  Wealth_Tax_Baseline_Eroded (main_row i d) <= Wealth_Tax_Baseline (main_row i d).
Proof.
  destruct (main_row_shape i d) as (r0 & Hr0 & _ & Hb & Hbe).
  cbv zeta in Hb, Hbe. rewrite Hb, Hbe.
  destruct (migration_fields (0.999, 0.99, 0.95) (0.015, 0.007, 0.002)
              (u_migration d) r0) as (HN & _ & _ & HE & _).
  cbv zeta in HN, HE.
  set (r := (apply_migration_module _ _ _ r0).1.1) in *. clearbody r.
  split; [apply calculate_ip_tax_nonneg |].
  apply calculate_ip_tax_mono. rewrite HN, HE.
  assert (0.02 <= Erosion_Factor r0) as He.
  { rewrite Hr0. apply assign_erosion_at_least. vm_compute. discriminate. }
  assert (0 <= Net_Tax_Base r0) as Hn.
  { destruct (run_row_fields i (u_dropout_run d)) as (q & HqN & _ & _ & Hq & _).
    destruct (assign_erosion_fields 0.30 (u_dropout_main d)
                (madrid_override (run_tax_simulation_row i (u_dropout_run d))))
      as (HeN & _).
    destruct (madrid_override_fields (run_tax_simulation_row i (u_dropout_run d)))
      as (HmN & _).
    rewrite Hr0, HeN, HmN, HqN. exact Hq. }
  set (n := Net_Tax_Base r0) in *. set (e := Erosion_Factor r0) in *.
  clearbody n e. nra.
Qed.

End RegionSummary.

Section Rounding.
Import Synthesizer.

Lemma round_half_even_cases (q : Q) :
  round_half_even q = Qfloor q \/ round_half_even q = (Qfloor q + 1)%Z.
Proof.
  unfold round_half_even.
  destruct (Qltb _ _); [auto |]. destruct (Qgtb _ _); [auto |].
  destruct (Z.even _); auto.
Qed.

Lemma round_half_even_lower (q : Q) : q - 0.5 <= inject_Z (round_half_even q).
Proof.
  pose proof (Qfloor_le q) as Hlo. pose proof (Qlt_floor q) as Hhi.
  rewrite inject_Z_plus in Hhi. change (inject_Z 1) with 1 in Hhi.
  unfold round_half_even.
  destruct (Qltb (q - inject_Z (Qfloor q)) 0.5) eqn:E1.
  { apply Qltb_true in E1. lra. }
  apply Qltb_false in E1.
  destruct (Qgtb (q - inject_Z (Qfloor q)) 0.5) eqn:E2.
  { rewrite inject_Z_plus. change (inject_Z 1) with 1. lra. }
  apply Qgtb_false in E2.
  destruct (Z.even (Qfloor q)); [lra |].
  rewrite inject_Z_plus. change (inject_Z 1) with 1. lra.
Qed.

Lemma round_half_even_upper (q : Q) : inject_Z (round_half_even q) <= q + 0.5.
Proof.
  pose proof (Qfloor_le q) as Hlo. pose proof (Qlt_floor q) as Hhi.
  rewrite inject_Z_plus in Hhi. change (inject_Z 1) with 1 in Hhi.
  unfold round_half_even.
  destruct (Qltb (q - inject_Z (Qfloor q)) 0.5) eqn:E1; [lra |].
  apply Qltb_false in E1.
  destruct (Qgtb (q - inject_Z (Qfloor q)) 0.5) eqn:E2.
  { rewrite inject_Z_plus. change (inject_Z 1) with 1. lra. }
  apply Qgtb_false in E2.
  destruct (Z.even (Qfloor q)); [lra |].
  rewrite inject_Z_plus. change (inject_Z 1) with 1. lra.
Qed.

(** X13.  Rounding moves a number by at most one half, and leaves an
    integer where it is. *)
Theorem round_half_even_nearest (q : Q) (z : Z) :
  (q - 0.5 <= inject_Z (round_half_even q) /\
   inject_Z (round_half_even q) <= q + 0.5) /\
  round_half_even (inject_Z z) = z.
Proof.
  split; [split; [apply round_half_even_lower | apply round_half_even_upper] |].
  unfold round_half_even. rewrite Qfloor_Z.
  assert (Qltb (inject_Z z - inject_Z z) 0.5 = true) as ->; [| reflexivity].
  apply Qltb_true. lra.
Qed.

Lemma round_half_even_nonneg (q : Q) : 0 <= q -> (0 <= round_half_even q)%Z.
Proof.
  intros Hq.
  assert (0 <= Qfloor q)%Z as Hf.
  { change 0%Z with (Qfloor 0). by apply Qfloor_resp_le. }
  destruct (round_half_even_cases q) as [-> | ->]; lia.
Qed.

(** The scan returns the position of the first largest entry. *)
Lemma argmax_from_spec (l : list Z) (best : Z) (best_i i : nat) :
  (best_i < i)%nat ->
  let p := argmax_from l best best_i i in
  (p = best_i /\ Forall (fun x => (x <= best)%Z) l) \/
  ((i <= p)%nat /\
   exists m, l !! (p - i)%nat = Some m /\ (best < m)%Z /\
             Forall (fun x => (x <= m)%Z) l /\
             forall j x, (j < p - i)%nat -> l !! j = Some x -> (x < m)%Z).
Proof.
  revert best best_i i. induction l as [| x l IH]; intros best best_i i Hlt; simpl.
  - left. split; [reflexivity | constructor].
  - destruct (Z.ltb_spec best x) as [Hx | Hx].
    + right. destruct (IH x i (S i)) as [[Hp Hall] | (Hp & m & Hm & Hbm & Hall & Hfirst)];
        [lia | |].
      * rewrite Hp. split; [lia |]. exists x.
        replace (i - i)%nat with 0%nat by lia.
        repeat split; [done | constructor; [lia | done] |].
        intros j y Hj. lia.
      * split; [lia |]. exists m.
        replace (argmax_from l x i (S i) - i)%nat
          with (S (argmax_from l x i (S i) - S i)) by lia.
        repeat split; [exact Hm | lia | constructor; [lia | done] |].
        intros [| j] y Hj Hy; simpl in Hy.
        -- injection Hy as <-. lia.
        -- apply (Hfirst j y); [lia | done].
    + destruct (IH best best_i (S i)) as [[Hp Hall] | (Hp & m & Hm & Hbm & Hall & Hfirst)];
        [lia | |].
      * left. split; [done | constructor; done].
      * right. split; [lia |]. exists m.
        replace (argmax_from l best best_i (S i) - i)%nat
          with (S (argmax_from l best best_i (S i) - S i)) by lia.
        repeat split; [exact Hm | lia | constructor; [lia | done] |].
        intros [| j] y Hj Hy; simpl in Hy.
        -- injection Hy as <-. lia.
        -- apply (Hfirst j y); [lia | done].
Qed.

Lemma idxmax_holds_largest (l : list Z) (idx : nat) :
  idxmax l = Some idx ->
  exists m, l !! idx = Some m /\ Forall (fun x => (x <= m)%Z) l.
Proof.
  destruct l as [| x l]; [discriminate |]. simpl. intros [= <-].
  destruct (argmax_from_spec l x 0 1) as [[-> Hall] | (Hp & m & Hm & Hbm & Hall & _)];
    [lia | |].
  - exists x. split; [done | constructor; [lia | done]].
  - exists m.
    replace (argmax_from l x 0 1) with (S (argmax_from l x 0 1 - 1)) by lia.
    split; [exact Hm | constructor; [lia | done]].
Qed.

(** X14.  [idxmax] fails exactly on the empty column; otherwise it
    returns a position that holds the largest entry, and every entry
    before that position is strictly smaller. *)
Theorem idxmax_first_largest (l : list Z) :
  (idxmax l = None <-> l = []) /\
  forall idx, idxmax l = Some idx ->
    exists m, l !! idx = Some m /\
              Forall (fun x => (x <= m)%Z) l /\
              forall j x, (j < idx)%nat -> l !! j = Some x -> (x < m)%Z.
Proof.
  split; [destruct l; simpl; split; congruence |].
  intros idx. destruct l as [| x l]; [discriminate |]. simpl. intros [= <-].
  destruct (argmax_from_spec l x 0 1) as [[-> Hall] | (Hp & m & Hm & Hbm & Hall & Hfirst)];
    [lia | |].
  - exists x. repeat split; [constructor; [lia | done] |]. intros j y Hj. lia.
  - exists m.
    replace (argmax_from l x 0 1) with (S (argmax_from l x 0 1 - 1)) by lia.
    repeat split; [exact Hm | constructor; [lia | done] |].
    intros [| j] y Hj Hy; simpl in Hy.
    + injection Hy as <-. lia.
    + apply (Hfirst j y); [lia | done].
Qed.

Lemma idxmax_first_largest_witness :
  exists m, [3; 7; 2; 7]%Z !! 1%nat = Some m /\ Forall (fun x => (x <= m)%Z) [3; 7; 2; 7]%Z.
Proof.
  destruct (proj2 (idxmax_first_largest [3; 7; 2; 7]%Z) 1%nat eq_refl)
    as (m & Hm & Hall & _).
  exists m. split; assumption.
Defined.

End Rounding.

Section LargeTotals.
Import Synthesizer.

Lemma rounded_sum_bounds (xs : list Q) :
  Qsum xs - 0.5 * inject_Z (Z.of_nat (length xs))
    <= inject_Z (Zsum (map round_half_even xs)) /\
  inject_Z (Zsum (map round_half_even xs))
    <= Qsum xs + 0.5 * inject_Z (Z.of_nat (length xs)).
Proof.
  induction xs as [| x xs [IHlo IHhi]].
  - simpl. split; vm_compute; discriminate.
  - pose proof (round_half_even_lower x). pose proof (round_half_even_upper x).
    change (Zsum (map round_half_even (x :: xs)))
      with (round_half_even x + Zsum (map round_half_even xs))%Z.
    change (Qsum (x :: xs)) with (x + Qsum xs).
    change (length (x :: xs)) with (S (length xs)).
    rewrite Nat2Z.inj_succ, <- Z.add_1_r. rewrite !inject_Z_plus.
    change (inject_Z 1) with 1. split; lra.
Qed.

(** When the shares sum to 1, the rounded counts miss the total by at
    most half the number of regions. *)
Lemma residual_bound (df : list (string * Q)) (total : Z) :
  Qsum (map snd df) == 1 ->
  let num := map (fun row : string * Q => round_half_even (row.2 * inject_Z total)) df in
  (2 * Z.abs (total - Zsum num) <= Z.of_nat (length df))%Z.
Proof.
  intros Hsum num.
  destruct (rounded_sum_bounds (map (fun row : string * Q => row.2 * inject_Z total) df))
    as [Hlo Hhi].
  rewrite map_map in Hlo, Hhi. fold num in Hlo, Hhi.
  rewrite length_map in Hlo, Hhi.
  rewrite (Qsum_scale (fun row : string * Q => row.2) (inject_Z total) df) in Hlo, Hhi.
  change (map (fun row : string * Q => row.2) df) with (map snd df) in Hlo, Hhi.
  rewrite Hsum in Hlo, Hhi.
  assert (inject_Z (2 * (total - Zsum num)) <= inject_Z (Z.of_nat (length df))) as H1.
  { unfold Z.sub. rewrite inject_Z_mult, inject_Z_plus, inject_Z_opp.
    change (inject_Z 2) with 2. lra. }
  assert (inject_Z (2 * (Zsum num - total)) <= inject_Z (Z.of_nat (length df))) as H2.
  { unfold Z.sub. rewrite inject_Z_mult, inject_Z_plus, inject_Z_opp.
    change (inject_Z 2) with 2. lra. }
  rewrite <- Zle_Qle in H1, H2. lia.
Qed.

Lemma Zsum_at_most (l : list Z) (m : Z) :
  Forall (fun x => (x <= m)%Z) l -> (Zsum l <= Z.of_nat (length l) * m)%Z.
Proof.
  unfold Zsum. induction 1 as [| x l Hx Hrest IH]; simpl; [lia |].
  cbv beta in Hx. lia.
Qed.

Lemma household_counts_nonneg (df : list (string * Q)) (total : Z) (counts : list Z) :
  Qsum (map snd df) == 1 ->
  Forall (fun row : string * Q => 0 <= row.2) df ->
  (Z.of_nat (length df) * (Z.of_nat (length df) + 1) <= 2 * total)%Z ->
  household_counts df total = Returned counts ->
  Forall (fun c => (0 <= c)%Z) counts.
Proof.
  intros Hsum Hshares Hlarge. unfold household_counts.
  pose proof (residual_bound df total Hsum) as Hres. cbv zeta in Hres.
  cbv zeta.
  set (num := map (fun row : string * Q => round_half_even (row.2 * inject_Z total)) df)
    in *.
  assert (0 <= total)%Z as Htotal by nia.
  assert (Forall (fun c => (0 <= c)%Z) num) as Hnum.
  { unfold num. apply Forall_fmap. eapply Forall_impl; [exact Hshares |].
    intros row Hrow. simpl. apply round_half_even_nonneg.
    apply Qmult_le_0_compat; [done |].
    change 0 with (inject_Z 0). by rewrite <- Zle_Qle. }
  assert (length num = length df) as Hlen by apply length_map.
  destruct (Z.eqb_spec (total - Zsum num) 0) as [Hz | Hnz]; [by intros [= <-] |].
  destruct (idxmax num) as [idx |] eqn:Hidx; [| discriminate].
  intros [= <-].
  destruct (idxmax_holds_largest num idx Hidx) as (m & Hm & Hall).
  apply Forall_alter; [exact Hnum |].
  intros x Hx Hx0. rewrite Hm in Hx. injection Hx as <-.
  pose proof (Zsum_at_most num m Hall) as Hbound. rewrite Hlen in Hbound.
  nia.
Qed.

(** X15.  With shares that are not negative and sum to 1, and a total of
    at least k(k+1)/2 households for k regions, the synthesizer returns,
    and the frame it returns has exactly the total number of rows. *)
Theorem synthesizer_returns_total_rows
    (df : list (string * Q)) (population : Z) (avg : Q) (variate : nat -> Q)
    (total : Z) :
  Qsum (map snd df) == 1 ->
  Forall (fun row : string * Q => 0 <= row.2) df ->
  total_households_of population avg = Returned total ->
  (Z.of_nat (length df) * (Z.of_nat (length df) + 1) <= 2 * total)%Z ->
  exists rows,
    generate_scaled_households df population avg variate = Returned rows /\
    Z.of_nat (length rows) = total.
Proof.
  intros Hsum Hshares Htotal Hlarge.
  assert (~ avg == 0) as Havg.
  { intros E. unfold total_households_of in Htotal.
    apply Qeq_bool_iff in E. rewrite E in Htotal. discriminate. }
  assert (df <> []) as Hne.
  { intros ->. simpl in Hsum. vm_compute in Hsum. discriminate. }
  destruct (generate_scaled_households_returns df population avg variate Havg Hne)
    as [rows Hrows].
  - intros total' counts Ht Hc. rewrite Htotal in Ht. injection Ht as <-.
    by apply (household_counts_nonneg df total).
  - exists rows. split; [exact Hrows |].
    destruct (generate_scaled_households_rows _ _ _ _ _ Hrows)
      as (total' & counts & Ht & _ & _ & Hlen).
    rewrite Htotal in Ht. injection Ht as <-. exact Hlen.
Qed.

Lemma synthesizer_returns_total_rows_witness :
  exists rows,
    generate_scaled_households two_regions 1000 1.6 (fun _ => 0.5) = Returned rows /\
    Z.of_nat (length rows) = 625%Z.
Proof.
  apply (synthesizer_returns_total_rows two_regions 1000 1.6 (fun _ => 0.5) 625).
  - vm_compute. reflexivity.
  - repeat constructor; vm_compute; discriminate.
  - vm_compute. reflexivity.
  - vm_compute. discriminate.
Defined.

End LargeTotals.

Section QuotaTargets.
Import Diagnostics.

(** The taxpayer weight of a region, read off a weight column that is
    kept beside the frame. *)
Lemma total_weight_of_column (df : list unit_row) (ws : list Q) (region : string) :
  total_weight
    (zip_with (fun u w => {| Region := Region u; Is_Taxpayer := Is_Taxpayer u;
                             Final_Weight := w |}) df ws) region
  == Qsum (zip_with (fun u w => if in_mask region u then w else 0) df ws).
Proof.
  unfold total_weight. revert ws.
  induction df as [| u df IH]; intros [| w ws]; try reflexivity.
  cbn [zip_with List.filter].
  change (in_mask region {| Region := Region u; Is_Taxpayer := Is_Taxpayer u;
                            Final_Weight := w |})
    with (in_mask region u).
  destruct (in_mask region u); cbn [map Qsum foldr Final_Weight];
    fold (Qsum (zip_with (fun u w => if in_mask region u then w else 0) df ws));
    rewrite <- (IH ws); unfold Qsum; lra.
Qed.

Lemma total_weight_own_column (df : list unit_row) (region : string) :
  total_weight df region
  == Qsum (zip_with (fun u w => if in_mask region u then w else 0) df
             (map Final_Weight df)).
Proof.
  unfold total_weight.
  induction df as [| u df IH]; [reflexivity |].
  cbn [zip_with List.filter map].
  destruct (in_mask region u); cbn [map Qsum foldr];
    fold (Qsum (zip_with (fun u w => if in_mask region u then w else 0) df
                  (map Final_Weight df)));
    rewrite <- IH; unfold Qsum; lra.
Qed.

Lemma masked_sum_scaled (df : list unit_row) (ws : list Q) (region : string) (c : Q) :
  Qsum (zip_with (fun u w => if in_mask region u then w else 0) df
          (zip_with (fun u w => if in_mask region u then w * c else w) df ws))
  == c * Qsum (zip_with (fun u w => if in_mask region u then w else 0) df ws).
Proof.
  revert ws. induction df as [| u df IH]; intros [| w ws];
    try (cbn; lra).
  cbn [zip_with]. rewrite !Qsum_cons, IH.
  destruct (in_mask region u); lra.
Qed.

Lemma in_mask_one_region (region region' : string) (u : unit_row) :
  region <> region' -> in_mask region u = true -> in_mask region' u = false.
Proof.
  unfold in_mask. intros Hne Hm.
  apply andb_true_iff in Hm as [Hr _]. apply String.eqb_eq in Hr.
  destruct (String.eqb_spec (Region u) region'); [congruence | reflexivity].
Qed.

Lemma masked_sum_other_region (df : list unit_row) (ws : list Q)
      (region region' : string) (c : Q) :
  region <> region' ->
  Qsum (zip_with (fun u w => if in_mask region u then w else 0) df
          (zip_with (fun u w => if in_mask region' u then w * c else w) df ws))
  == Qsum (zip_with (fun u w => if in_mask region u then w else 0) df ws).
Proof.
  intros Hne. revert ws. induction df as [| u df IH]; intros [| w ws];
    try reflexivity.
  cbn [zip_with]. rewrite !Qsum_cons, IH.
  destruct (in_mask region u) eqn:Hm; [| lra].
  rewrite (in_mask_one_region region region' u Hne Hm). lra.
Qed.

(** A turn of the loop for another region leaves the taxpayer weight of
    this region as it is. *)
Lemma rescale_other_region (df : list unit_row) (ws : list Q)
      (region region' : string) (target : Q) :
  region <> region' ->
  Qsum (zip_with (fun u w => if in_mask region u then w else 0) df
          (rescale_region df ws (region', target)))
  == Qsum (zip_with (fun u w => if in_mask region u then w else 0) df ws).
Proof.
  intros Hne. unfold rescale_region.
  destruct (List.filter (in_mask region') df); [reflexivity |].
  destruct (Qeq_bool _ 0); [reflexivity |].
  by apply masked_sum_other_region.
Qed.

(** The turn of the loop for this region multiplies its taxpayer weight
    by the scaling factor. *)
Lemma rescale_own_region (df : list unit_row) (ws : list Q)
      (region : string) (target : Q) :
  ~ total_weight df region == 0 ->
  Qsum (zip_with (fun u w => if in_mask region u then w else 0) df
          (rescale_region df ws (region, target)))
  == target / total_weight df region
     * Qsum (zip_with (fun u w => if in_mask region u then w else 0) df ws).
Proof.
  intros Hnz. unfold rescale_region.
  destruct (List.filter (in_mask region) df) eqn:Hf.
  - exfalso. apply Hnz. unfold total_weight. rewrite Hf. reflexivity.
  - destruct (Qeq_bool (total_weight df region) 0) eqn:Hz.
    + exfalso. apply Hnz. by apply Qeq_bool_iff.
    + apply masked_sum_scaled.
Qed.

Lemma fold_rescale_other_regions (df : list unit_row) (quota : list (string * Q))
      (ws : list Q) (region : string) :
  ~ In region (map fst quota) ->
  Qsum (zip_with (fun u w => if in_mask region u then w else 0) df
          (fold_left (rescale_region df) quota ws))
  == Qsum (zip_with (fun u w => if in_mask region u then w else 0) df ws).
Proof.
  revert ws. induction quota as [| [region' target'] quota IH]; intros ws Hnot;
    [reflexivity |].
  cbn [fold_left]. rewrite IH.
  - apply rescale_other_region. intros ->. apply Hnot. by left.
  - intros Hin. apply Hnot. by right.
Qed.

Lemma fold_rescale_own_region (df : list unit_row) (quota : list (string * Q))
      (ws : list Q) (region : string) (target : Q) :
  List.NoDup (map fst quota) -> In (region, target) quota ->
  ~ total_weight df region == 0 ->
  Qsum (zip_with (fun u w => if in_mask region u then w else 0) df
          (fold_left (rescale_region df) quota ws))
  == target / total_weight df region
     * Qsum (zip_with (fun u w => if in_mask region u then w else 0) df ws).
Proof.
  intros Hnd Hin Hnz. revert ws Hnd Hin.
  induction quota as [| [region' target'] quota IH]; intros ws Hnd Hin;
    [destruct Hin |].
  cbn [map fst] in Hnd. apply List.NoDup_cons_iff in Hnd as [Hfresh Hnd].
  cbn [fold_left].
  destruct Hin as [Heq | Hin].
  - injection Heq as -> ->.
    rewrite (fold_rescale_other_regions df quota _ region Hfresh).
    by apply rescale_own_region.
  - rewrite (IH _ Hnd Hin).
    rewrite rescale_other_region; [reflexivity |].
    intros ->. apply Hfresh.
    change region' with (fst (region', target)). by apply in_map.
Qed.

(** X16.  A region of the target map whose taxpayers have a total weight
    other than 0 ends with exactly its target as the total final weight
    of its taxpayers; the keys of the map are distinct, as in a dict. *)
Theorem targeted_region_meets_quota
    (df : list unit_row) (quota : list (string * Q)) (region : string) (target : Q) :
  List.NoDup (map fst quota) ->
  In (region, target) quota ->
  ~ total_weight (map normalize_region df) region == 0 ->
  total_weight (scale_final_weights_by_taxpayer_counts df quota) region == target.
Proof.
  intros Hnd Hin Hnz. unfold scale_final_weights_by_taxpayer_counts.
  set (ndf := map normalize_region df) in *.
  rewrite total_weight_of_column.
  rewrite (fold_rescale_own_region ndf quota _ region target Hnd Hin Hnz).
  rewrite <- total_weight_own_column. field. exact Hnz.
Qed.

Lemma targeted_region_meets_quota_witness :
  total_weight (scale_final_weights_by_taxpayer_counts sample_frame sample_quota)
    "galicia" == 10.
Proof.
  apply (targeted_region_meets_quota sample_frame sample_quota "galicia" 10).
  - repeat constructor; simpl; intuition congruence.
  - left. reflexivity.
  - vm_compute. discriminate.
Defined.

End QuotaTargets.

Section ExpanderTotals.
Import Expander.
Variable variate : nat -> Q.
Variables base_threshold split_prob : Q.

(** The ratios of every household add up to 1, so a column times the
    ratio sums, over all repeated rows, to the column over the frame. *)
Lemma ratios_sum_over_frame (f : household -> Q)
      (flags : list bool) (df : list household) (k : nat) :
  length flags = length df ->
  Qsum (map (fun hr : household * Q => f hr.1 * hr.2)
            (zip (repeat_rows df (map n_units_of flags))
                 (ratios_loop variate (map n_units_of flags) k)))
  == Qsum (map f df).
Proof.
  revert df k. induction flags as [| b flags IH]; intros [| h df] k Hlen;
    simpl in Hlen; try discriminate; [reflexivity |].
  injection Hlen as Hlen.
  destruct b; simpl.
  - destruct (Qltb (variate k) 0.5); simpl;
      rewrite ?Qsum_cons, (IH df (S k) Hlen); lra.
  - rewrite ?Qsum_cons, (IH df k Hlen); lra.
Qed.

Lemma scaled_column_over_frame (f : household -> Q) (fu : tax_unit -> Q)
      (pairs : list (household * Q)) (idx : list nat) :
  (forall h ratio i, fu (scale_unit h ratio i) = f h * ratio) ->
  (length pairs <= length idx)%nat ->
  map fu (zip_with (fun (hr : household * Q) i => scale_unit hr.1 hr.2 i) pairs idx)
  = map (fun hr : household * Q => f hr.1 * hr.2) pairs.
Proof.
  intros Hcol. revert idx.
  induction pairs as [| [h ratio] pairs IH]; intros [| i idx] Hlen; simpl in *;
    try lia; try reflexivity.
  rewrite Hcol, IH by lia. reflexivity.
Qed.

Lemma repeat_rows_length (flags : list bool) (df : list household) :
  length flags = length df ->
  length (repeat_rows df (map n_units_of flags))
  = (length df + length (List.filter (fun b : bool => b) flags))%nat.
Proof.
  revert df. induction flags as [| b flags IH]; intros [| h df] Hlen;
    simpl in Hlen; try discriminate; [reflexivity |].
  injection Hlen as Hlen. destruct b; simpl; rewrite (IH df Hlen); lia.
Qed.

(** X17.  Over the whole frame, with or without repeated identifiers, the
    expander returns one unit per household and one more per household
    that is split, and each of the seven monetary columns and the
    weight has the same total over the units as over the households. *)
Theorem expansion_preserves_frame_totals (df : list household) :
  exists units,
    expand_households_to_individuals variate base_threshold split_prob df
      = Some units /\
    length units
    = (length df
       + length (List.filter (fun b : bool => b)
                   (split_flags variate base_threshold split_prob df)))%nat /\
    Forall (fun cols : (household -> Q) * (tax_unit -> Q) =>
              Qsum (map cols.2 units) == Qsum (map cols.1 df))
           scaled_columns.
Proof.
  unfold expand_households_to_individuals.
  set (flags := split_flags variate base_threshold split_prob df).
  assert (length flags = length df) as Hfl by apply length_imap.
  pose proof (ratios_loop_length variate flags df (length df) Hfl) as Hlen.
  rewrite Hlen, Nat.eqb_refl. simpl negb. cbv iota.
  eexists. split; [reflexivity |]. split.
  - rewrite length_zip_with, length_zip, Hlen, cumcount_length, length_map.
    rewrite (repeat_rows_length flags df Hfl). lia.
  - assert (forall (f : household -> Q) (fu : tax_unit -> Q),
              (forall h ratio i, fu (scale_unit h ratio i) = f h * ratio) ->
              Qsum (map fu
                (zip_with (fun (hr : household * Q) i => scale_unit hr.1 hr.2 i)
                   (zip (repeat_rows df (map n_units_of flags))
                        (ratios_loop variate (map n_units_of flags) (length df)))
                   (cumcount (map Original_ID (repeat_rows df (map n_units_of flags))))))
              == Qsum (map f df)) as Hcol.
    { intros f fu Hscale.
      rewrite (scaled_column_over_frame f fu _ _ Hscale).
      - apply (ratios_sum_over_frame f flags df _ Hfl).
      - rewrite cumcount_length, length_map, length_zip. lia. }
    unfold scaled_columns.
    repeat (apply Forall_cons; split; [apply Hcol; reflexivity |]).
    apply Forall_nil. exact I.
Qed.

Lemma imap_all_false {A : Type} (g : nat -> A -> bool) (l : list A) :
  (forall i x, In x l -> g i x = false) -> imap g l = map (fun _ => false) l.
Proof.
  revert g. induction l as [| x l IH]; intros g Hg; [reflexivity |].
  cbn [imap map]. rewrite (Hg 0%nat x) by (by left). f_equal.
  apply IH. intros i y Hy. apply Hg. by right.
Qed.

Lemma repeat_rows_unsplit (df : list household) :
  repeat_rows df (map n_units_of (map (fun _ : household => false) df)) = df.
Proof. induction df as [| h df IH]; [reflexivity |]. simpl. by rewrite IH. Qed.

Lemma ratios_loop_unsplit (df : list household) (k : nat) :
  ratios_loop variate (map n_units_of (map (fun _ : household => false) df)) k
  = map (fun _ => 1.0) df.
Proof. induction df as [| h df IH]; [reflexivity |]. simpl. by rewrite IH. Qed.

Lemma whole_units (df : list household) (idx : list nat) :
  (length df <= length idx)%nat ->
  Forall2 (fun h u =>
             Split_From u = Original_ID h /\
             Forall (fun cols : (household -> Q) * (tax_unit -> Q) =>
                       cols.2 u == cols.1 h) scaled_columns)
          df
          (zip_with (fun (hr : household * Q) i => scale_unit hr.1 hr.2 i)
             (zip df (map (fun _ => 1.0) df)) idx).
Proof.
  revert idx. induction df as [| h df IH]; intros [| i idx] Hlen; simpl in Hlen;
    try lia; [apply Forall2_nil_2 | apply Forall2_nil_2 |].
  cbn [map zip zip_with]. apply Forall2_cons. split; [| apply IH; lia].
  split; [reflexivity |].
  unfold scaled_columns.
  repeat (apply Forall_cons; split; [cbn; lra |]).
  apply Forall_nil. exact I.
Qed.

(** X18.  When no household lies above the threshold, nothing is split
    whatever the variates are: the expander returns one unit for each
    household, in the order of the frame, with every monetary column
    and the weight of that household. *)
Theorem households_below_threshold_stay_whole (df : list household) :
  Forall (fun h => Net_Wealth h <= base_threshold) df ->
  exists units,
    expand_households_to_individuals variate base_threshold split_prob df
      = Some units /\
    Forall2 (fun h u =>
               Split_From u = Original_ID h /\
               Forall (fun cols : (household -> Q) * (tax_unit -> Q) =>
                         cols.2 u == cols.1 h) scaled_columns)
            df units.
Proof.
  intros Hlow. unfold expand_households_to_individuals.
  assert (split_flags variate base_threshold split_prob df
          = map (fun _ => false) df) as ->.
  { unfold split_flags. apply imap_all_false. intros i h Hin.
    rewrite Forall_forall in Hlow.
    assert (Qgtb (Net_Wealth h) base_threshold = false) as ->; [| reflexivity].
    apply Qgtb_false. apply Hlow. by apply list_elem_of_In. }
  rewrite repeat_rows_unsplit, ratios_loop_unsplit, length_map, Nat.eqb_refl.
  simpl negb. cbv iota.
  eexists. split; [reflexivity |].
  apply whole_units. rewrite cumcount_length, length_map. lia.
Qed.

End ExpanderTotals.

Section ExpanderSamples.
Import Expander.

Lemma households_below_threshold_stay_whole_witness :
  exists units,
    expand_households_to_individuals sample_variates 3000000 0.7 sample_households
      = Some units /\
    Forall2 (fun h u =>
               Split_From u = Original_ID h /\
               Forall (fun cols : (household -> Q) * (tax_unit -> Q) =>
                         cols.2 u == cols.1 h) scaled_columns)
            sample_households units.
Proof.
  apply (households_below_threshold_stay_whole sample_variates 3000000 0.7
           sample_households).
  repeat (apply Forall_cons; split; [vm_compute; discriminate |]).
  apply Forall_nil. exact I.
Defined.

End ExpanderSamples.

Section ParetoSmallFrames.
Import ParetoTail.

Lemma insert_desc_permutation (x : unit_row) (l : list unit_row) :
  Permutation (insert_desc x l) (x :: l).
Proof.
  induction l as [| y l IH]; simpl; [reflexivity |].
  destruct (Qle_bool _ _); [reflexivity |].
  rewrite IH. apply perm_swap.
Qed.

Lemma sort_desc_permutation (df : list unit_row) : Permutation (sort_desc df) df.
Proof.
  induction df as [| x df IH]; simpl; [reflexivity |].
  rewrite insert_desc_permutation. by constructor.
Qed.

(** X19.  A frame of fewer than ten units has no top-10% window: the
    injection draws nothing and returns the units of the frame, each
    one unchanged, in the order of the sort. *)
Theorem small_frame_is_only_sorted
    (df : list unit_row) (top1_share_target top10_share_target : Q)
    (pareto : nat -> Q) :
  (length df < 10)%nat ->
  inject_calibrated_pareto_tail df top1_share_target top10_share_target pareto
    = Some (sort_desc df) /\
  Permutation (sort_desc df) df.
Proof.
  intros Hsmall. split; [| apply sort_desc_permutation].
  unfold inject_calibrated_pareto_tail. cbv zeta.
  unfold top1_window, next9_window, untouched, top1_n, top10_n.
  rewrite sort_desc_length.
  rewrite (Nat.div_small (length df) 100), (Nat.div_small (length df) 10) by lia.
  reflexivity.
Qed.

Lemma small_frame_is_only_sorted_witness :
  inject_calibrated_pareto_tail (take 9 hundred_units) 0.20 0.50 unit_variate
    = Some (sort_desc (take 9 hundred_units)) /\
  Permutation (sort_desc (take 9 hundred_units)) (take 9 hundred_units).
Proof.
  apply (small_frame_is_only_sorted (take 9 hundred_units) 0.20 0.50 unit_variate).
  vm_compute. lia.
Defined.

End ParetoSmallFrames.

Section ReweightingTotals.
Import Calibrator.

Lemma Qltb_irrefl (v : Q) : Qltb v v = false.
Proof. apply Qltb_false. lra. Qed.

(** X20.  A frame that keeps a single unit of non-negative value cannot
    be cut into ten bins: all the bin edges coincide, and the call
    raises before any weight is computed. *)
Theorem single_unit_is_not_binned (dataframe : list unit_row) (r : unit_row) :
  List.filter (fun r => Qle_bool 0 (Net_Wealth r)) dataframe = [r] ->
  reweight_to_match_percentile_shares dataframe 10 = Raised BinEdgesNotUnique.
Proof.
  intros Hone. unfold reweight_to_match_percentile_shares, ranked_rows.
  rewrite Hone. cbv zeta.
  assert (rank_pct (map Net_Wealth [r]) = [Q_of_nat 1 / Q_of_nat 1]) as ->.
  { unfold rank_pct, rank_first. cbn [map imap take List.filter length].
    rewrite Qltb_irrefl. reflexivity. }
  vm_compute. reflexivity.
Qed.

Lemma single_unit_is_not_binned_witness :
  reweight_to_match_percentile_shares
    (frame_of [ (-5, 1); (1000, 2); (-1, 3) ]) 10
  = Raised BinEdgesNotUnique.
Proof.
  apply (single_unit_is_not_binned (frame_of [ (-5, 1); (1000, 2); (-1, 3) ])
           {| Net_Wealth := 1000; Weight := 2 |}).
  vm_compute. reflexivity.
Defined.

Lemma rank_pct_length (values : list Q) : length (rank_pct values) = length values.
Proof. unfold rank_pct, rank_first. by rewrite length_map, length_imap. Qed.

Lemma qcut_length (x : list Q) (q : nat) (labels : list (option nat)) :
  qcut x q = Returned labels -> length labels = length x.
Proof.
  unfold qcut. destruct (negb _ || _); [discriminate |].
  intros [= <-]. apply length_map.
Qed.

Lemma zip_with_columns {A B C D : Type} (f : A -> B -> C) (g : C -> D) (h : A -> D)
      (l : list A) (k : list B) :
  (forall a b, g (f a b) = h a) -> length l = length k ->
  map g (zip_with f l k) = map h l.
Proof.
  intros Hg. revert k. induction l as [| a l IH]; intros [| b k] Hlen;
    simpl in Hlen; try discriminate; [reflexivity |].
  injection Hlen as Hlen. simpl. by rewrite Hg, IH.
Qed.

(** The ranking stage keeps the units of non-negative value, in the
    order of the frame. *)
Lemma ranked_rows_columns {D : Type} (g : reweighted_row -> D) (h : unit_row -> D)
      (df : list unit_row) (q : nat) (rows : list reweighted_row) :
  (forall r rank label,
     g {| r_Net_Wealth := Net_Wealth r; r_Weight := Weight r;
          Wealth_Rank := rank; Wealth_Percentile := label;
          Weighted_Wealth := Net_Wealth r * Weight r;
          Scaling_Factor := NaN; Adjusted_Weight := NaN |} = h r) ->
  ranked_rows df q = Returned rows ->
  map g rows = map h (List.filter (fun r => Qle_bool 0 (Net_Wealth r)) df).
Proof.
  intros Hg. unfold ranked_rows.
  destruct (qcut _ q) as [e | labels] eqn:Hq; [discriminate |].
  intros [= <-]. apply qcut_length in Hq.
  rewrite rank_pct_length, length_map in Hq.
  apply zip_with_columns.
  - intros r [rank label]. apply Hg.
  - rewrite length_zip, rank_pct_length, length_map, Hq. lia.
Qed.

(** X21.  Whenever the reweighting returns, its rows are the units of
    non-negative value, in the order of the frame and with the value
    and the weight they came with; the units of negative value are
    gone. *)
Theorem reweighting_keeps_nonnegative_units
    (dataframe : list unit_row) (rows : list reweighted_row) :
  reweight_to_match_percentile_shares dataframe 10 = Returned rows ->
  map (fun r => (r_Net_Wealth r, r_Weight r)) rows
  = map (fun r => (Net_Wealth r, Weight r))
        (List.filter (fun r => Qle_bool 0 (Net_Wealth r)) dataframe) /\
  Forall (fun r => 0 <= r_Net_Wealth r) rows.
Proof.
  unfold reweight_to_match_percentile_shares.
  destruct (ranked_rows dataframe 10) as [e | ranked] eqn:Hranked; [discriminate |].
  destruct (scaling_factors_of 10 ranked) as [e | sf]; [discriminate |].
  intros [= <-].
  assert (map (fun r => (r_Net_Wealth r, r_Weight r)) (map (set_factor sf) ranked)
          = map (fun r => (Net_Wealth r, Weight r))
                (List.filter (fun r => Qle_bool 0 (Net_Wealth r)) dataframe)) as Hcols.
  { rewrite map_map.
    apply (ranked_rows_columns
             (fun r => (r_Net_Wealth (set_factor sf r), r_Weight (set_factor sf r)))
             (fun r => (Net_Wealth r, Weight r)) dataframe 10 ranked);
      [reflexivity | exact Hranked]. }
  split; [exact Hcols |].
  assert (map r_Net_Wealth (map (set_factor sf) ranked)
          = map Net_Wealth
                (List.filter (fun r => Qle_bool 0 (Net_Wealth r)) dataframe)) as Hvalues.
  { rewrite map_map.
    apply (ranked_rows_columns (fun r => r_Net_Wealth (set_factor sf r))
             Net_Wealth dataframe 10 ranked); [reflexivity | exact Hranked]. }
  apply Forall_forall. intros r Hr.
  apply list_elem_of_In in Hr.
  apply (in_map r_Net_Wealth) in Hr. rewrite Hvalues in Hr.
  apply in_map_iff in Hr as (u & <- & Hu).
  apply filter_In in Hu as [_ Hu]. by apply Qle_bool_iff.
Qed.

Lemma reweighting_keeps_nonnegative_units_witness :
  exists rows,
    reweight_to_match_percentile_shares ten_units 10 = Returned rows /\
    map (fun r => (r_Net_Wealth r, r_Weight r)) rows
    = map (fun r => (Net_Wealth r, Weight r))
          (List.filter (fun r => Qle_bool 0 (Net_Wealth r)) ten_units).
Proof.
  destruct (reweight_to_match_percentile_shares ten_units 10) as [e | rows] eqn:Hrun;
    [vm_compute in Hrun; discriminate |].
  exists rows. split; [reflexivity |].
  exact (proj1 (reweighting_keeps_nonnegative_units ten_units rows Hrun)).
Defined.

End ReweightingTotals.

Section ReweightingConservation.
Import Calibrator.

Lemma bin_sum_cons (f : reweighted_row -> Q) (b : nat) (r : reweighted_row)
      (rows : list reweighted_row) :
  bin_sum f b (r :: rows)
  = if bool_decide (Wealth_Percentile r = Some b)
    then f r + bin_sum f b rows else bin_sum f b rows.
Proof.
  unfold bin_sum. cbn [List.filter].
  destruct (bool_decide (Wealth_Percentile r = Some b)); reflexivity.
Qed.

Lemma Qsum_label_absent (c : Q) (g : nat -> Q) (b0 : nat) (l : list nat) :
  ~ In b0 l ->
  Qsum (map (fun b => if bool_decide (Some b0 = Some b) then c + g b else g b) l)
  == Qsum (map g l).
Proof.
  intros Hnot. apply Qsum_pointwise. intros b Hb.
  rewrite bool_decide_eq_false_2; [reflexivity |].
  intros [= ->]. contradiction.
Qed.

Lemma Qsum_label_present (c : Q) (g : nat -> Q) (b0 : nat) (l : list nat) :
  List.NoDup l -> In b0 l ->
  Qsum (map (fun b => if bool_decide (Some b0 = Some b) then c + g b else g b) l)
  == c + Qsum (map g l).
Proof.
  induction 1 as [| x l Hfresh Hnd IH]; intros Hin; [destruct Hin |].
  cbn [map]. rewrite !Qsum_cons.
  destruct (decide (b0 = x)) as [-> | Hne].
  - rewrite bool_decide_eq_true_2 by reflexivity.
    rewrite (Qsum_label_absent c g x l Hfresh). lra.
  - rewrite bool_decide_eq_false_2 by congruence.
    destruct Hin as [-> | Hin]; [congruence |].
    rewrite (IH Hin). lra.
Qed.

(** Every row carries one of the ten labels, so a column summed bin by
    bin is the column summed over the frame. *)
Lemma sum_over_bins (f : reweighted_row -> Q) (rows : list reweighted_row) :
  Forall (fun r => exists b, Wealth_Percentile r = Some b /\ (b < 10)%nat) rows ->
  Qsum (map (fun b => bin_sum f b rows) (seq 0 10)) == Qsum (map f rows).
Proof.
  induction 1 as [| r rows (b0 & Hlabel & Hlt) Hrest IH]; [reflexivity |].
  cbn [map]. rewrite Qsum_cons, <- IH.
  rewrite (Qsum_pointwise (fun b => bin_sum f b (r :: rows))
             (fun b => if bool_decide (Some b0 = Some b)
                       then f r + bin_sum f b rows else bin_sum f b rows)).
  - apply Qsum_label_present; [apply List.seq_NoDup | apply in_seq; lia].
  - intros b _. rewrite bin_sum_cons, Hlabel. reflexivity.
Qed.

(** X22.  Under the conditions in which the reweighting matches its
    targets, the adjusted weights carry the total weighted value that
    the kept units had under their original weights: value is moved
    between the bins, none is added or lost. *)
Theorem reweighting_preserves_total_value
    (dataframe : list unit_row) (ranked : list reweighted_row) :
  ranked_rows dataframe 10 = Returned ranked ->
  ~ weighted_total ranked == 0 ->
  (forall b, (b < 10)%nat -> ~ bin_sum Weighted_Wealth b ranked == 0) ->
  exists rows,
    reweight_to_match_percentile_shares dataframe 10 = Returned rows /\
    Qsum (map adjusted_wealth rows)
    == total_weighted_value
         (List.filter (fun r => Qle_bool 0 (Net_Wealth r)) dataframe).
Proof.
  intros Hranked Hnz Hbins.
  pose proof (ranked_rows_weighted _ _ _ Hranked) as Hweighted.
  pose proof (ranked_rows_labels _ _ Hranked) as Hlabels.
  assert (exists sf, scaling_factors_of 10 ranked = Returned sf) as [sf Hsf].
  { unfold scaling_factors_of. rewrite (groups_all_present ranked Hbins).
    rewrite !length_map, target_shares_length, length_seq. simpl. eauto. }
  pose proof (scaling_factors_finite ranked sf Hsf Hnz) as Hfactor.
  exists (map (set_factor sf) ranked). split.
  { unfold reweight_to_match_percentile_shares. by rewrite Hranked, Hsf. }
  assert (Forall (fun r => exists b, Wealth_Percentile r = Some b /\ (b < 10)%nat)
                 (map (set_factor sf) ranked)) as Hlabels'.
  { apply Forall_fmap. eapply Forall_impl; [exact Hlabels |].
    intros r Hr. exact Hr. }
  rewrite <- (sum_over_bins adjusted_wealth _ Hlabels').
  rewrite (Qsum_pointwise _ (fun b => nth b target_shares 0 * weighted_total ranked)).
  - rewrite Qsum_scale, target_shares_seq.
    unfold weighted_total. rewrite (sum_over_bins Weighted_Wealth ranked Hlabels).
    unfold total_weighted_value.
    rewrite (ranked_rows_columns Weighted_Wealth (fun r => Net_Wealth r * Weight r)
               dataframe 10 ranked); [lra | reflexivity | exact Hranked].
  - intros b Hb. apply in_seq in Hb.
    assert (b < 10)%nat as Hlt by lia.
    rewrite (bin_sum_adjusted sf b _ ranked Hweighted (Hfactor b Hlt (Hbins b Hlt))).
    field. split; [exact Hnz | apply (Hbins b Hlt)].
Qed.

Lemma reweighting_preserves_total_value_witness :
  exists rows,
    reweight_to_match_percentile_shares ten_units 10 = Returned rows /\
    Qsum (map adjusted_wealth rows)
    == total_weighted_value
         (List.filter (fun r => Qle_bool 0 (Net_Wealth r)) ten_units).
Proof.
  destruct (ranked_rows ten_units 10) as [e | ranked] eqn:Hranked;
    [vm_compute in Hranked; discriminate |].
  apply (reweighting_preserves_total_value ten_units ranked Hranked).
  - vm_compute in Hranked. injection Hranked as <-. vm_compute. discriminate.
  - vm_compute in Hranked. injection Hranked as <-.
    intros b Hb.
    do 10 (destruct b as [| b]; [vm_compute; discriminate |]). lia.
Defined.

End ReweightingConservation.

Section RegionMultipliers.
Import Multipliers.

Lemma unique_In (x : string) (l : list string) : In x (unique l) <-> In x l.
Proof.
  induction l as [| y l IH]; [reflexivity |].
  cbn [unique]. split.
  - intros [-> | Hin]; [by left |].
    apply filter_In in Hin as [Hin _]. right. by apply IH.
  - intros [-> | Hin]; [by left |].
    destruct (String.eqb_spec x y) as [-> | Hne]; [by left |].
    right. apply filter_In. split; [by apply IH |].
    apply negb_true_iff. by apply String.eqb_neq.
Qed.

Lemma unique_NoDup (l : list string) : List.NoDup (unique l).
Proof.
  induction l as [| y l IH]; cbn [unique]; constructor.
  - intros Hin. apply filter_In in Hin as [_ Hne].
    rewrite String.eqb_refl in Hne. discriminate.
  - by apply List.NoDup_filter.
Qed.

Lemma rescale_row_region (factor : Q) (recompute : bool) (r : unit_row) :
  Region (rescale_row factor recompute r) = Region r.
Proof. unfold rescale_row. by destruct recompute. Qed.

(** The turns of the loop for distinct regions rescale a row once when
    its region is among them, and not at all otherwise. *)
Lemma fold_region_turns (multipliers : gmap string Q) (recompute : bool)
      (regions : list string) (df : list unit_row) :
  List.NoDup regions ->
  fold_left (region_turn multipliers recompute) regions df
  = map (fun r => if existsb (String.eqb (Region r)) regions
                  then rescale_once multipliers recompute r else r) df.
Proof.
  intros Hnd. revert df.
  induction Hnd as [| region regions Hfresh Hnd IH]; intros df.
  - cbn [fold_left existsb]. by rewrite map_id.
  - cbn [fold_left existsb]. rewrite IH. unfold region_turn. rewrite map_map.
    apply map_ext. intros r.
    destruct (String.eqb_spec (Region r) region) as [Heq | Hne]; cbn [orb].
    + rewrite rescale_row_region.
      assert (existsb (String.eqb (Region r)) regions = false) as ->.
      { apply not_true_iff_false. intros Hex.
        apply existsb_exists in Hex as (y & Hy & Hry).
        apply String.eqb_eq in Hry. congruence. }
      unfold rescale_once. by rewrite Heq.
    + reflexivity.
Qed.

(** X23.  On a frame without NaN in the three required ratio columns the
    function returns, and the loop over the regions comes to one
    rescaling of every row by the factor of that row's own region, 1.0
    when the region is not a key of the multipliers: no row is scaled
    twice and none is left out.  With [recompute] set, every row of the
    result has debts equal to assets times debt ratio and net wealth
    equal to assets minus debts. *)
Theorem every_row_rescaled_once
    (df : list unit_row) (multipliers : gmap string Q) (recompute : bool) :
  first_nan_column df = None ->
  apply_region_multipliers df multipliers recompute
    = Returned (map (rescale_once multipliers recompute) df) /\
  (recompute = true ->
   Forall (fun r => Debts r = Total_Assets r * value_of (Debt_Ratio r) /\
                    Net_Wealth r = Total_Assets r - Debts r)
          (map (rescale_once multipliers recompute) df)).
Proof.
  intros Hclean. split.
  - unfold apply_region_multipliers. cbv zeta. rewrite Hclean. f_equal.
    rewrite (fold_region_turns _ _ _ _ (unique_NoDup (map Region df))).
    apply map_ext_in. intros r Hr.
    assert (existsb (String.eqb (Region r)) (unique (map Region df)) = true) as ->;
      [| reflexivity].
    apply existsb_exists. exists (Region r). split.
    + apply unique_In. by apply in_map.
    + apply String.eqb_refl.
  - intros ->. apply Forall_fmap, Forall_forall. intros r _.
    split; reflexivity.
Qed.

Lemma every_row_rescaled_once_witness :
  apply_region_multipliers sample_frame region_scaling true
    = Returned (map (rescale_once region_scaling true) sample_frame) /\
  map Total_Assets (map (rescale_once region_scaling true) sample_frame)
    = [1000 * 0.2; 2000 * 1.5; 3000 * 0.2; 4000 * 1.0].
Proof.
  split; [| reflexivity].
  apply (every_row_rescaled_once sample_frame region_scaling true).
  reflexivity.
Defined.

End RegionMultipliers.

Section TopShares.
Import TopShare.

Lemma insert_desc_Forall (P : row -> Prop) (x : row) (l : list row) :
  P x -> Forall P l -> Forall P (insert_desc x l).
Proof.
  intros Hx. induction 1 as [| y l Hy Hl IH]; cbn [insert_desc].
  - by repeat constructor.
  - destruct (Qle_bool _ _); repeat constructor; assumption.
Qed.

Lemma sort_desc_Forall (P : row -> Prop) (df : list row) :
  Forall P df -> Forall P (sort_desc df).
Proof.
  induction 1 as [| x df Hx Hdf IH]; cbn [sort_desc foldr]; [constructor |].
  by apply insert_desc_Forall.
Qed.

(** The rows that the function keeps and sorts have a positive value;
    they have a weight that is not negative when all rows have. *)
Lemma kept_rows_nonneg (df : list row) :
  Forall (fun r => 0 <= weight_of r) df ->
  Forall (fun r => 0 <= value_of r * weight_of r /\ 0 <= weight_of r)
         (sort_desc (List.filter (fun r => Qgtb (value_of r) 0) df)).
Proof.
  intros Hw. apply sort_desc_Forall. apply Forall_forall. intros r Hr.
  apply list_elem_of_In, filter_In in Hr as [Hin Hpos].
  apply Qgtb_true in Hpos.
  rewrite Forall_forall in Hw. specialize (Hw r (proj2 (list_elem_of_In _ _) Hin)).
  split; [nra | exact Hw].
Qed.

Lemma Qsum_nonneg (l : list Q) : Forall (fun x => 0 <= x) l -> 0 <= Qsum l.
Proof.
  induction 1 as [| x l Hx Hl IH]; [unfold Qsum; simpl; lra |].
  rewrite Qsum_cons. lra.
Qed.

(** Two selections from the same rows, the first inside the second:
    with terms that are not negative the first sums to no more. *)
Lemma selected_sum_le (f : row -> Q) (p q : row * Q -> bool)
      (df : list row) (cum : list Q) :
  Forall (fun r => 0 <= f r) df ->
  (forall rc, p rc = true -> q rc = true) ->
  0 <= Qsum (map f (map fst (List.filter p (zip df cum)))) /\
  Qsum (map f (map fst (List.filter p (zip df cum))))
    <= Qsum (map f (map fst (List.filter q (zip df cum)))).
Proof.
  intros Hf Hpq. revert cum.
  induction Hf as [| r df Hr Hdf IH]; intros [| c cum];
    try (cbn; split; lra).
  cbn [zip zip_with List.filter]. destruct (IH cum) as [IH0 IH1].
  destruct (p (r, c)) eqn:Hp.
  - rewrite (Hpq _ Hp). cbn [map fst]. rewrite !Qsum_cons. split; lra.
  - destruct (q (r, c)); cbn [map fst]; rewrite ?Qsum_cons; split; lra.
Qed.

(** Every selection sums to no more than the whole frame. *)
Lemma selected_sum_le_all (f : row -> Q) (p : row * Q -> bool)
      (df : list row) (cum : list Q) :
  Forall (fun r => 0 <= f r) df ->
  Qsum (map f (map fst (List.filter p (zip df cum)))) <= Qsum (map f df).
Proof.
  intros Hf. revert cum.
  induction Hf as [| r df Hr Hdf IH]; intros [| c cum];
    try (cbn; lra).
  - cbn [zip zip_with List.filter map]. rewrite Qsum_cons.
    pose proof (Qsum_nonneg (map f df)) as Hnn.
    assert (0 <= Qsum (map f df)) by (apply Hnn, Forall_fmap; exact Hdf).
    unfold Qsum at 1. simpl. lra.
  - cbn [zip zip_with List.filter]. specialize (IH cum).
    destruct (p (r, c)); cbn [map fst]; rewrite ?Qsum_cons; lra.
Qed.

Lemma share_bounds (top total : Q) :
  0 <= top -> top <= total -> 0 < total -> 0 <= top / total /\ top / total <= 1.
Proof.
  intros H0 H1 Ht.
  assert (top / total * total == top) as Hq by (field; lra).
  set (s := top / total) in *. clearbody s. split; nra.
Qed.

(** X24.  With weights that are not negative the share of the top
    percentile is a number between 0 and 1, and it does not fall when
    the percentile is widened. *)
Theorem top_share_is_a_share (df : list row) (pct1 pct2 : Q) :
  Forall (fun r => 0 <= weight_of r) df ->
  pct1 <= pct2 ->
  0 <= share_in_top_percentile df pct1 /\
  share_in_top_percentile df pct1 <= share_in_top_percentile df pct2 /\
  share_in_top_percentile df pct2 <= 1.
Proof.
  intros Hw Hpct. unfold share_in_top_percentile. cbv zeta.
  pose proof (kept_rows_nonneg df Hw) as Hkept.
  set (kept := sort_desc (List.filter (fun r => Qgtb (value_of r) 0) df)) in *.
  clearbody kept.
  assert (Forall (fun r => 0 <= value_of r * weight_of r) kept) as Hterms
    by (eapply Forall_impl; [exact Hkept | intros r [H _]; exact H]).
  assert (0 <= Qsum (map weight_of kept)) as Htw.
  { apply Qsum_nonneg, Forall_fmap.
    eapply Forall_impl; [exact Hkept | intros r [_ H]; exact H]. }
  destruct (Qeq_bool (Qsum (map weight_of kept)) 0); [repeat split; lra |].
  destruct (Qgtb (weighted_value kept) 0) eqn:Hpos; [| repeat split; lra].
  apply Qgtb_true in Hpos.
  unfold rows_within, weighted_value in *.
  set (cum := cumsum (map weight_of kept)). clearbody cum.
  destruct (selected_sum_le (fun r => value_of r * weight_of r)
              (fun rc : row * Q => Qle_bool rc.2 (Qsum (map weight_of kept) * pct1))
              (fun rc : row * Q => Qle_bool rc.2 (Qsum (map weight_of kept) * pct2))
              kept cum Hterms) as [H0 H12].
  { intros rc Hrc. apply Qle_bool_iff in Hrc. apply Qle_bool_iff. nra. }
  pose proof (selected_sum_le_all (fun r => value_of r * weight_of r)
                (fun rc : row * Q => Qle_bool rc.2 (Qsum (map weight_of kept) * pct2))
                kept cum Hterms) as H2.
  set (top1 := Qsum (map _ (map fst (List.filter
                 (fun rc : row * Q => Qle_bool rc.2 (Qsum (map weight_of kept) * pct1))
                 (zip kept cum))))) in *.
  set (top2 := Qsum (map _ (map fst (List.filter
                 (fun rc : row * Q => Qle_bool rc.2 (Qsum (map weight_of kept) * pct2))
                 (zip kept cum))))) in *.
  set (total := Qsum (map (fun r => value_of r * weight_of r) kept)) in *.
  clearbody top1 top2 total.
  assert (top1 / total * total == top1) as Hq1 by (field; lra).
  assert (top2 / total * total == top2) as Hq2 by (field; lra).
  set (s1 := top1 / total) in *. set (s2 := top2 / total) in *.
  clearbody s1 s2. repeat split; nra.
Qed.

Lemma top_share_is_a_share_witness :
  0 <= share_in_top_percentile five_rows 0.2 /\
  share_in_top_percentile five_rows 0.2 <= share_in_top_percentile five_rows 0.4 /\
  share_in_top_percentile five_rows 0.4 <= 1.
Proof.
  apply (top_share_is_a_share five_rows 0.2 0.4).
  - repeat (apply Forall_cons; split; [vm_compute; discriminate |]).
    apply Forall_nil. exact I.
  - vm_compute. discriminate.
Defined.

End TopShares.

Section WholePopulation.
Import TopShare.

Lemma insert_desc_rows (x : row) (l : list row) :
  Permutation (insert_desc x l) (x :: l).
Proof.
  induction l as [| y l IH]; cbn [insert_desc]; [reflexivity |].
  destruct (Qle_bool _ _); [reflexivity |].
  rewrite IH. apply perm_swap.
Qed.

Lemma sort_desc_rows (df : list row) : Permutation (sort_desc df) df.
Proof.
  induction df as [| x df IH]; cbn [sort_desc foldr]; [reflexivity |].
  rewrite insert_desc_rows. by constructor.
Qed.

Lemma Qsum_member_le (x : Q) (l : list Q) :
  Forall (fun y => 0 <= y) l -> In x l -> x <= Qsum l.
Proof.
  induction 1 as [| y l Hy Hl IH]; intros Hin; [destruct Hin |].
  rewrite Qsum_cons. pose proof (Qsum_nonneg l Hl).
  destruct Hin as [-> | Hin]; [lra |]. specialize (IH Hin). lra.
Qed.

Lemma cumsum_from_length (acc : Q) (l : list Q) :
  length (cumsum_from acc l) = length l.
Proof.
  revert acc. induction l as [| x l IH]; intros acc; [reflexivity |].
  cbn [cumsum_from length]. by rewrite IH.
Qed.

(** With terms that are not negative, no running total exceeds the
    total. *)
Lemma cumsum_from_bound (acc : Q) (l : list Q) :
  Forall (fun x => 0 <= x) l ->
  Forall (fun c => c <= acc + Qsum l) (cumsum_from acc l).
Proof.
  intros Hl. revert acc.
  induction Hl as [| x l Hx Hl IH]; intros acc; cbn [cumsum_from]; constructor.
  - rewrite Qsum_cons. pose proof (Qsum_nonneg l Hl). lra.
  - eapply Forall_impl; [apply (IH (acc + x)) |].
    intros c Hc. cbv beta in Hc. rewrite Qsum_cons. lra.
Qed.

Lemma rows_within_all (cutoff : Q) (df : list row) :
  Forall (fun c => c <= cutoff) (cumsum (map weight_of df)) ->
  rows_within cutoff df = df.
Proof.
  unfold rows_within, cumsum.
  generalize 0 at 1 2. induction df as [| r df IH]; intros acc Hc; [reflexivity |].
  cbn [map cumsum_from] in *. apply Forall_cons in Hc as [Hc Hrest].
  cbn [zip zip_with List.filter snd].
  apply Qle_bool_iff in Hc. rewrite Hc. cbn [map fst]. f_equal.
  by apply IH.
Qed.

(** X25.  When the percentile is the whole population, the weights are
    not negative and some unit has a positive value and weight, the
    share is 1: the cumulative-weight cut leaves no unit out. *)
Theorem whole_population_holds_all (df : list row) (top_pct : Q) (rich : row) :
  Forall (fun r => 0 <= weight_of r) df ->
  1 <= top_pct ->
  In rich df -> 0 < value_of rich -> 0 < weight_of rich ->
  share_in_top_percentile df top_pct == 1.
Proof.
  intros Hw Hpct Hin Hv Hwt. unfold share_in_top_percentile. cbv zeta.
  pose proof (kept_rows_nonneg df Hw) as Hkept.
  assert (In rich (sort_desc (List.filter (fun r => Qgtb (value_of r) 0) df)))
    as Hrich.
  { apply (Permutation_in _ (Permutation_sym (sort_desc_rows _))).
    apply filter_In. split; [exact Hin | by apply Qgtb_true]. }
  set (kept := sort_desc (List.filter (fun r => Qgtb (value_of r) 0) df)) in *.
  clearbody kept.
  assert (Forall (fun x => 0 <= x) (map weight_of kept)) as Hweights.
  { apply Forall_fmap. eapply Forall_impl; [exact Hkept | intros r [_ H]; exact H]. }
  assert (Forall (fun x => 0 <= x) (map (fun r => value_of r * weight_of r) kept))
    as Hterms.
  { apply Forall_fmap. eapply Forall_impl; [exact Hkept | intros r [H _]; exact H]. }
  assert (0 < Qsum (map weight_of kept)) as Htw.
  { eapply Qlt_le_trans; [exact Hwt |].
    apply (Qsum_member_le _ _ Hweights). by apply in_map. }
  assert (0 < weighted_value kept) as Htv.
  { assert (0 < value_of rich * weight_of rich) as Hpos by nra.
    eapply Qlt_le_trans; [exact Hpos |].
    apply (Qsum_member_le _ _ Hterms).
    by apply (in_map (fun r => value_of r * weight_of r)). }
  assert (Qeq_bool (Qsum (map weight_of kept)) 0 = false) as ->.
  { apply not_true_iff_false. intros E. apply Qeq_bool_iff in E. lra. }
  assert (Qgtb (weighted_value kept) 0 = true) as -> by (by apply Qgtb_true).
  rewrite rows_within_all.
  - field. lra.
  - eapply Forall_impl; [apply (cumsum_from_bound 0 _ Hweights) |].
    intros c Hc. cbv beta in Hc. nra.
Qed.

Lemma whole_population_holds_all_witness :
  share_in_top_percentile five_rows 1 == 1.
Proof.
  apply (whole_population_holds_all five_rows 1 (50, 1)).
  - repeat (apply Forall_cons; split; [vm_compute; discriminate |]).
    apply Forall_nil. exact I.
  - vm_compute. discriminate.
  - right. left. reflexivity.
  - vm_compute. reflexivity.
  - vm_compute. reflexivity.
Defined.

End WholePopulation.

Section EqualValues.
Import TopShare Inequality.

(** The pairs of one value [c] with the weights [w]. *)
Lemma zip_constant (c : Q) (w : list Q) :
  zip (map (fun _ => c) w) w = map (fun wi => (c, wi)) w.
Proof. induction w as [| wi w IH]; [reflexivity |]. cbn. by rewrite IH. Qed.

Lemma argsort_constant (c : Q) (w : list Q) :
  argsort (map (fun wi => (c, wi)) w) = map (fun wi => (c, wi)) w.
Proof.
  induction w as [| wi w IH]; [reflexivity |].
  cbn [map argsort foldr]. fold (argsort (map (fun wi => (c, wi)) w)). rewrite IH.
  destruct w as [| wj w]; [reflexivity |].
  cbn [map insert_asc fst].
  assert (Qle_bool c c = true) as -> by (apply Qle_bool_iff; lra).
  reflexivity.
Qed.

Lemma last_cumsum_from (acc : Q) (l : list Q) :
  l <> [] ->
  exists t, last (cumsum_from acc l) = Some t /\ t == acc + Qsum l.
Proof.
  revert acc. induction l as [| x l IH]; intros acc Hne; [done |].
  destruct l as [| y l].
  - exists (acc + x). split; [reflexivity |]. unfold Qsum. simpl. lra.
  - destruct (IH (acc + x)) as (t & Ht & Heq); [done |].
    exists t. split.
    + cbn [cumsum_from] in *. exact Ht.
    + rewrite Heq, (Qsum_cons x). lra.
Qed.

(** The sum under the Lorenz curve when every value is [c]. *)
Lemma lorenz_sum_constant (c acc : Q) (w : list Q) :
  lorenz_sum (map (fun wi => (c, wi)) w)
    (cumsum_from acc (map (fun p : Q * Q => p.1 * p.2) (map (fun wi => (c, wi)) w)))
  == acc * Qsum w + c * (Qsum w * Qsum w) / 2.
Proof.
  unfold lorenz_sum. revert acc.
  induction w as [| wi w IH]; intros acc.
  - unfold Qsum. simpl. field.
  - cbn [map cumsum_from zip_with fst snd]. rewrite !Qsum_cons.
    rewrite (IH (acc + c * wi)). field.
Qed.

(** X26.  When every unit has the same value, other than 0, and the
    weights do not sum to 0, the weighted Gini coefficient is 0,
    whatever the weights are. *)
Theorem equal_values_have_gini_zero (c : Q) (w : list Q) :
  ~ c == 0 -> ~ Qsum w == 0 ->
  exists g,
    weighted_gini (map (fun _ => c) w) w = Returned (Calibrator.Finite g) /\
    g == 0.
Proof.
  intros Hc Hw.
  assert (w <> []) as Hne by (intros ->; apply Hw; reflexivity).
  unfold weighted_gini. cbv zeta.
  rewrite zip_constant, argsort_constant.
  assert (map snd (map (fun wi => (c, wi)) w) = w) as ->.
  { rewrite map_map. apply map_id. }
  pose proof (lorenz_sum_constant c 0 w) as Hs.
  unfold cumsum.
  destruct (last_cumsum_from 0 w Hne) as (tw & -> & Htw).
  set (xw := map (fun p : Q * Q => p.1 * p.2) (map (fun wi => (c, wi)) w)) in *.
  assert (Qsum xw == c * Qsum w) as Hxw.
  { unfold xw. rewrite map_map. cbn [fst snd].
    clear. induction w as [| wi w IH]; [unfold Qsum; simpl; lra |].
    cbn [map]. rewrite !Qsum_cons, IH. lra. }
  assert (xw <> []) as Hxne.
  { unfold xw. destruct w; [done | discriminate]. }
  destruct (last_cumsum_from 0 xw Hxne) as (txw & -> & Htxw).
  set (s := lorenz_sum _ _) in *. clearbody s xw.
  unfold Calibrator.qdiv.
  assert (~ tw * txw == 0) as Hden.
  { rewrite Htw, Htxw, Hxw. intros E.
    assert (Qsum w * Qsum w * c == 0) as E' by (rewrite <- E; ring).
    apply Qmult_integral in E' as [E' | E']; [| contradiction].
    apply Qmult_integral in E' as [E' | E']; contradiction. }
  assert (Qeq_bool (tw * txw) 0 = false) as ->.
  { apply not_true_iff_false. intros E. by apply Qeq_bool_iff in E. }
  eexists. split; [reflexivity |].
  rewrite Hs, Htw, Htxw, Hxw. field. split; assumption.
Qed.

Lemma equal_values_have_gini_zero_witness :
  exists g,
    weighted_gini [5; 5; 5] [1; 2; 3] = Returned (Calibrator.Finite g) /\ g == 0.
Proof.
  apply (equal_values_have_gini_zero 5 [1; 2; 3]); vm_compute; discriminate.
Defined.

End EqualValues.

Section BalanceSheets.
Import Households.

(** X27.  After step 3 of [generate_and_adjust_households] a household
    has a net wealth of at least 7000 and assets equal to net wealth
    plus debts; its assets are never lowered, and they are left as they
    were when the net wealth already reached 7000.  When the floor
    binds on a household with positive assets and debt ratio, the debts
    fall short of the new assets times the debt ratio, and real and
    financial assets are those ratios of the new assets. *)
Theorem net_wealth_floor_keeps_accounts (h : household) :
  let h' := construct_other_components h in
  7000 <= Net_Wealth h' /\
  Total_Assets h' == Net_Wealth h' + Debts h' /\
  Total_Assets h <= Total_Assets h' /\
  (7000 <= Total_Assets h * (1 - Debt_Ratio h) -> Total_Assets h' == Total_Assets h) /\
  (Total_Assets h * (1 - Debt_Ratio h) < 7000 ->
   0 < Total_Assets h -> 0 < Debt_Ratio h ->
   Debts h' < Total_Assets h' * Debt_Ratio h') /\
  Real_Assets h' + Financial_Assets h'
    == Total_Assets h' * (Real_Asset_Ratio h + Financial_Asset_Ratio h).
Proof.
  intros h'. subst h'. unfold construct_other_components. cbv zeta.
  cbn [Net_Wealth Total_Assets Debts Debt_Ratio Real_Assets Financial_Assets].
  set (ta := Total_Assets h). set (dr := Debt_Ratio h).
  set (rar := Real_Asset_Ratio h). set (far := Financial_Asset_Ratio h).
  clearbody ta dr rar far.
  destruct (Q.max_spec (ta - ta * dr) 7000) as [[Hlt E] | [Hge E]]; rewrite E;
    repeat split; intros; try lra; try nra.
Qed.

End BalanceSheets.

Section ZeroingRules.
Import Pipeline PipelineSamples.

Lemma run_tax_simulation_dropout_witness :
  Wealth_Tax (run_tax_simulation_row late_dropout_unit 0.01) == 0.
Proof.
  apply (run_tax_simulation_dropout late_dropout_unit 0.01).
  vm_compute. reflexivity.
Defined.

Lemma migration_exit_zeroed_witness :
  Taxable_Wealth_Eroded (taxed (main_row top_rank_unit exit_draws)) == 0 /\
  Wealth_Tax (taxed (main_row top_rank_unit exit_draws)) == 0.
Proof.
  apply (migration_exit_zeroed top_rank_unit exit_draws).
  vm_compute. reflexivity.
Defined.

Lemma madrid_zeroed_witness :
  Wealth_Tax (taxed (main_row madrid_unit late_dropout_draws)) == 0.
Proof.
  apply (madrid_zeroed madrid_unit late_dropout_draws).
  vm_compute. reflexivity.
Defined.

End ZeroingRules.

Section ReweightingErrors.
Import Calibrator.

(** When the ranking stage returns and fewer than ten of its bins are
    occupied, the length check fails and the call raises the mismatch
    error; nothing is said here about a ranking stage that raises
    itself, as it does on a single kept unit. *)
Lemma fewer_bins_raise_mismatch
      (dataframe : list unit_row) (ranked : list reweighted_row) :
  ranked_rows dataframe 10 = Returned ranked ->
  (length (groups 10 ranked) < 10)%nat ->
  reweight_to_match_percentile_shares dataframe 10 = Raised PercentileMismatch.
Proof.
  intros Hranked Hfew. unfold reweight_to_match_percentile_shares.
  rewrite Hranked. unfold scaling_factors_of. cbv zeta.
  rewrite !length_map, target_shares_length.
  destruct (Nat.eqb_spec (length (groups 10 ranked)) 10) as [E | _]; [lia |].
  reflexivity.
Qed.

End ReweightingErrors.
